(** * Streaming view-query handle of Couchbase::Client (xs/viewrow.c)

    A shallow embedding of the row dispatcher [viewrow_callback], of the
    consumer invocation [invoke_row], of the field decoder
    [sv_from_rowdata] and of the handle constructor
    [PLCB__viewhandle_new], followed by the properties of the streaming
    query handle established on them.

    Conventions.
    - C pointers that may be NULL are [option]s; a [const char *] with its
      [size_t] length is an [option bytes] (the bytes readable at the
      pointer) next to a [nat].
    - The Perl API is modelled by its documented behaviour (perlapi,
      perlcall): [av_len] is the highest index of an array, [newSVpvn]
      returns an undefined scalar for a NULL buffer, [call_sv] with
      [G_EVAL] traps a [die] of the callee and leaves the error in
      [ERRSV].
    - Everything the dispatcher does that can be observed from outside
      (consumer invocations, warnings, stores into the handle, reference
      count drops) is appended to a trace carried by the state.
    - The dispatcher is embedded twice: in [Dispatcher] for a Perl side
      that reports errors without dying and keeps the cookie referenced,
      which is enough for what is delivered, in which order and in
      which batches; and in [Full] with error values that may be false,
      a [warn] that may die and a cookie that may be freed, for what is
      reported, what the consumer is shown and what becomes of the
      cookie. *)

From Stdlib Require Import ZArith Lia.
From Stdlib.Strings Require Import Byte.
From stdpp Require Import base option list gmap strings.

Open Scope string_scope.
Open Scope list_scope.
Open Scope stdpp_scope.
Open Scope Z_scope.

Abbreviation bytes := (list Byte.byte).

(** ** Perl scalars *)

(** The scalar values this file creates: [&PL_sv_undef], [&PL_sv_yes],
    integers ([newSViv]) and byte strings with their UTF-8 flag
    ([newSVpvn], [SvUTF8_on]). [SvOK] is the test for definedness by
    which Perl code tells an undefined value from a string. *)
Inductive sv : Type :=
| SvUndef
| SvYes
| SvIV (i : Z)
| SvPV (s : bytes) (utf8 : bool).

Definition SvOK (v : sv) : bool :=
  match v with SvUndef => false | _ => true end.

Definition newSViv (i : Z) : sv := SvIV i.

(** [newSVpvn(s, n)]: copies [n] bytes from [s]; a zero [n] gives a
    zero-length string; a NULL [s] gives an undefined scalar. *)
Definition newSVpvn (s : option bytes) (n : nat) : sv :=
  match s with
  | Some buf => SvPV (take n buf) false
  | None => SvUndef
  end.

Definition SvUTF8_on (v : sv) : sv :=
  match v with
  | SvPV s _ => SvPV s true
  | _ => v
  end.

(** [sv_from_rowdata]: wraps the buf:length pair as an SV. *)
Definition sv_from_rowdata (s : option bytes) (n : nat) : sv :=
  if bool_decide (is_Some s) && negb (Nat.eqb n 0) then
    let ret := newSVpvn s n in
    SvUTF8_on ret
  else
    SvUndef.

(** A row is a Perl hash ([HV]) keyed by field name. *)
Abbreviation row := (gmap string sv).

Definition hv_stores (h : row) (k : string) (v : sv) : row := <[k := v]> h.

(** ** Responses of the query engine (libcouchbase) *)

Definition LCB_SUCCESS : Z := 0.
Definition LCB_RESP_F_FINAL : Z := 1.

Record lcb_RESPHTTP := { htstatus : Z }.

Record lcb_RESPGET := {
  get_rc : Z;
  get_value : option bytes;
  get_nvalue : nat }.

Record lcb_RESPVIEWQUERY := {
  rflags : Z;
  rc : Z;
  key : option bytes;       nkey : nat;
  value : option bytes;     nvalue : nat;
  geometry : option bytes;  ngeometry : nat;
  docid : option bytes;     ndocid : nat;
  htresp : option lcb_RESPHTTP;
  docresp : option lcb_RESPGET }.

(** The test [resp->rflags & LCB_RESP_F_FINAL]. *)
Definition is_final (resp : lcb_RESPVIEWQUERY) : bool :=
  negb (Z.land (rflags resp) LCB_RESP_F_FINAL =? 0).

(** ** The handle *)

(** Slots of the handle array ([PLCB_VHIDX_*], an enumeration of
    perl-couchbase.h); distinct constants, hence a type of names. *)
Inductive vhidx : Type :=
| PLCB_VHIDX_ROWBUF
| PLCB_VHIDX_RAWROWS
| PLCB_VHIDX_PARENT
| PLCB_VHIDX_PRIVCB
| PLCB_VHIDX_ISDONE
| PLCB_VHIDX_RC
| PLCB_VHIDX_META
| PLCB_VHIDX_HTCODE.

#[global] Instance vhidx_eq_dec : EqDecision vhidx.
Proof. solve_decision. Defined.

Definition vhidx_to_nat (i : vhidx) : nat :=
  match i with
  | PLCB_VHIDX_ROWBUF => 0 | PLCB_VHIDX_RAWROWS => 1
  | PLCB_VHIDX_PARENT => 2 | PLCB_VHIDX_PRIVCB => 3
  | PLCB_VHIDX_ISDONE => 4 | PLCB_VHIDX_RC => 5
  | PLCB_VHIDX_META => 6 | PLCB_VHIDX_HTCODE => 7
  end%nat.

Definition vhidx_of_nat (n : nat) : option vhidx :=
  match n with
  | 0 => Some PLCB_VHIDX_ROWBUF | 1 => Some PLCB_VHIDX_RAWROWS
  | 2 => Some PLCB_VHIDX_PARENT | 3 => Some PLCB_VHIDX_PRIVCB
  | 4 => Some PLCB_VHIDX_ISDONE | 5 => Some PLCB_VHIDX_RC
  | 6 => Some PLCB_VHIDX_META | 7 => Some PLCB_VHIDX_HTCODE
  | _ => None
  end%nat.

#[global] Instance vhidx_countable : Countable vhidx.
Proof.
  apply (inj_countable vhidx_to_nat vhidx_of_nat).
  by intros [].
Defined.

(** The two arrays a handle owns, reached through the references stored
    at [PLCB_VHIDX_ROWBUF] and [PLCB_VHIDX_RAWROWS]. A value of this type
    is a reference ([RV]) to one of them: whoever holds it sees the
    array of the handle itself, not a copy. *)
Inductive avref : Type := RefRowbuf | RefRawrows.

(** The handle ([AV *req]) as the dispatcher sees it: its scalar slots
    (a slot never stored is NULL, that is absent from the map) and the
    two row arrays behind [PLCB_VHIDX_ROWBUF] and [PLCB_VHIDX_RAWROWS].
    The reference to the parent at [PLCB_VHIDX_PARENT] only serves
    [plcb_evloop_wait_unref]; it appears in the store of [Mem] below. *)
Record viewhandle := {
  slots : gmap vhidx sv;
  rowbuf : list row;
  rawrows : list row }.

Definition av_of (req : viewhandle) (r : avref) : list row :=
  match r with
  | RefRowbuf => rowbuf req
  | RefRawrows => rawrows req
  end.

(** [av_len]: the highest index of the array, -1 when it is empty. *)
Definition av_len {A} (av : list A) : Z := Z.of_nat (length av) - 1.

(** ** Errors, effects and the dispatcher state *)

Inductive fmt_arg : Type := ArgInt (i : Z) | ArgStr (s : string).

(** A message of [warn] or [die]: the format string and its arguments. *)
Record message := { fmt : string; fmt_args : list fmt_arg }.

(** Outcome of C code running under Perl: it returns, or a [die]
    unwinds through it. *)
Inductive result (A : Type) : Type :=
| Ok (a : A)
| Croak (e : message).
Arguments Ok {A} a.
Arguments Croak {A} e.

#[global] Instance result_ret : MRet result := fun A a => Ok a.

#[global] Instance result_bind : MBind result := fun A B k m =>
  match m with
  | Ok a => k a
  | Croak e => Croak e
  end.

(** What one invocation of the consumer callback does: it returns, or
    it dies with an error value, a true value of text [err]. *)
Inductive outcome : Type := Returned | Died (err : string).

Inductive call_flag : Type := G_DISCARD | G_EVAL.

#[global] Instance call_flag_eq_dec : EqDecision call_flag.
Proof. solve_decision. Defined.

Inductive effect : Type :=
| EWaitUnref                               (* plcb_evloop_wait_unref(plobj) *)
| ECall (rows : option (list row)) (o : outcome)
                                           (* consumer callback invoked *)
| EWarn (m : message)                      (* warn(...) *)
| EStore (i : vhidx) (v : sv)              (* av_store(req, i, v) *)
| ECookieDec.                              (* SvREFCNT_dec(req_rv) *)

Section Dispatcher.

(** The consumer callback is Perl code stored by the issuer at
    [PLCB_VHIDX_PRIVCB]: a state machine of its own, which is handed the
    handle and either a reference to the row array or nothing, and which
    returns or dies. It reads the handle; what it may do to the slots and
    to the accumulator of the handle is not part of this file and is not
    modelled.

    This section follows the dispatcher under three assumptions on the
    Perl side: the error value a consumer dies with is a true value
    (so that [SvTRUE(ERRSV)] holds after every trapped [die]); [warn]
    and the stringification of the error return; and the cookie is
    referenced whenever an event arrives. [Full], further down, embeds
    the same functions without them, and [dispatch_erase] relates the
    two. *)
Variable C : Type.
Variable meth : C -> viewhandle -> option (list row) -> C * outcome.

Record world := {
  req : viewhandle;
  cookie_refcnt : nat;      (* references to req_rv, the engine's cookie *)
  consumer : C;
  trace : list effect }.

Definition log (e : effect) (w : world) : world :=
  {| req := req w; cookie_refcnt := cookie_refcnt w;
     consumer := consumer w; trace := trace w ++ [e] |}.

Definition set_req (r : viewhandle) (w : world) : world :=
  {| req := r; cookie_refcnt := cookie_refcnt w;
     consumer := consumer w; trace := trace w |}.

Definition set_consumer (c : C) (w : world) : world :=
  {| req := req w; cookie_refcnt := cookie_refcnt w;
     consumer := c; trace := trace w |}.

Definition av_store (i : vhidx) (v : sv) (w : world) : world :=
  log (EStore i v)
    (set_req {| slots := <[i := v]> (slots (req w));
                rowbuf := rowbuf (req w);
                rawrows := rawrows (req w) |} w).

Definition av_push_rawrows (r : row) (w : world) : world :=
  set_req {| slots := slots (req w);
             rowbuf := rowbuf (req w);
             rawrows := rawrows (req w) ++ [r] |} w.

Definition av_clear (r : avref) (w : world) : world :=
  match r with
  | RefRowbuf =>
      set_req {| slots := slots (req w); rowbuf := [];
                 rawrows := rawrows (req w) |} w
  | RefRawrows =>
      set_req {| slots := slots (req w); rowbuf := rowbuf (req w);
                 rawrows := [] |} w
  end.

(** [SvREFCNT_dec(req_rv)]. The count is kept for the record only: this
    section does not say what freeing the cookie entails, which
    [Full.viewrow_callback] does. *)
Definition SvREFCNT_dec_cookie (w : world) : world :=
  log ECookieDec
    {| req := req w; cookie_refcnt := Nat.pred (cookie_refcnt w);
       consumer := consumer w; trace := trace w |}.

(** [warn(...)], for a [__WARN__] hook that returns, or none; [Full.warn]
    has the hook. *)
Definition warn (m : message) (w : world) : world := log (EWarn m) w.

(** [call_sv(meth, flags)]: runs the consumer callback on the pushed
    arguments. With [G_EVAL] a [die] of the callee is trapped and left
    in [ERRSV] (here [Some err]; [None] is the empty [ERRSV] of a normal
    return); without it the [die] unwinds through the caller. *)
Definition call_sv (args : option (list row)) (flags : list call_flag)
    (w : world) : result (world * option string) :=
  let '(c, o) := meth (consumer w) (req w) args in
  let w := log (ECall args o) (set_consumer c w) in
  match o with
  | Returned => Ok (w, None)
  | Died err =>
      if bool_decide (G_EVAL ∈ flags) then Ok (w, Some err)
      else Croak {| fmt := err; fmt_args := [] |}
  end.

(** [invoke_row(req, reqrv, rowsrv)], the error of a consumer that died
    being a true value: [SvTRUE(ERRSV)] is [ERRSV] being [Some err]. *)
Definition invoke_row (rowsrv : option avref) (w : world) : result world :=
  let args := av_of (req w) <$> rowsrv in
  '(w, ERRSV) ← call_sv args [G_DISCARD; G_EVAL] w;
  let w :=
    match ERRSV with
    | Some err =>
        warn {| fmt := "Got error in %s"; fmt_args := [ArgStr err] |} w
    | None => w
    end in
  let w :=
    match rowsrv with
    | Some r => av_clear r w
    | None => w
    end in
  Ok w.

(** The row hash built from a row event. *)
Definition rowdata_of (resp : lcb_RESPVIEWQUERY) : row :=
  let rowdata : row := ∅ in
  let rowdata := hv_stores rowdata "key" (sv_from_rowdata (key resp) (nkey resp)) in
  let rowdata := hv_stores rowdata "value" (sv_from_rowdata (value resp) (nvalue resp)) in
  let rowdata := hv_stores rowdata "geometry" (sv_from_rowdata (geometry resp) (ngeometry resp)) in
  let rowdata := hv_stores rowdata "id" (sv_from_rowdata (docid resp) (ndocid resp)) in
  match docresp resp with
  | Some d =>
      if get_rc d =? LCB_SUCCESS then
        hv_stores rowdata "__doc__" (newSVpvn (get_value d) (get_nvalue d))
      else rowdata
  | None => rowdata
  end.

(** [viewrow_callback(obj, ct, resp)], on the handle behind
    [resp->cookie]. *)
Definition viewrow_callback (resp : lcb_RESPVIEWQUERY) (w : world)
    : result world :=
  let rawrows_rv := RefRawrows in
  let w := log EWaitUnref w in
  if is_final resp then
    (* Flush any remaining rows.. *)
    w ← invoke_row (Some rawrows_rv) w;
    let w := av_store PLCB_VHIDX_ISDONE SvYes w in
    let w := av_store PLCB_VHIDX_RC (newSViv (rc resp)) w in
    let w := av_store PLCB_VHIDX_META
               (sv_from_rowdata (value resp) (nvalue resp)) w in
    let w :=
      match htresp resp with
      | Some ht => av_store PLCB_VHIDX_HTCODE (newSViv (htstatus ht)) w
      | None => w
      end in
    w ← invoke_row None w;
    Ok (SvREFCNT_dec_cookie w)
  else
    let rowdata := rowdata_of resp in
    let w := av_push_rawrows rowdata w in
    if av_len (av_of (req w) rawrows_rv) >=? 20 then
      invoke_row (Some rawrows_rv) w
    else Ok w.

(** [rowreq_init_common]: [av_fill] leaves every slot NULL; the two row
    arrays are new and empty. *)
Definition rowreq_init_common : viewhandle :=
  {| slots := ∅; rowbuf := []; rawrows := [] |}.

(** The state in which the engine starts to deliver events: the handle
    as [PLCB__viewhandle_new] leaves it, the cookie holding one
    reference. *)
Definition world_init (c : C) : world :=
  {| req := rowreq_init_common; cookie_refcnt := 1;
     consumer := c; trace := [] |}.

(** The engine delivering a sequence of events to the dispatcher. *)
Fixpoint dispatch (evs : list lcb_RESPVIEWQUERY) (w : world) : result world :=
  match evs with
  | [] => Ok w
  | ev :: evs => w ← viewrow_callback ev w; dispatch evs w
  end.

End Dispatcher.

Arguments req {C} w.
Arguments cookie_refcnt {C} w.
Arguments consumer {C} w.
Arguments trace {C} w.
Arguments world_init {C} c.

(** ** Reading the trace *)

(** The consumer invocations, in order: [Some rows] is a data-bearing
    invocation with the row array as second argument, [None] the
    invocation with the handle alone. *)
Definition calls (tr : list effect) : list (option (list row)) :=
  omap (fun e => match e with ECall a _ => Some a | _ => None end) tr.

(** The row batches handed to the consumer. *)
Definition batches (tr : list effect) : list (list row) :=
  omap id (calls tr).

Definition nonempty_batches (tr : list effect) : list (list row) :=
  filter (fun b => b ≠ []) (batches tr).

Definition warnings (tr : list effect) : list message :=
  omap (fun e => match e with EWarn m => Some m | _ => None end) tr.

(** The error values with which consumer invocations died. *)
Definition faults (tr : list effect) : list string :=
  omap (fun e => match e with ECall _ (Died err) => Some err | _ => None end) tr.

Definition got_error_in (err : string) : message :=
  {| fmt := "Got error in %s"; fmt_args := [ArgStr err] |}.

(** The values stored into slot [i], in order. *)
Definition stores_to (i : vhidx) (tr : list effect) : list sv :=
  omap (fun e => match e with
                 | EStore j v => if decide (i = j) then Some v else None
                 | _ => None
                 end) tr.

(** A slot that was never stored reads as NULL. *)
Definition unset (i : vhidx) (h : viewhandle) : Prop := slots h !! i = None.

(** [isDone] as the consumer reads it: the truth value of the slot. *)
Definition isDone (h : viewhandle) : bool :=
  match slots h !! PLCB_VHIDX_ISDONE with
  | Some SvYes => true
  | _ => false
  end.

(** What one consumer invocation appends to the trace: the call, and
    the warning when the callee died. *)
Definition invoke_effects (o : outcome) (args : option (list row)) : list effect :=
  ECall args o ::
  match o with
  | Returned => []
  | Died err => [EWarn {| fmt := "Got error in %s"; fmt_args := [ArgStr err] |}]
  end.

(** The stores of the terminal path, as effects and as the slots they
    leave. *)
Definition final_stores (resp : lcb_RESPVIEWQUERY) : list effect :=
  [EStore PLCB_VHIDX_ISDONE SvYes;
   EStore PLCB_VHIDX_RC (newSViv (rc resp));
   EStore PLCB_VHIDX_META (sv_from_rowdata (value resp) (nvalue resp))]
  ++ match htresp resp with
     | Some ht => [EStore PLCB_VHIDX_HTCODE (newSViv (htstatus ht))]
     | None => []
     end.

Definition final_slots (resp : lcb_RESPVIEWQUERY) (s : gmap vhidx sv) : gmap vhidx sv :=
  let s := <[PLCB_VHIDX_ISDONE := SvYes]> s in
  let s := <[PLCB_VHIDX_RC := newSViv (rc resp)]> s in
  let s := <[PLCB_VHIDX_META := sv_from_rowdata (value resp) (nvalue resp)]> s in
  match htresp resp with
  | Some ht => <[PLCB_VHIDX_HTCODE := newSViv (htstatus ht)]> s
  | None => s
  end.

(** What a run that returned lets one observe of its final state. *)
Definition observe {C A} (f : world C -> A) (r : result (world C)) : option A :=
  match r with
  | Ok w => Some (f w)
  | Croak _ => None
  end.

(** The sizes of the batches of the consumer invocations; [None] stands
    for an invocation without rows. *)
Definition call_sizes {C} (w : world C) : list (option nat) :=
  fmap (M := option) length <$> calls (trace w).

(** Every data-bearing consumer invocation carries at least one row. *)
Definition no_empty_batch (tr : list effect) : Prop :=
  Forall (fun b => b ≠ []) (batches tr).

(** The number of consumer invocations without rows (the "no more
    rows" notification). *)
Definition none_count (tr : list effect) : nat :=
  length (filter (fun c => c = None) (calls tr)).

(** The number of final events in a sequence of events. *)
Definition finals (evs : list lcb_RESPVIEWQUERY) : nat :=
  length (filter (fun ev => is_final ev = true) evs).

(** The terminal-only slots. *)
Definition terminal_slots : list vhidx :=
  [PLCB_VHIDX_RC; PLCB_VHIDX_META; PLCB_VHIDX_HTCODE].

(** ** Sample consumers and events *)

(** A consumer that always returns, and one that dies on every
    invocation. *)
Definition quiet (c : unit) (h : viewhandle) (rows : option (list row))
    : unit * outcome := (tt, Returned).

Definition faulty (c : unit) (h : viewhandle) (rows : option (list row))
    : unit * outcome := (tt, Died "boom").

(** A row event with a key and a value, no geometry, a document id. *)
Definition sample_row : lcb_RESPVIEWQUERY :=
  {| rflags := 0; rc := LCB_SUCCESS;
     key := Some [x22; x61; x22]; nkey := 3;
     value := Some [x31]; nvalue := 1;
     geometry := None; ngeometry := 0;
     docid := Some [x64; x31]; ndocid := 2;
     htresp := None; docresp := None |}.

(** The same row with a document sub-response of status [st]. *)
Definition sample_row_doc (st : Z) (v : option bytes) (n : nat)
    : lcb_RESPVIEWQUERY :=
  {| rflags := 0; rc := LCB_SUCCESS;
     key := Some [x22; x61; x22]; nkey := 3;
     value := Some [x31]; nvalue := 1;
     geometry := None; ngeometry := 0;
     docid := Some [x64; x31]; ndocid := 2;
     htresp := None;
     docresp := Some {| get_rc := st; get_value := v; get_nvalue := n |} |}.

(** A successful final event with metadata and an HTTP status. *)
Definition sample_final : lcb_RESPVIEWQUERY :=
  {| rflags := LCB_RESP_F_FINAL; rc := LCB_SUCCESS;
     key := None; nkey := 0;
     value := Some [x7b; x7d]; nvalue := 2;
     geometry := None; ngeometry := 0;
     docid := None; ndocid := 0;
     htresp := Some {| htstatus := 200 |}; docresp := None |}.

(** The decoding the specification asks for: a field with no source or
    of length zero is absent, any other is the text of its bytes. *)
Definition decoded_field (s : option bytes) (n : nat) : sv :=
  match s, n with
  | Some buf, S _ => SvPV (take n buf) true
  | _, _ => SvUndef
  end.

(** Two row events that differ in their key only: the first has none,
    the second has one that is empty. *)
Definition sample_row_no_key : lcb_RESPVIEWQUERY :=
  {| rflags := 0; rc := LCB_SUCCESS;
     key := None; nkey := 0;
     value := Some [x31]; nvalue := 1;
     geometry := None; ngeometry := 0;
     docid := Some [x64; x31]; ndocid := 2;
     htresp := None; docresp := None |}.

Definition sample_row_empty_key : lcb_RESPVIEWQUERY :=
  {| rflags := 0; rc := LCB_SUCCESS;
     key := Some []; nkey := 0;
     value := Some [x31]; nvalue := 1;
     geometry := None; ngeometry := 0;
     docid := Some [x64; x31]; ndocid := 2;
     htresp := None; docresp := None |}.

(** A state whose accumulator holds twenty rows. *)
Definition sample_world_20 : world unit :=
  {| req := {| slots := ∅; rowbuf := [];
               rawrows := replicate 20 (rowdata_of sample_row) |};
     cookie_refcnt := 1; consumer := tt; trace := [] |}.

(** ** Reference counts: creation and release of a handle *)

(** [PLCB__viewhandle_new] is about who holds which object. It is
    embedded over a store of reference-counted Perl values; freeing a
    value releases what it refers to. *)
Module Mem.

Definition loc := positive.

Inductive body : Type :=
| Scalar                                          (* a value holding no reference *)
| RV (target : loc)                               (* a reference *)
| AV (elems : list (option loc)) (stash : option string).
                                (* an array (NULL elements are [None]) and
                                   the package it is blessed into *)

Record cell := { refcnt : nat; contents : body }.

Abbreviation heap := (gmap loc cell).

(** The values a value holds a reference on. *)
Definition children (b : body) : list loc :=
  match b with
  | Scalar => []
  | RV t => [t]
  | AV elems _ => omap id elems
  end.

(** A new value has reference count 1. *)
Definition new_SV (b : body) (h : heap) : loc * heap :=
  let l := fresh (dom h) in
  (l, <[l := {| refcnt := 1; contents := b |}]> h).

Definition SvREFCNT_inc (l : loc) (h : heap) : heap :=
  alter (fun c => {| refcnt := S (refcnt c); contents := contents c |}) l h.

(** Dropping references, one pending drop at a time: a value whose
    count falls to zero is freed and a drop is pending for each of its
    children. [None] only when [fuel] runs out. *)
Fixpoint release (fuel : nat) (pending : list loc) (h : heap) : option heap :=
  match pending with
  | [] => Some h
  | l :: pending =>
      match fuel with
      | O => None
      | S fuel =>
          match h !! l with
          | None => release fuel pending h
          | Some c =>
              if decide (refcnt c ≤ 1)%nat then
                release fuel (children (contents c) ++ pending) (delete l h)
              else
                release fuel pending
                  (<[l := {| refcnt := Nat.pred (refcnt c);
                             contents := contents c |}]> h)
          end
      end
  end.

(** A bound on the number of drops a store can undergo. *)
Definition weight (h : heap) : nat :=
  map_fold (fun _ c acc => S (length (children (contents c))) + acc)%nat 0%nat h.

(** [SvREFCNT_dec]. The fuel given always suffices ([release_total]
    below), so the default is never taken. *)
Definition SvREFCNT_dec (l : loc) (h : heap) : heap :=
  default h (release (S (weight h)) [l] h).

Definition newAV (h : heap) : loc * heap := new_SV (AV [] None) h.

Definition newRV_noinc (target : loc) (h : heap) : loc * heap :=
  new_SV (RV target) h.

Definition newRV_inc (target : loc) (h : heap) : loc * heap :=
  new_SV (RV target) (SvREFCNT_inc target h).

(** [newSVsv(old)]: a copy of [old]; the copy of a reference holds a
    reference of its own. *)
Definition newSVsv (old : loc) (h : heap) : loc * heap :=
  match contents <$> h !! old with
  | Some (RV t) => new_SV (RV t) (SvREFCNT_inc t h)
  | _ => new_SV Scalar h
  end.

(** [av_fill(av, fill)]: the highest index becomes [fill], new elements
    are NULL. *)
Definition av_fill (av : loc) (fill : nat) (h : heap) : heap :=
  match h !! av with
  | Some {| refcnt := n; contents := AV elems st |} =>
      <[av := {| refcnt := n; contents := AV (resize (S fill) None elems) st |}]> h
  | _ => h
  end.

(** [av_store(av, i, val)]: the array takes over the caller's reference
    on [val]; the array grows when [i] is beyond its end, and a value
    stored there before is released. *)
Definition av_store (av : loc) (i : nat) (val : loc) (h : heap) : heap :=
  match h !! av with
  | Some {| refcnt := n; contents := AV elems st |} =>
      let elems' := resize (Nat.max (S i) (length elems)) None elems in
      let h := <[av := {| refcnt := n;
                          contents := AV (<[i := Some val]> elems') st |}]> h in
      match elems !! i with
      | Some (Some old) => SvREFCNT_dec old h
      | _ => h
      end
  | _ => h
  end.

(** [sv_bless(rv, stash)]: blesses the value [rv] refers to. The stash
    is a package symbol table, which outlives every handle; the
    reference the blessed value holds on it is not counted. *)
Definition sv_bless (rv : loc) (stash : string) (h : heap) : heap :=
  match contents <$> h !! rv with
  | Some (RV t) =>
      alter (fun c =>
               match contents c with
               | AV elems _ => {| refcnt := refcnt c; contents := AV elems (Some stash) |}
               | _ => c
               end) t h
  | _ => h
  end.

(** Positions of the slots in the handle array. perl-couchbase.h, which
    declares the enumeration, is not among the sources: the numbering is
    [vhidx_to_nat], with [PLCB_VHIDX_MAX] closing the enumeration. *)
Definition PLCB_VHIDX_MAX : nat := 8.

Record PLCB_t := {
  selfobj : loc;
  instance : nat;
  view_stash : string }.

Record lcb_CMDVIEWQUERY := {
  cmd_ddoc : string;
  cmd_view : string;
  cmd_optstr : string;
  cmdflags : Z }.

Definition rowreq_init_common (parent : PLCB_t) (req : loc) (h : heap) : heap :=
  let h := av_fill req PLCB_VHIDX_MAX h in
  let '(rowbuf, h) := newAV h in
  let '(rowbuf_rv, h) := newRV_noinc rowbuf h in
  let h := av_store req (vhidx_to_nat PLCB_VHIDX_ROWBUF) rowbuf_rv h in
  let '(rawrows, h) := newAV h in
  let '(rawrows_rv, h) := newRV_noinc rawrows h in
  let h := av_store req (vhidx_to_nat PLCB_VHIDX_RAWROWS) rawrows_rv h in
  let '(parent_rv, h) := newRV_inc (selfobj parent) h in
  av_store req (vhidx_to_nat PLCB_VHIDX_PARENT) parent_rv h.

(** The values [PLCB__viewhandle_new] creates: the handle array, its
    two row arrays with the references to them, the reference to the
    parent, the blessed reference and its copy, the cookie. *)
Record handle_locs := {
  l_req : loc; l_rowbuf : loc; l_rowbuf_rv : loc; l_rawrows : loc;
  l_rawrows_rv : loc; l_parent_rv : loc; l_blessed : loc; l_cbrv : loc }.

Definition locs_of (k : handle_locs) : list loc :=
  [l_req k; l_rowbuf k; l_rowbuf_rv k; l_rawrows k; l_rawrows_rv k;
   l_parent_rv k; l_blessed k; l_cbrv k].

(** The store once the handle is built and the cookie made: [h] with
    the new values, the handle referred to twice, the parent once more
    than before. *)
Definition handle_store (parent : PLCB_t) (c : cell) (k : handle_locs)
    (h : heap) : heap :=
  <[l_cbrv k := {| refcnt := 1; contents := RV (l_req k) |}]>
  (<[l_blessed k := {| refcnt := 1; contents := RV (l_req k) |}]>
  (<[l_req k := {| refcnt := 2;
                   contents := AV [Some (l_rowbuf_rv k); Some (l_rawrows_rv k);
                                   Some (l_parent_rv k);
                                   None; None; None; None; None; None]
                                  (Some (view_stash parent)) |}]>
  (<[l_parent_rv k := {| refcnt := 1; contents := RV (selfobj parent) |}]>
  (<[selfobj parent := {| refcnt := S (refcnt c); contents := contents c |}]>
  (<[l_rawrows_rv k := {| refcnt := 1; contents := RV (l_rawrows k) |}]>
  (<[l_rawrows k := {| refcnt := 1; contents := AV [] None |}]>
  (<[l_rowbuf_rv k := {| refcnt := 1; contents := RV (l_rowbuf k) |}]>
  (<[l_rowbuf k := {| refcnt := 1; contents := AV [] None |}]> h)))))))).

Section Issue.

(** The query engine: [lcb_view_query(instance, cookie, &cmd)] answers
    with a status, and [lcb_strerror] describes a status. A rejected
    submission leaves nothing of the cookie with the engine. *)
Variable lcb_view_query : nat -> loc -> lcb_CMDVIEWQUERY -> Z.
Variable lcb_strerror : Z -> string.

(** [lcb_view_query_initcmd] followed by the assignment of [cmdflags]. *)
Definition initcmd (ddoc view options : string) (flags : Z) : lcb_CMDVIEWQUERY :=
  {| cmd_ddoc := ddoc; cmd_view := view; cmd_optstr := options;
     cmdflags := flags |}.

(** [PLCB__viewhandle_new]: the store it leaves, and the blessed handle
    it returns unless it dies. *)
Definition PLCB__viewhandle_new (parent : PLCB_t)
    (ddoc view options : string) (flags : Z) (h : heap) : heap * result loc :=
  let '(req, h) := newAV h in
  let h := rowreq_init_common parent req h in
  let '(blessed, h) := newRV_noinc req h in
  let h := sv_bless blessed (view_stash parent) h in
  let '(cbrv, h) := newSVsv blessed h in
  let cmd := initcmd ddoc view options flags in
  let rc := lcb_view_query (instance parent) cbrv cmd in
  if negb (rc =? LCB_SUCCESS) then
    let h := SvREFCNT_dec blessed h in
    let h := SvREFCNT_dec cbrv h in
    (h, Croak {| fmt := "Couldn't issue view query: (0x%x): %s";
                 fmt_args := [ArgInt rc; ArgStr (lcb_strerror rc)] |})
  else
    (h, Ok blessed).

End Issue.

Section Fetch.

(** [NUM2PTR(PLCB_t*, SvUV(sv))]: the client structure whose address
    the value [sv] holds; the engine's state and [lcb_wait]. *)
Variable plcb_of : loc -> option PLCB_t.
Variable W : Type.
Variable lcb_wait : nat -> W -> W.

(** [parent_from_req]. [None] where the C code would dereference NULL
    or something that is not a reference. *)
Definition parent_from_req (req : loc) (h : heap) : option PLCB_t :=
  match contents <$> h !! req with
  | Some (AV elems _) =>
      match elems !! vhidx_to_nat PLCB_VHIDX_PARENT with
      | Some (Some pp) =>
          match contents <$> h !! pp with
          | Some (RV sv) => plcb_of sv
          | _ => None
          end
      | _ => None
      end
  | _ => None
  end.

(** [PLCB__viewhandle_fetch(pp)]: waits on the instance of the client
    that issued the query. *)
Definition PLCB__viewhandle_fetch (pp : loc) (h : heap) (e : W) : option W :=
  match contents <$> h !! pp with
  | Some (RV req) =>
      parent ← parent_from_req req h;
      Some (lcb_wait (instance parent) e)
  | _ => None
  end.

End Fetch.

(** The handle with one of its two references dropped. *)
Definition req_cell (parent : PLCB_t) (k : handle_locs) (n : nat) : cell :=
  {| refcnt := n;
     contents := AV [Some (l_rowbuf_rv k); Some (l_rawrows_rv k);
                     Some (l_parent_rv k);
                     None; None; None; None; None; None]
                    (Some (view_stash parent)) |}.

(** A store holding a client object referred to twice, the client, and
    an engine that rejects every submission with status 0x17. *)
Definition sample_store : heap :=
  {[ 5%positive := {| refcnt := 2; contents := Scalar |} ]}.

Definition sample_parent : PLCB_t :=
  {| selfobj := 5%positive; instance := 0;
     view_stash := "Couchbase::View::Handle" |}.

Definition rejecting (inst : nat) (cookie : loc) (cmd : lcb_CMDVIEWQUERY) : Z := 23.

Definition accepting (inst : nat) (cookie : loc) (cmd : lcb_CMDVIEWQUERY) : Z :=
  LCB_SUCCESS.

Definition sample_strerror (rc : Z) : string :=
  if rc =? LCB_SUCCESS then "Success" else "Network failure".

(** The client structure behind the client object of [sample_store],
    and an engine whose state counts the waits. *)
Definition sample_plcb_of (l : loc) : option PLCB_t :=
  if decide (l = 5%positive) then Some sample_parent else None.

Definition sample_wait (inst : nat) (e : nat) : nat := S e.

End Mem.

(** ** The dispatcher with the Perl side in full

    [Dispatcher] above is the dispatcher seen by a consumer whose error
    values are true values, under a [warn] that returns, for as long as
    the cookie is referenced. This module embeds the same functions
    with what the Perl side can do besides:
    - [SvTRUE(ERRSV)]: the error value of a trapped [die] may be a false
      value, and then no warning is made;
    - [warn] and [SvPV_nolen(ERRSV)] run Perl code (the [__WARN__] hook,
      an overloaded stringification) after [call_sv] has returned, with
      no [G_EVAL] around them: a [die] there unwinds through
      [invoke_row] and [viewrow_callback];
    - [XPUSHs(reqrv)] hands the consumer the cookie itself, of which it
      may keep references; [SvREFCNT_dec(req_rv)] frees the cookie when
      it drops the last one, after which [resp->cookie] dangles.
    The two are related by [dispatch_erase] below. *)
Module Full.

(** [SvPV_nolen] of an error value: its text, or, for an object whose
    class overloads the stringification by code that dies, the error of
    that [die]. *)
Inductive pv : Type := Text (s : string) | TextDies (e : string).

(** An error value as [invoke_row] looks at it: its truth ([SvTRUE])
    and its text ([SvPV_nolen]). For a plain string the truth is that
    of the string (false for the empty string and for "0"); for an
    object it is what the class makes it. An object whose truth test is
    overloaded by code that dies leaves [invoke_row] where one whose
    stringification dies does, before any warning: it is a true value
    with [TextDies]. *)
Record errsv := { err_true : bool; err_text : pv }.

Inductive outcome : Type := Returned | Died (e : errsv).

Inductive effect : Type :=
| EWaitUnref                               (* plcb_evloop_wait_unref(plobj) *)
| ECall (h : viewhandle) (rows : option (list row)) (o : outcome)
                                           (* consumer callback invoked on
                                              the handle as it stands *)
| EWarn (m : message)                      (* warn(...) *)
| EStore (i : vhidx) (v : sv)              (* av_store(req, i, v) *)
| EClear (r : avref)                       (* av_clear *)
| ECookieDec.                              (* SvREFCNT_dec(req_rv) *)

Section Dispatcher.

(** The Perl side: the consumer callback, which returns or dies, and
    which by the time it is left has taken a number of references to
    the cookie it was handed, to keep them; and what [warn] runs, the
    [__WARN__] hook when one is installed, which returns ([None]) or
    dies with an error. *)
Variable C : Type.
Variable meth : C -> viewhandle -> option (list row) -> C * outcome * nat.
Variable sig_warn : C -> message -> C * option string.

(** [cookie_refcnt] counts the references to [req_rv]; at 0 the cookie
    has been freed. *)
Record world := {
  req : viewhandle;
  cookie_refcnt : nat;
  consumer : C;
  trace : list effect }.

(** C code called by the engine: it returns, or a [die] unwinds through
    it, leaving the state as it was at that point. *)
Inductive run : Type :=
| Ret (w : world)
| Unwound (e : string) (w : world).

Definition and_then (r : run) (k : world -> run) : run :=
  match r with
  | Ret w => k w
  | Unwound e w => Unwound e w
  end.

Definition log (e : effect) (w : world) : world :=
  {| req := req w; cookie_refcnt := cookie_refcnt w;
     consumer := consumer w; trace := trace w ++ [e] |}.

Definition set_req (r : viewhandle) (w : world) : world :=
  {| req := r; cookie_refcnt := cookie_refcnt w;
     consumer := consumer w; trace := trace w |}.

Definition set_consumer (c : C) (w : world) : world :=
  {| req := req w; cookie_refcnt := cookie_refcnt w;
     consumer := c; trace := trace w |}.

Definition av_store (i : vhidx) (v : sv) (w : world) : world :=
  log (EStore i v)
    (set_req {| slots := <[i := v]> (slots (req w));
                rowbuf := rowbuf (req w);
                rawrows := rawrows (req w) |} w).

Definition av_push_rawrows (r : row) (w : world) : world :=
  set_req {| slots := slots (req w);
             rowbuf := rowbuf (req w);
             rawrows := rawrows (req w) ++ [r] |} w.

Definition av_clear (r : avref) (w : world) : world :=
  log (EClear r)
    match r with
    | RefRowbuf =>
        set_req {| slots := slots (req w); rowbuf := [];
                   rawrows := rawrows (req w) |} w
    | RefRawrows =>
        set_req {| slots := slots (req w); rowbuf := rowbuf (req w);
                   rawrows := [] |} w
    end.

(** References to the cookie taken by Perl code. *)
Definition SvREFCNT_inc_cookie (k : nat) (w : world) : world :=
  {| req := req w; cookie_refcnt := cookie_refcnt w + k;
     consumer := consumer w; trace := trace w |}.

(** [SvREFCNT_dec(req_rv)]: the count goes down by one; the cookie is
    freed when it reaches 0. *)
Definition SvREFCNT_dec_cookie (w : world) : world :=
  log ECookieDec
    {| req := req w; cookie_refcnt := cookie_refcnt w - 1;
       consumer := consumer w; trace := trace w |}.

(** [warn(...)]: the message goes to the [__WARN__] hook; if the hook
    dies, nothing traps it here. *)
Definition warn (m : message) (w : world) : run :=
  let '(c, d) := sig_warn (consumer w) m in
  let w := log (EWarn m) (set_consumer c w) in
  match d with
  | None => Ret w
  | Some e => Unwound e w
  end.

(** [call_sv(meth, G_DISCARD|G_EVAL)]: runs the consumer callback on
    the pushed arguments, the cookie and, when given, the row array; a
    [die] of the callee is trapped and left in [ERRSV] (here [Some e];
    [None] is the empty [ERRSV] of a normal return). *)
Definition call_sv (args : option (list row)) (w : world)
    : world * option errsv :=
  let '(c, o, k) := meth (consumer w) (req w) args in
  let w := log (ECall (req w) args o)
             (set_consumer c (SvREFCNT_inc_cookie k w)) in
  (w, match o with Returned => None | Died e => Some e end).

(** [invoke_row(req, reqrv, rowsrv)]. *)
Definition invoke_row (rowsrv : option avref) (w : world) : run :=
  let args := av_of (req w) <$> rowsrv in
  let '(w, ERRSV) := call_sv args w in
  and_then
    match ERRSV with
    | Some e =>
        if err_true e then                      (* SvTRUE(ERRSV) *)
          match err_text e with                 (* SvPV_nolen(ERRSV) *)
          | Text s => warn (got_error_in s) w
          | TextDies d => Unwound d w
          end
        else Ret w
    | None => Ret w
    end
    (fun w =>
       Ret match rowsrv with
           | Some r => av_clear r w
           | None => w
           end).

(** [viewrow_callback(obj, ct, resp)], on the handle behind
    [resp->cookie]. Once the cookie is freed, [SvRV(req_rv)] and what
    follows read freed memory: the C code has no behaviour to embed,
    which is [None]. *)
Definition viewrow_callback (resp : lcb_RESPVIEWQUERY) (w : world)
    : option run :=
  if Nat.eqb (cookie_refcnt w) 0 then None else
  Some
    (let rawrows_rv := RefRawrows in
     let w := log EWaitUnref w in
     if is_final resp then
       (* Flush any remaining rows.. *)
       and_then (invoke_row (Some rawrows_rv) w) (fun w =>
       let w := av_store PLCB_VHIDX_ISDONE SvYes w in
       let w := av_store PLCB_VHIDX_RC (newSViv (rc resp)) w in
       let w := av_store PLCB_VHIDX_META
                  (sv_from_rowdata (value resp) (nvalue resp)) w in
       let w :=
         match htresp resp with
         | Some ht => av_store PLCB_VHIDX_HTCODE (newSViv (htstatus ht)) w
         | None => w
         end in
       and_then (invoke_row None w) (fun w =>
       Ret (SvREFCNT_dec_cookie w)))
     else
       let rowdata := rowdata_of resp in
       let w := av_push_rawrows rowdata w in
       if av_len (av_of (req w) rawrows_rv) >=? 20 then
         invoke_row (Some rawrows_rv) w
       else Ret w).

(** The state in which the engine starts to deliver events: the handle
    as [PLCB__viewhandle_new] leaves it, the cookie holding the one
    reference it was created with. *)
Definition world_init (c : C) : world :=
  {| req := rowreq_init_common; cookie_refcnt := 1;
     consumer := c; trace := [] |}.

(** The engine delivering a sequence of events to the dispatcher. A
    [die] that unwinds through the callback leaves the engine's own
    frames as well: the delivery ends there. *)
Fixpoint dispatch (evs : list lcb_RESPVIEWQUERY) (w : world) : option run :=
  match evs with
  | [] => Some (Ret w)
  | ev :: evs =>
      match viewrow_callback ev w with
      | Some (Ret w) => dispatch evs w
      | r => r
      end
  end.

Definition world_of (r : run) : world :=
  match r with Ret w => w | Unwound _ w => w end.

Definition returned (r : run) : bool :=
  match r with Ret _ => true | Unwound _ _ => false end.

(** What a delivery lets one observe: nothing if it is not defined;
    else whether it returned or with which error it was unwound, and a
    reading of the state it left. *)
Definition observe {A} (f : world -> A) (r : option run)
    : option (option string * A) :=
  match r with
  | Some (Ret w) => Some (None, f w)
  | Some (Unwound e w) => Some (Some e, f w)
  | None => None
  end.

(** What follows [call_sv] in [invoke_row], given the state [c] in
    which the consumer left the Perl side and the outcome [o] of the
    call: the error the report dies with, if it does, and the state in
    which it leaves the Perl side. *)
Definition report_dies (c : C) (o : outcome) : option string :=
  match o with
  | Died e =>
      if err_true e then
        match err_text e with
        | Text s => (sig_warn c (got_error_in s)).2
        | TextDies d => Some d
        end
      else None
  | Returned => None
  end.

Definition report_state (c : C) (o : outcome) : C :=
  match o with
  | Died e =>
      if err_true e then
        match err_text e with
        | Text s => (sig_warn c (got_error_in s)).1
        | TextDies _ => c
        end
      else c
  | Returned => c
  end.

(** Reporting a trapped error never dies: no [__WARN__] hook dies, and
    every true error value the consumer dies with has a text. *)
Definition reports_return : Prop :=
  (∀ c m, (sig_warn c m).2 = None)
  ∧ (∀ c h a e, (meth c h a).1.2 = Died e → err_true e = true →
       ∃ s, err_text e = Text s).

(** The consumer keeps no reference to the cookie. *)
Definition keeps_nothing : Prop := ∀ c h a, (meth c h a).2 = 0%nat.

End Dispatcher.

Arguments req {C} w.
Arguments cookie_refcnt {C} w.
Arguments consumer {C} w.
Arguments trace {C} w.
Arguments world_init {C} c.
Arguments Ret {C} w.
Arguments Unwound {C} e w.
Arguments world_of {C} r.
Arguments returned {C} r.
Arguments observe {C A} f r.
Arguments reports_return {C} meth sig_warn.
Arguments report_dies {C} sig_warn c o.
Arguments report_state {C} sig_warn c o.
Arguments keeps_nothing {C} meth.

(** *** Reading the trace *)

(** The consumer invocations, in order, each with the handle as the
    consumer was shown it. *)
Fixpoint views (tr : list effect) : list (viewhandle * option (list row)) :=
  match tr with
  | [] => []
  | ECall h a _ :: tr => (h, a) :: views tr
  | _ :: tr => views tr
  end.

Definition calls (tr : list effect) : list (option (list row)) :=
  snd <$> views tr.

Definition batches (tr : list effect) : list (list row) :=
  omap id (calls tr).

Fixpoint warnings (tr : list effect) : list message :=
  match tr with
  | [] => []
  | EWarn m :: tr => m :: warnings tr
  | _ :: tr => warnings tr
  end.

(** The error values with which consumer invocations died. *)
Fixpoint faults (tr : list effect) : list errsv :=
  match tr with
  | [] => []
  | ECall _ _ (Died e) :: tr => e :: faults tr
  | _ :: tr => faults tr
  end.

(** The warning an error value calls for: none for a false value. *)
Definition report_of (e : errsv) : option message :=
  if err_true e then
    match err_text e with
    | Text s => Some (got_error_in s)
    | TextDies _ => None
    end
  else None.

Fixpoint stores_to (i : vhidx) (tr : list effect) : list sv :=
  match tr with
  | [] => []
  | EStore j v :: tr =>
      if decide (i = j) then v :: stores_to i tr else stores_to i tr
  | _ :: tr => stores_to i tr
  end.

Definition none_count (tr : list effect) : nat :=
  length (filter (fun c => c = None) (calls tr)).

(** The number of references to the cookie that were dropped. *)
Fixpoint drops (tr : list effect) : nat :=
  match tr with
  | [] => 0
  | ECookieDec :: tr => S (drops tr)
  | _ :: tr => drops tr
  end.

(** The effects of the report that follows a call, of the clearing
    that ends [invoke_row], and of the stores of the terminal path. *)
Definition report_effects (o : outcome) : list effect :=
  match o with
  | Died e => match report_of e with Some m => [EWarn m] | None => [] end
  | Returned => []
  end.

Definition clear_effects (rowsrv : option avref) : list effect :=
  match rowsrv with Some r => [EClear r] | None => [] end.

Definition final_stores (resp : lcb_RESPVIEWQUERY) : list effect :=
  [EStore PLCB_VHIDX_ISDONE SvYes;
   EStore PLCB_VHIDX_RC (newSViv (rc resp));
   EStore PLCB_VHIDX_META (sv_from_rowdata (value resp) (nvalue resp))]
  ++ match htresp resp with
     | Some ht => [EStore PLCB_VHIDX_HTCODE (newSViv (htstatus ht))]
     | None => []
     end.

(** The handle with the array behind [rowsrv] emptied. *)
Definition clear_av (rowsrv : option avref) (h : viewhandle) : viewhandle :=
  match rowsrv with
  | Some RefRowbuf => {| slots := slots h; rowbuf := []; rawrows := rawrows h |}
  | Some RefRawrows => {| slots := slots h; rowbuf := rowbuf h; rawrows := [] |}
  | None => h
  end.

(** What the consumer is shown at a call: a handle that is not done has
    its terminal slots unset. *)
Definition view_ok (v : viewhandle * option (list row)) : Prop :=
  isDone v.1 = false → Forall (fun i => unset i v.1) terminal_slots.

(** *** Sample consumers and hooks *)

Definition quiet (c : unit) (h : viewhandle) (rows : option (list row))
    : unit * outcome * nat := (tt, Returned, 0%nat).

(** A consumer that dies at every invocation with the string "boom",
    and one that dies with an error value that is false. *)
Definition faulty (c : unit) (h : viewhandle) (rows : option (list row))
    : unit * outcome * nat :=
  (tt, Died {| err_true := true; err_text := Text "boom" |}, 0%nat).


(** A consumer that keeps a reference to the cookie at its first
    invocation. *)
Definition keeper (c : bool) (h : viewhandle) (rows : option (list row))
    : bool * outcome * nat :=
  (true, Returned, if c then 0%nat else 1%nat).

(** A state whose accumulator holds twenty rows. *)
Definition sample_world_20 : world unit :=
  {| req := {| slots := ∅; rowbuf := [];
               rawrows := replicate 20 (rowdata_of sample_row) |};
     cookie_refcnt := 1; consumer := tt; trace := [] |}.

(** No [__WARN__] hook, or one that returns; and the hook that makes
    warnings fatal, [sub { die @_ }]. *)
Definition silent {C} (c : C) (m : message) : C * option string := (c, None).

Definition fatal_warnings {C} (c : C) (m : message) : C * option string :=
  (c, Some "warning made fatal").

End Full.

(** *** From the full dispatcher to [Dispatcher]

    A run of the full dispatcher that returns is, once the handles
    shown at the calls and the clearings are erased from its trace, a
    run of [Dispatcher] for the consumer below: it shows an invocation
    as dying when a warning was made for it, and does at the invocation
    what the [__WARN__] hook did to the state of the Perl side. *)
Definition coarse_outcome (o : Full.outcome) : outcome :=
  match o with
  | Full.Returned => Returned
  | Full.Died e =>
      if Full.err_true e then
        match Full.err_text e with
        | Full.Text s => Died s
        | Full.TextDies _ => Returned
        end
      else Returned
  end.

Definition coarsen {C}
    (meth : C -> viewhandle -> option (list row) -> C * Full.outcome * nat)
    (sig_warn : C -> message -> C * option string)
    (c : C) (h : viewhandle) (a : option (list row)) : C * outcome :=
  let '(c1, o, _) := meth c h a in
  (match coarse_outcome o with
   | Died s => (sig_warn c1 (got_error_in s)).1
   | Returned => c1
   end, coarse_outcome o).

Definition erase (tr : list Full.effect) : list effect :=
  tr ≫= fun e =>
    match e with
    | Full.EWaitUnref => [EWaitUnref]
    | Full.ECall _ a o => [ECall a (coarse_outcome o)]
    | Full.EWarn m => [EWarn m]
    | Full.EStore i v => [EStore i v]
    | Full.EClear _ => []
    | Full.ECookieDec => [ECookieDec]
    end.

Definition coarse_world {C} (W : Full.world C) : world C :=
  {| req := Full.req W; cookie_refcnt := Full.cookie_refcnt W;
     consumer := Full.consumer W; trace := erase (Full.trace W) |}.

(** A state of the full dispatcher and the state of [Dispatcher] it is
    seen as. *)
Definition sim {C} (W : Full.world C) (w : world C) : Prop :=
  Full.req W = req w ∧ Full.consumer W = consumer w
  ∧ erase (Full.trace W) = trace w.

(** ** The dispatcher, one event at a time *)

Section DispatcherFacts.

Context {C : Type} (meth : C -> viewhandle -> option (list row) -> C * outcome).

Lemma calls_app tr1 tr2 : calls (tr1 ++ tr2) = calls tr1 ++ calls tr2.
Proof. apply omap_app. Qed.

Lemma batches_app tr1 tr2 : batches (tr1 ++ tr2) = batches tr1 ++ batches tr2.
Proof. unfold batches. by rewrite calls_app, omap_app. Qed.

Lemma warnings_app tr1 tr2 : warnings (tr1 ++ tr2) = warnings tr1 ++ warnings tr2.
Proof. apply omap_app. Qed.

Lemma faults_app tr1 tr2 : faults (tr1 ++ tr2) = faults tr1 ++ faults tr2.
Proof. apply omap_app. Qed.

Lemma stores_to_app i tr1 tr2 :
  stores_to i (tr1 ++ tr2) = stores_to i tr1 ++ stores_to i tr2.
Proof. apply omap_app. Qed.

Lemma omap_id_Some {A} (l : list A) : omap id (Some <$> l) = l.
Proof. induction l as [|x l IH]; [done|]. cbn. by rewrite IH. Qed.

Lemma calls_invoke_effects o args : calls (invoke_effects o args) = [args].
Proof. by destruct o. Qed.

Lemma warnings_invoke_effects o args :
  warnings (invoke_effects o args) = got_error_in <$> faults (invoke_effects o args).
Proof. by destruct o. Qed.

Lemma stores_invoke_effects i o args : stores_to i (invoke_effects o args) = [].
Proof. by destruct o. Qed.

(** [invoke_row] never dies: it calls the consumer once, warns if the
    consumer died, and empties the array it was given. *)
Lemma invoke_row_spec rowsrv (w : world C) :
  let args := av_of (req w) <$> rowsrv in
  let co := meth (consumer w) (req w) args in
  ∃ w', invoke_row C meth rowsrv w = Ok w'
    ∧ trace w' = trace w ++ invoke_effects co.2 args
    ∧ consumer w' = co.1
    ∧ cookie_refcnt w' = cookie_refcnt w
    ∧ slots (req w') = slots (req w)
    ∧ rowbuf (req w') = (if rowsrv is Some RefRowbuf then [] else rowbuf (req w))
    ∧ rawrows (req w') = (if rowsrv is Some RefRawrows then [] else rawrows (req w)).
Proof.
  intros args co. unfold invoke_row, call_sv. fold args. fold co.
  destruct co as [c [|err]]; simpl.
  - eexists; split; [reflexivity|]. destruct rowsrv as [[]|]; simpl; auto 10.
  - eexists; split; [reflexivity|]. destruct rowsrv as [[]|]; simpl;
      rewrite <- ?app_assoc; auto 10.
Qed.

(** A row event: the row is appended; the accumulator is handed over
    and emptied once it holds 21 rows (highest index 20). *)
Lemma viewrow_callback_row resp (w : world C) :
  is_final resp = false →
  let acc := rawrows (req w) ++ [rowdata_of resp] in
  ∃ w', viewrow_callback C meth resp w = Ok w'
    ∧ slots (req w') = slots (req w)
    ∧ rowbuf (req w') = rowbuf (req w)
    ∧ cookie_refcnt w' = cookie_refcnt w
    ∧ if decide (21 ≤ length acc)%nat
      then rawrows (req w') = []
           ∧ ∃ o, trace w' = trace w ++ EWaitUnref :: invoke_effects o (Some acc)
      else rawrows (req w') = acc ∧ trace w' = trace w ++ [EWaitUnref].
Proof.
  intros Hrow acc. unfold viewrow_callback. rewrite Hrow.
  unfold av_len. simpl av_of. fold acc.
  case_decide as Hlen.
  - replace (Z.of_nat (length acc) - 1 >=? 20) with true by lia.
    edestruct (invoke_row_spec (Some RefRawrows)) as (w' & -> & Htr & _ & Hck & Hsl & Hrb & Hrr).
    exists w'. split; [done|]. simpl in *. repeat split; try done.
    eexists. rewrite Htr, <- app_assoc. reflexivity.
  - replace (Z.of_nat (length acc) - 1 >=? 20) with false by lia.
    eexists; split; [reflexivity|]. simpl. done.
Qed.

(** The final event: the accumulator is handed over whatever it holds,
    the terminal slots are stored, the consumer is invoked without
    rows, and the cookie loses a reference. *)
Lemma viewrow_callback_final resp (w : world C) :
  is_final resp = true →
  ∃ w' o1 o2, viewrow_callback C meth resp w = Ok w'
    ∧ trace w' = trace w ++ EWaitUnref ::
                   invoke_effects o1 (Some (rawrows (req w)))
                   ++ final_stores resp
                   ++ invoke_effects o2 None ++ [ECookieDec]
    ∧ slots (req w') = final_slots resp (slots (req w))
    ∧ rowbuf (req w') = rowbuf (req w)
    ∧ rawrows (req w') = []
    ∧ cookie_refcnt w' = Nat.pred (cookie_refcnt w).
Proof.
  intros Hfin. unfold viewrow_callback, final_stores, final_slots.
  rewrite Hfin.
  edestruct (invoke_row_spec (Some RefRawrows) (log C EWaitUnref w))
    as (w1 & -> & Htr1 & _ & Hck1 & Hsl1 & Hrb1 & Hrr1).
  simpl in Htr1, Hck1, Hsl1, Hrb1, Hrr1. cbn [mbind result_bind].
  destruct (htresp resp) as [ht|];
    (match goal with |- context [invoke_row C meth None ?w2] =>
       edestruct (invoke_row_spec None w2)
         as (w3 & -> & Htr3 & _ & Hck3 & Hsl3 & Hrb3 & Hrr3)
     end);
    cbn [mbind result_bind]; do 3 eexists; (split; [reflexivity|]);
    simpl in *;
    rewrite ?Htr3, ?Hsl3, ?Hrb3, ?Hrr3, ?Hck3, ?Htr1, ?Hsl1, ?Hrb1, ?Hrr1, ?Hck1;
    repeat split; try done;
    rewrite <- ?app_assoc; simpl; rewrite <- ?app_assoc; reflexivity.
Qed.

(** ** Sequences of events *)

Lemma dispatch_app evs1 evs2 (w : world C) :
  dispatch C meth (evs1 ++ evs2) w
  = w1 ← dispatch C meth evs1 w; dispatch C meth evs2 w1.
Proof.
  revert w. induction evs1 as [|ev evs1 IH]; intros w; [done|].
  simpl. destruct (viewrow_callback C meth ev w) as [w1|e]; simpl; [apply IH|done].
Qed.

(** What a run of row events appends to the trace and leaves in the
    handle, from any state. *)
Lemma dispatch_rows_spec rs :
  Forall (fun r => is_final r = false) rs →
  ∀ w : world C, ∃ w' tr,
    dispatch C meth rs w = Ok w'
    ∧ trace w' = trace w ++ tr
    ∧ slots (req w') = slots (req w)
    ∧ rowbuf (req w') = rowbuf (req w)
    ∧ cookie_refcnt w' = cookie_refcnt w
    ∧ (∀ i, stores_to i tr = [])
    ∧ warnings tr = got_error_in <$> faults tr
    ∧ calls tr = Some <$> batches tr
    ∧ concat (batches tr) ++ rawrows (req w')
      = rawrows (req w) ++ (rowdata_of <$> rs)
    ∧ ((length (rawrows (req w)) < 21)%nat →
       length (rawrows (req w'))
       = ((length (rawrows (req w)) + length rs) mod 21)%nat
       ∧ length <$> batches tr
         = replicate ((length (rawrows (req w)) + length rs) / 21) 21%nat).
Proof.
  induction 1 as [|r rs Hr Hrs IH]; intros w.
  - exists w, []. cbn [length fmap list_fmap]. rewrite !app_nil_r, Nat.add_0_r.
    split_and!; try done.
    intros Hlt. by rewrite Nat.mod_small, Nat.div_small.
  - destruct (viewrow_callback_row r w Hr) as (w1 & Hw1 & Hsl & Hrb & Hck & Hcase).
    destruct (IH w1) as (w' & tr & Hw' & Htr & Hsl' & Hrb' & Hck' & Hst & Hwarn
                         & Hcalls & Hcat & Hlen).
    simpl dispatch. rewrite Hw1. cbn [mbind result_bind]. rewrite Hw'.
    case_decide as Hfull; rewrite length_app in Hfull; simpl in Hfull.
    + destruct Hcase as (Hrr & o & Htr1).
      exists w', (EWaitUnref :: invoke_effects o
                    (Some (rawrows (req w) ++ [rowdata_of r])) ++ tr).
      assert (Hb : batches (EWaitUnref :: invoke_effects o
                      (Some (rawrows (req w) ++ [rowdata_of r])) ++ tr)
                   = (rawrows (req w) ++ [rowdata_of r]) :: batches tr).
      { unfold batches. change (calls (?e :: ?l)) with (calls l).
        by rewrite calls_app, calls_invoke_effects. }
      rewrite Hb, Htr, Htr1, Hsl', Hrb', Hck'.
      split_and!; [done|by rewrite <- app_assoc|done|done|done| | | | |].
      * intros i. change (stores_to i (?e :: ?l)) with (stores_to i l).
        by rewrite stores_to_app, stores_invoke_effects, Hst.
      * change (warnings (?e :: ?l)) with (warnings l).
        change (faults (?e :: ?l)) with (faults l).
        by rewrite warnings_app, faults_app, fmap_app,
             warnings_invoke_effects, Hwarn.
      * change (calls (?e :: ?l)) with (calls l).
        by rewrite calls_app, calls_invoke_effects, Hcalls.
      * simpl. rewrite <- app_assoc, Hcat, Hrr. simpl.
        by rewrite <- app_assoc.
      * intros Hlt. rewrite Hrr in Hlen. simpl in Hlen.
        destruct Hlen as [Hlen1 Hlen2]; [lia|].
        rewrite fmap_cons, Hlen1, Hlen2, length_app.
        replace (length (rawrows (req w)) + length (r :: rs))%nat
          with (length rs + 1 * 21)%nat by (simpl; lia).
        rewrite Nat.Div0.mod_add, Nat.div_add by lia.
        split; [done|].
        replace (length rs `div` 21 + 1)%nat with (S (length rs `div` 21)) by lia.
        cbn [replicate length]. f_equal. lia.
    + destruct Hcase as (Hrr & Htr1).
      exists w', (EWaitUnref :: tr).
      change (batches (EWaitUnref :: tr)) with (batches tr).
      rewrite Htr, Htr1, Hsl', Hrb', Hck'.
      split_and!; [done|by rewrite <- app_assoc|done|done|done|exact Hst
                  |exact Hwarn|exact Hcalls| |].
      * rewrite Hcat, Hrr. by rewrite <- app_assoc.
      * intros Hlt. rewrite Hrr in Hlen. rewrite length_app in Hlen. simpl in *.
        destruct Hlen as [Hlen1 Hlen2]; [lia|]. rewrite Hlen1, Hlen2.
        replace (length (rawrows (req w)) + 1 + length rs)%nat
          with (length (rawrows (req w)) + S (length rs))%nat by lia.
        done.
Qed.

(** A whole query: row events, then the final event. *)
Lemma dispatch_query_spec rs f :
  Forall (fun r => is_final r = false) rs →
  is_final f = true →
  ∀ w : world C, ∃ w' tr acc o1 o2,
    dispatch C meth (rs ++ [f]) w = Ok w'
    ∧ trace w' = trace w ++ tr ++ EWaitUnref ::
                   invoke_effects o1 (Some acc) ++ final_stores f
                   ++ invoke_effects o2 None ++ [ECookieDec]
    ∧ slots (req w') = final_slots f (slots (req w))
    ∧ rowbuf (req w') = rowbuf (req w)
    ∧ rawrows (req w') = []
    ∧ cookie_refcnt w' = Nat.pred (cookie_refcnt w)
    ∧ (∀ i, stores_to i tr = [])
    ∧ warnings tr = got_error_in <$> faults tr
    ∧ calls tr = Some <$> batches tr
    ∧ concat (batches tr) ++ acc = rawrows (req w) ++ (rowdata_of <$> rs)
    ∧ ((length (rawrows (req w)) < 21)%nat →
       length acc = ((length (rawrows (req w)) + length rs) mod 21)%nat
       ∧ length <$> batches tr
         = replicate ((length (rawrows (req w)) + length rs) / 21) 21%nat).
Proof.
  intros Hrs Hf w.
  destruct (dispatch_rows_spec rs Hrs w)
    as (w1 & tr & Hw1 & Htr & Hsl & Hrb & Hck & Hst & Hwarn & Hcalls & Hcat & Hlen).
  destruct (viewrow_callback_final f w1 Hf)
    as (w' & o1 & o2 & Hw' & Htr' & Hsl' & Hrb' & Hrr' & Hck').
  exists w', tr, (rawrows (req w1)), o1, o2.
  rewrite dispatch_app, Hw1. cbn [mbind result_bind dispatch]. rewrite Hw'.
  rewrite Htr', Htr, Hsl', Hsl, Hrb', Hrb, Hck', Hck, <- app_assoc.
  split_and!; done.
Qed.

Lemma calls_final_stores f : calls (final_stores f) = [].
Proof. unfold final_stores. by destruct (htresp f). Qed.

Lemma warnings_final_stores f : warnings (final_stores f) = [].
Proof. unfold final_stores. by destruct (htresp f). Qed.

Lemma faults_final_stores f : faults (final_stores f) = [].
Proof. unfold final_stores. by destruct (htresp f). Qed.

(** The consumer invocations of a whole query, from the initial state:
    the batches of the row events, the accumulator as it stands at the
    final event, and one invocation without rows. *)
Lemma calls_of_query rs f (c0 : C) :
  Forall (fun r => is_final r = false) rs →
  is_final f = true →
  ∃ w' bs acc,
    dispatch C meth (rs ++ [f]) (world_init c0) = Ok w'
    ∧ calls (trace w') = (Some <$> bs) ++ [Some acc; None]
    ∧ batches (trace w') = bs ++ [acc]
    ∧ concat bs ++ acc = rowdata_of <$> rs
    ∧ length <$> bs = replicate (length rs / 21) 21%nat
    ∧ length acc = (length rs mod 21)%nat
    ∧ warnings (trace w') = got_error_in <$> faults (trace w')
    ∧ rawrows (req w') = []
    ∧ rowbuf (req w') = [].
Proof.
  intros Hrs Hf.
  destruct (dispatch_query_spec rs f Hrs Hf (world_init c0))
    as (w' & tr & acc & o1 & o2 & Hw' & Htr & Hsl & Hrb & Hrr & Hck & Hst
        & Hwarn & Hcalls & Hcat & Hlen).
  destruct Hlen as [Hlen1 Hlen2]; [simpl; lia|].
  cbn [world_init trace req rawrows rowbuf rowreq_init_common app length Nat.add]
    in Htr, Hcat, Hlen1, Hlen2, Hrb.
  assert (Hc : calls (trace w') = (Some <$> batches tr) ++ [Some acc; None]).
  { rewrite Htr, calls_app. change (calls (?e :: ?l)) with (calls l).
    rewrite !calls_app, !calls_invoke_effects, calls_final_stores, Hcalls.
    done. }
  exists w', (batches tr), acc. split_and!; try done.
  - unfold batches at 1. by rewrite Hc, omap_app, omap_id_Some.
  - rewrite Htr, warnings_app, faults_app, fmap_app, Hwarn. f_equal.
    change (warnings (?e :: ?l)) with (warnings l).
    change (faults (?e :: ?l)) with (faults l).
    rewrite !warnings_app, !faults_app, !fmap_app, !warnings_invoke_effects,
      warnings_final_stores, faults_final_stores. done.
Qed.

(** ** Arbitrary sequences of events *)

Lemma none_count_app tr1 tr2 :
  none_count (tr1 ++ tr2) = (none_count tr1 + none_count tr2)%nat.
Proof. unfold none_count. by rewrite calls_app, filter_app, length_app. Qed.

Lemma stores_to_final_stores i f : (length (stores_to i (final_stores f)) ≤ 1)%nat.
Proof.
  unfold final_stores, stores_to.
  destruct (htresp f), i; cbn [app omap list_omap]; repeat case_decide;
    try discriminate; cbn; lia.
Qed.

Lemma isDone_final_slots f s h :
  slots h = final_slots f s → isDone h = true.
Proof.
  unfold isDone, final_slots. intros ->.
  destruct (htresp f); by simplify_map_eq.
Qed.

(** One event of either kind, from any state: the dispatcher returns;
    what it appended to the trace pairs every fault with a warning,
    stores each slot at most once and only on a final event, and ends
    with a rowless invocation exactly on a final event. *)
Lemma viewrow_callback_any ev (w : world C) :
  ∃ w' tr,
    viewrow_callback C meth ev w = Ok w'
    ∧ trace w' = trace w ++ tr
    ∧ warnings tr = got_error_in <$> faults tr
    ∧ (∀ i, length (stores_to i tr) ≤ finals [ev])%nat
    ∧ none_count tr = finals [ev]
    ∧ (isDone (req w) = true → isDone (req w') = true)
    ∧ (isDone (req w) = true ∨ slots (req w) = ∅ →
       isDone (req w') = true ∨ slots (req w') = ∅).
Proof.
  destruct (is_final ev) eqn:Hev.
  - destruct (viewrow_callback_final ev w Hev)
      as (w' & o1 & o2 & Hw' & Htr & Hsl & Hrb & Hrr & Hck).
    eexists w', _. split; [done|]. split; [exact Htr|].
    assert (Hfin : finals [ev] = 1%nat).
    { unfold finals. cbn. by rewrite decide_True. }
    rewrite Hfin.
    split_and!.
    + change (warnings (?e :: ?l)) with (warnings l).
      change (faults (?e :: ?l)) with (faults l).
      rewrite !warnings_app, !faults_app, !fmap_app, !warnings_invoke_effects,
        warnings_final_stores, faults_final_stores. done.
    + intros i. change (stores_to i (?e :: ?l)) with (stores_to i l).
      rewrite !stores_to_app, !stores_invoke_effects. cbn [app].
      rewrite app_nil_r. apply stores_to_final_stores.
    + unfold none_count. change (calls (?e :: ?l)) with (calls l).
      rewrite !calls_app, !calls_invoke_effects, calls_final_stores. done.
    + intros _. by eapply isDone_final_slots.
    + intros _. left. by eapply isDone_final_slots.
  - destruct (viewrow_callback_row ev w Hev) as (w' & Hw' & Hsl & Hrb & Hck & Hcase).
    assert (Hfin : finals [ev] = 0%nat).
    { unfold finals. cbn. rewrite decide_False; [done|]. by rewrite Hev. }
    rewrite Hfin.
    assert (HisDone : isDone (req w') = isDone (req w))
      by (unfold isDone; by rewrite Hsl).
    case_decide.
    + destruct Hcase as (Hrr & o & Htr).
      eexists w', _. split; [done|]. split; [exact Htr|].
      rewrite HisDone, Hsl.
      split_and!; try done.
      * change (warnings (?e :: ?l)) with (warnings l).
        change (faults (?e :: ?l)) with (faults l).
        apply warnings_invoke_effects.
      * intros i. change (stores_to i (?e :: ?l)) with (stores_to i l).
        by rewrite stores_invoke_effects.
      * unfold none_count. change (calls (?e :: ?l)) with (calls l).
        by rewrite calls_invoke_effects.
    + destruct Hcase as (Hrr & Htr).
      eexists w', _. split; [done|]. split; [exact Htr|].
      rewrite HisDone, Hsl.
      split_and!; done.
Qed.

Lemma finals_cons ev evs : finals (ev :: evs) = (finals [ev] + finals evs)%nat.
Proof.
  unfold finals. change (ev :: evs) with ([ev] ++ evs).
  by rewrite filter_app, length_app.
Qed.

Lemma dispatch_any_spec evs :
  ∀ w : world C, ∃ w' tr,
    dispatch C meth evs w = Ok w'
    ∧ trace w' = trace w ++ tr
    ∧ warnings tr = got_error_in <$> faults tr
    ∧ (∀ i, length (stores_to i tr) ≤ finals evs)%nat
    ∧ none_count tr = finals evs
    ∧ (isDone (req w) = true → isDone (req w') = true)
    ∧ (isDone (req w) = true ∨ slots (req w) = ∅ →
       isDone (req w') = true ∨ slots (req w') = ∅).
Proof.
  induction evs as [|ev evs IH]; intros w.
  - exists w, []. rewrite app_nil_r. split_and!; done.
  - destruct (viewrow_callback_any ev w)
      as (w1 & tr1 & Hw1 & Htr1 & Hwarn1 & Hst1 & Hn1 & Hd1 & Hi1).
    destruct (IH w1) as (w' & tr & Hw' & Htr & Hwarn & Hst & Hn & Hd & Hi).
    exists w', (tr1 ++ tr). cbn [dispatch]. rewrite Hw1. cbn [mbind result_bind].
    rewrite finals_cons. split_and!; try done.
    + by rewrite Htr, Htr1, <- app_assoc.
    + by rewrite warnings_app, faults_app, fmap_app, Hwarn1, Hwarn.
    + intros i. rewrite stores_to_app, length_app.
      specialize (Hst1 i). specialize (Hst i). lia.
    + by rewrite none_count_app, Hn1, Hn.
    + auto.
    + auto.
Qed.

(** The rows delivered over a whole query are the rows of the events,
    in order. *)
Lemma delivered_of_query rs f (c0 : C) :
  Forall (fun r => is_final r = false) rs →
  is_final f = true →
  ∃ w', dispatch C meth (rs ++ [f]) (world_init c0) = Ok w'
    ∧ concat (batches (trace w')) = rowdata_of <$> rs
    ∧ last (calls (trace w')) = Some None
    ∧ none_count (trace w') = 1%nat
    ∧ warnings (trace w') = got_error_in <$> faults (trace w').
Proof.
  intros Hrs Hf.
  destruct (calls_of_query rs f c0 Hrs Hf)
    as (w' & bs & acc & Hw' & Hcalls & Hb & Hcat & Hlen & Hacc & Hwarn & Hrr & Hrb).
  exists w'. split_and!; try done.
  - rewrite Hb, concat_app. cbn [concat]. by rewrite app_nil_r.
  - rewrite Hcalls. change [Some acc; None] with ([Some acc] ++ [None]).
    by rewrite app_assoc, last_snoc.
  - unfold none_count. rewrite Hcalls, filter_app, length_app.
    replace (filter (λ c, c = None) (Some <$> bs)) with (@nil (option (list row))).
    + done.
    + clear. induction bs as [|b bs IH]; [done|]. cbn [fmap list_fmap].
      rewrite filter_cons_False; done.
Qed.

(** ** Properties of the dispatcher *)

(** C1 (the code departs from the specification). The accumulator is handed
    over when [av_len], the highest index, reaches 20, that is with 21
    rows in it: for 25 row events followed by the final event the
    consumer is handed batches of 21 and 4 rows, not of 20 and 5, and
    then is invoked once without rows. *)
Theorem C1_batches_of_25_rows rs f (c0 : C) :
  length rs = 25%nat →
  Forall (fun r => is_final r = false) rs →
  is_final f = true →
  ∃ w', dispatch C meth (rs ++ [f]) (world_init c0) = Ok w'
    ∧ calls (trace w') = (Some <$> batches (trace w')) ++ [None]
    ∧ length <$> batches (trace w') = [21%nat; 4%nat]
    ∧ length <$> nonempty_batches (trace w') = [21%nat; 4%nat]
    ∧ length <$> nonempty_batches (trace w') ≠ [20%nat; 5%nat].
Proof.
  intros Hn Hrs Hf.
  destruct (calls_of_query rs f c0 Hrs Hf)
    as (w' & bs & acc & Hw' & Hcalls & Hb & Hcat & Hlen & Hacc & _).
  rewrite Hn in Hlen, Hacc.
  change (25 `div` 21)%nat with 1%nat in Hlen.
  change (25 `mod` 21)%nat with 4%nat in Hacc.
  destruct bs as [|b [|b' bs]]; try discriminate Hlen.
  cbn in Hlen. injection Hlen as Hb21.
  assert (Hne : nonempty_batches (trace w') = [b; acc]).
  { unfold nonempty_batches. rewrite Hb. cbn [app].
    rewrite !filter_cons_True, filter_nil; [done| |].
    - intros ->. discriminate Hacc.
    - intros ->. discriminate Hb21. }
  exists w'. rewrite Hne, Hb, Hcalls. cbn. rewrite Hb21, Hacc.
  split_and!; done.
Qed.

(** C2 (amended). At the final event the accumulator is handed to the
    consumer whatever it holds, rows or none, and is emptied; then the
    consumer is invoked once without rows. For a query with no row
    event the consumer is therefore invoked with an empty batch, then
    without rows, and both row arrays of the handle are empty. *)
Theorem C2_final_flush_unconditional f (w : world C) (c0 : C) :
  is_final f = true →
  (∃ w', viewrow_callback C meth f w = Ok w'
     ∧ calls (trace w') = calls (trace w) ++ [Some (rawrows (req w)); None]
     ∧ rawrows (req w') = []
     ∧ rowbuf (req w') = rowbuf (req w))
  ∧ (∃ w0, dispatch C meth [f] (world_init c0) = Ok w0
       ∧ calls (trace w0) = [Some []; None]
       ∧ nonempty_batches (trace w0) = []
       ∧ rawrows (req w0) = []
       ∧ rowbuf (req w0) = []).
Proof.
  intros Hf.
  assert (Hstep : ∀ w : world C, ∃ w', viewrow_callback C meth f w = Ok w'
     ∧ calls (trace w') = calls (trace w) ++ [Some (rawrows (req w)); None]
     ∧ rawrows (req w') = []
     ∧ rowbuf (req w') = rowbuf (req w)).
  { intros w1.
    destruct (viewrow_callback_final f w1 Hf)
      as (w' & o1 & o2 & Hw' & Htr & Hsl & Hrb & Hrr & Hck).
    exists w'. split_and!; try done.
    rewrite Htr, calls_app. change (calls (?e :: ?l)) with (calls l).
    by rewrite !calls_app, !calls_invoke_effects, calls_final_stores. }
  split; [apply Hstep|].
  destruct (Hstep (world_init c0)) as (w0 & Hw0 & Hcalls & Hrr & Hrb).
  exists w0. cbn [dispatch]. rewrite Hw0. cbn in Hcalls, Hrb.
  split_and!; try done.
  unfold nonempty_batches, batches. by rewrite Hcalls.
Qed.

(** C4. The concatenation of the batches handed to the consumer is the
    sequence of rows in arrival order: while row events arrive, the
    delivered rows followed by the accumulator are the rows so far; once
    the final event is processed, the delivered rows are all the rows. *)
Theorem C4_rows_in_arrival_order rs (c0 : C) :
  Forall (fun r => is_final r = false) rs →
  (∃ w1, dispatch C meth rs (world_init c0) = Ok w1
     ∧ concat (batches (trace w1)) ++ rawrows (req w1) = rowdata_of <$> rs)
  ∧ (∀ f, is_final f = true →
       ∃ w', dispatch C meth (rs ++ [f]) (world_init c0) = Ok w'
         ∧ concat (batches (trace w')) = rowdata_of <$> rs).
Proof.
  intros Hrs. split.
  - destruct (dispatch_rows_spec rs Hrs (world_init c0))
      as (w1 & tr & Hw1 & Htr & _ & _ & _ & _ & _ & _ & Hcat & _).
    exists w1. split; [done|]. by rewrite Htr.
  - intros f Hf.
    destruct (delivered_of_query rs f c0 Hrs Hf) as (w' & Hw' & Hcat & _).
    by exists w'.
Qed.

(** Looking a field name up in a hash built by successive stores. *)
Ltac hv_lookup :=
  repeat (rewrite lookup_insert_ne by done);
  rewrite ?lookup_insert_eq, ?lookup_empty; done.

Lemma rowdata_of_base resp :
  rowdata_of resp !! "key" = Some (sv_from_rowdata (key resp) (nkey resp))
  ∧ rowdata_of resp !! "value" = Some (sv_from_rowdata (value resp) (nvalue resp))
  ∧ rowdata_of resp !! "geometry"
    = Some (sv_from_rowdata (geometry resp) (ngeometry resp))
  ∧ rowdata_of resp !! "id" = Some (sv_from_rowdata (docid resp) (ndocid resp)).
Proof.
  unfold rowdata_of, hv_stores.
  destruct (docresp resp) as [d|]; [destruct (get_rc d =? LCB_SUCCESS)|];
    split_and!; hv_lookup.
Qed.

Lemma rowdata_of_doc resp :
  rowdata_of resp !! "__doc__"
  = d ← docresp resp;
    if get_rc d =? LCB_SUCCESS
    then Some (newSVpvn (get_value d) (get_nvalue d)) else None.
Proof.
  unfold rowdata_of, hv_stores.
  destruct (docresp resp) as [d|]; cbn [mbind option_bind];
    [destruct (get_rc d =? LCB_SUCCESS)|]; hv_lookup.
Qed.

Lemma sv_from_rowdata_decoded s n : sv_from_rowdata s n = decoded_field s n.
Proof.
  unfold sv_from_rowdata, decoded_field.
  destruct s as [buf|]; [|done]. destruct n as [|n]; [done|].
  by rewrite bool_decide_eq_true_2 by by eexists.
Qed.

(** C5 (amended). A field whose source pointer is NULL or whose length
    is zero is decoded to the undefined value, which tests as not
    defined; a payload of at least one byte is decoded to the string of
    its bytes with the UTF-8 flag on, which tests as defined. A field
    that is there but empty is decoded like one that is missing: the
    two cannot be told apart. The key, value, geometry and document id
    of a row are stored decoded in this way, under "key", "value",
    "geometry" and "id". *)
Theorem C5_absent_or_empty_fields_are_undef :
  (∀ s n, sv_from_rowdata s n = decoded_field s n)
  ∧ (∀ s n, SvOK (sv_from_rowdata s n) = false ↔ s = None ∨ n = 0%nat)
  ∧ (∀ buf n, sv_from_rowdata (Some buf) (S n) = SvPV (take (S n) buf) true)
  ∧ (∀ buf, sv_from_rowdata (Some buf) 0 = sv_from_rowdata None 0)
  ∧ (∀ resp,
       rowdata_of resp !! "key" = Some (decoded_field (key resp) (nkey resp))
       ∧ rowdata_of resp !! "value"
         = Some (decoded_field (value resp) (nvalue resp))
       ∧ rowdata_of resp !! "geometry"
         = Some (decoded_field (geometry resp) (ngeometry resp))
       ∧ rowdata_of resp !! "id"
         = Some (decoded_field (docid resp) (ndocid resp))).
Proof.
  split_and!.
  - apply sv_from_rowdata_decoded.
  - intros s n. rewrite sv_from_rowdata_decoded. unfold decoded_field.
    destruct s as [buf|], n as [|n]; cbn; split; try done; auto.
    intros [|]; done.
  - intros buf n. by rewrite sv_from_rowdata_decoded.
  - intros buf. by rewrite !sv_from_rowdata_decoded.
  - intros resp. rewrite <- !sv_from_rowdata_decoded. apply rowdata_of_base.
Qed.

(** C6. For a row event that carries a document sub-response, the row
    has a "__doc__" entry exactly when the status of the sub-response is
    success, and the entry then holds the bytes of the payload of the
    sub-response; on any other status the row has no such entry. In
    either case "key" and "value" hold the key and the value of the row
    event, the dispatcher returns normally with the row appended, and
    over a whole query the row is among the rows delivered. *)
Theorem C6_embedded_document_iff_success resp d (w : world C) :
  docresp resp = Some d →
  is_final resp = false →
  (is_Some (rowdata_of resp !! "__doc__") ↔ get_rc d = LCB_SUCCESS)
  ∧ (get_rc d = LCB_SUCCESS →
     rowdata_of resp !! "__doc__"
     = Some match get_value d with
            | Some buf => SvPV (take (get_nvalue d) buf) false
            | None => SvUndef
            end)
  ∧ (get_rc d ≠ LCB_SUCCESS → rowdata_of resp !! "__doc__" = None)
  ∧ rowdata_of resp !! "key" = Some (decoded_field (key resp) (nkey resp))
  ∧ rowdata_of resp !! "value" = Some (decoded_field (value resp) (nvalue resp))
  ∧ (∀ buf n, key resp = Some buf → nkey resp = S n →
       rowdata_of resp !! "key" = Some (SvPV (take (S n) buf) true))
  ∧ (∀ buf n, value resp = Some buf → nvalue resp = S n →
       rowdata_of resp !! "value" = Some (SvPV (take (S n) buf) true))
  ∧ (∃ w', viewrow_callback C meth resp w = Ok w'
       ∧ concat (batches (trace w')) ++ rawrows (req w')
         = concat (batches (trace w)) ++ rawrows (req w) ++ [rowdata_of resp])
  ∧ (∀ rs1 rs2 f c0,
       Forall (fun r => is_final r = false) rs1 →
       Forall (fun r => is_final r = false) rs2 →
       is_final f = true →
       ∃ w', dispatch C meth (rs1 ++ resp :: rs2 ++ [f]) (world_init c0) = Ok w'
         ∧ rowdata_of resp ∈ concat (batches (trace w'))).
Proof.
  intros Hd Hrow.
  destruct (rowdata_of_base resp) as (Hkey & Hval & _).
  rewrite sv_from_rowdata_decoded in Hkey, Hval.
  split_and!; try done.
  - rewrite rowdata_of_doc, Hd. cbn.
    destruct (Z.eqb_spec (get_rc d) LCB_SUCCESS) as [He|Hne].
    + split; [done|]. by eexists.
    + split; [intros [? [=]]|done].
  - intros Hrc. rewrite rowdata_of_doc, Hd. cbn. rewrite Hrc. cbn.
    by destruct (get_value d).
  - intros Hrc. rewrite rowdata_of_doc, Hd. cbn.
    by destruct (Z.eqb_spec (get_rc d) LCB_SUCCESS).
  - intros buf n Hb Hn. by rewrite Hkey, Hb, Hn.
  - intros buf n Hb Hn. by rewrite Hval, Hb, Hn.
  - destruct (dispatch_rows_spec [resp]) with (w := w)
      as (w' & tr & Hw' & Htr & _ & _ & _ & _ & _ & _ & Hcat & _).
    { by constructor. }
    cbn [dispatch] in Hw'.
    destruct (viewrow_callback C meth resp w) as [w1|]; [|done].
    cbn in Hw'. injection Hw' as ->.
    exists w'. split; [done|].
    by rewrite Htr, batches_app, concat_app, <- app_assoc, Hcat.
  - intros rs1 rs2 f c0 Hrs1 Hrs2 Hf.
    destruct (delivered_of_query (rs1 ++ resp :: rs2) f c0)
      as (w' & Hw' & Hcat & _); [|done|].
    { apply Forall_app. split; [done|]. by constructor. }
    exists w'. rewrite <- app_assoc in Hw'. split; [done|].
    rewrite Hcat, fmap_app, fmap_cons. set_solver.
Qed.

(** C10 (amended). On a successful document sub-response the "__doc__"
    entry is what [newSVpvn] makes of the payload, without the test of
    [sv_from_rowdata] and without the UTF-8 flag: for a non-NULL pointer
    the string of the payload bytes, the empty string when the length is
    zero; for a NULL pointer an entry holding the undefined value. The
    entry is present in both cases. The terminal metadata goes through
    [sv_from_rowdata]: NULL or empty metadata is stored as the undefined
    value. *)
Theorem C10_embedded_document_verbatim resp d f (w : world C) :
  docresp resp = Some d →
  get_rc d = LCB_SUCCESS →
  is_final f = true →
  rowdata_of resp !! "__doc__" = Some (newSVpvn (get_value d) (get_nvalue d))
  ∧ (∀ buf, get_value d = Some buf →
       rowdata_of resp !! "__doc__" = Some (SvPV (take (get_nvalue d) buf) false))
  ∧ (∀ buf, get_value d = Some buf → get_nvalue d = 0%nat →
       rowdata_of resp !! "__doc__" = Some (SvPV [] false))
  ∧ (get_value d = None → rowdata_of resp !! "__doc__" = Some SvUndef)
  ∧ (∃ w', viewrow_callback C meth f w = Ok w'
       ∧ slots (req w') !! PLCB_VHIDX_META
         = Some (sv_from_rowdata (value f) (nvalue f))
       ∧ (value f = None ∨ nvalue f = 0%nat →
          slots (req w') !! PLCB_VHIDX_META = Some SvUndef)).
Proof.
  intros Hd Hrc Hf.
  assert (Hdoc : rowdata_of resp !! "__doc__"
                 = Some (newSVpvn (get_value d) (get_nvalue d))).
  { rewrite rowdata_of_doc, Hd. cbn. by rewrite Hrc. }
  rewrite Hdoc. split_and!.
  - done.
  - by intros buf ->.
  - by intros buf -> ->.
  - by intros ->.
  - destruct (viewrow_callback_final f w Hf)
      as (w' & o1 & o2 & Hw' & _ & Hsl & _).
    assert (Hmeta : slots (req w') !! PLCB_VHIDX_META
                    = Some (sv_from_rowdata (value f) (nvalue f))).
    { rewrite Hsl. unfold final_slots. destruct (htresp f); by simplify_map_eq. }
    exists w'. split_and!; [done|done|].
    rewrite Hmeta. intros [->| ->]; [done|].
    unfold sv_from_rowdata. by rewrite andb_false_r.
Qed.

End DispatcherFacts.

(** ** Further properties of the dispatcher *)

Section DispatcherMore.

Context {C : Type} (meth : C -> viewhandle -> option (list row) -> C * outcome).

(** The handle a row event leaves when its row is appended. *)
Lemma viewrow_callback_buffers resp (w : world C) :
  is_final resp = false →
  (length (rawrows (req w)) < 20)%nat →
  viewrow_callback C meth resp w
  = Ok (av_push_rawrows C (rowdata_of resp) (log C EWaitUnref w)).
Proof.
  intros Hrow Hlen. unfold viewrow_callback. rewrite Hrow.
  unfold av_len. cbn [av_of av_push_rawrows set_req req rawrows log].
  assert (Hacc : (length (rawrows (req w) ++ [rowdata_of resp]) ≤ 20)%nat)
    by (rewrite length_app; cbn; lia).
  destruct (Z.geb_spec (Z.of_nat (length (rawrows (req w) ++ [rowdata_of resp])) - 1) 20);
    [lia|done].
Qed.

(** X1. Up to twenty row events reach no consumer: the rows wait in the
    accumulator, in order, the consumer keeps the state it had, and
    nothing is stored into the handle. *)
Theorem rows_below_threshold_are_buffered rs (c0 : C) :
  Forall (fun r => is_final r = false) rs →
  (length rs ≤ 20)%nat →
  ∃ w', dispatch C meth rs (world_init c0) = Ok w'
    ∧ calls (trace w') = []
    ∧ rawrows (req w') = rowdata_of <$> rs
    ∧ consumer w' = c0
    ∧ slots (req w') = ∅.
Proof.
  intros Hrs Hlen.
  assert (Hgen : ∀ w : world C,
            (length (rawrows (req w)) + length rs ≤ 20)%nat →
            ∃ w', dispatch C meth rs w = Ok w'
              ∧ calls (trace w') = calls (trace w)
              ∧ rawrows (req w') = rawrows (req w) ++ (rowdata_of <$> rs)
              ∧ consumer w' = consumer w
              ∧ slots (req w') = slots (req w)).
  { clear Hlen c0. induction Hrs as [|r rs Hr Hrs IH]; intros w Hlen.
    - exists w. cbn. by rewrite app_nil_r.
    - cbn [length] in Hlen. cbn [dispatch].
      rewrite viewrow_callback_buffers by (done || lia).
      cbn [mbind result_bind].
      destruct (IH (av_push_rawrows C (rowdata_of r) (log C EWaitUnref w)))
        as (w' & Hw' & Hcalls & Hrr & Hc & Hsl).
      { cbn. rewrite length_app. cbn. lia. }
      exists w'. split; [done|]. cbn in Hcalls, Hrr, Hc, Hsl.
      rewrite Hcalls, Hrr, Hc, Hsl, calls_app, <- app_assoc. cbn.
      by rewrite app_nil_r. }
  destruct (Hgen (world_init c0)) as (w' & ? & ? & ? & ? & ?); [cbn; lia|].
  by exists w'.
Qed.

Lemma stores_to_final_stores_other i f :
  i ∉ [PLCB_VHIDX_ISDONE; PLCB_VHIDX_RC; PLCB_VHIDX_META; PLCB_VHIDX_HTCODE] →
  stores_to i (final_stores f) = [].
Proof.
  intros Hi. unfold final_stores, stores_to.
  destruct (htresp f), i; cbn [app omap list_omap]; repeat case_decide;
    try discriminate; try done; exfalso; apply Hi; repeat constructor.
Qed.

Lemma final_slots_other i f (s : gmap vhidx sv) :
  i ∉ [PLCB_VHIDX_ISDONE; PLCB_VHIDX_RC; PLCB_VHIDX_META; PLCB_VHIDX_HTCODE] →
  final_slots f s !! i = s !! i.
Proof.
  intros Hi. unfold final_slots.
  assert (i ≠ PLCB_VHIDX_ISDONE ∧ i ≠ PLCB_VHIDX_RC
          ∧ i ≠ PLCB_VHIDX_META ∧ i ≠ PLCB_VHIDX_HTCODE)
    as (? & ? & ? & ?) by (split_and!; intros ->; apply Hi; repeat constructor).
  destruct (htresp f); by simplify_map_eq.
Qed.

(** One event, from any state: what the dispatcher leaves alone, what
    it does to the cookie, and the bound on the accumulator. *)
Lemma viewrow_callback_frame ev (w : world C) :
  ∃ w' tr,
    viewrow_callback C meth ev w = Ok w'
    ∧ trace w' = trace w ++ tr
    ∧ rowbuf (req w') = rowbuf (req w)
    ∧ (∀ i, i ∉ [PLCB_VHIDX_ISDONE; PLCB_VHIDX_RC; PLCB_VHIDX_META;
                 PLCB_VHIDX_HTCODE] →
         slots (req w') !! i = slots (req w) !! i ∧ stores_to i tr = [])
    ∧ cookie_refcnt w' = (cookie_refcnt w - finals [ev])%nat
    ∧ ((length (rawrows (req w)) ≤ 20)%nat →
       (length (rawrows (req w')) ≤ 20)%nat
       ∧ Forall (fun b => (length b ≤ 21)%nat) (batches tr)).
Proof.
  destruct (is_final ev) eqn:Hev.
  - destruct (viewrow_callback_final meth ev w Hev)
      as (w' & o1 & o2 & Hw' & Htr & Hsl & Hrb & Hrr & Hck).
    assert (Hfin : finals [ev] = 1%nat).
    { unfold finals. cbn. by rewrite decide_True. }
    eexists w', _. split; [done|]. split; [exact Htr|].
    rewrite Hfin, Hck, Hrr. split_and!; [done| |by rewrite Nat.sub_1_r|].
    + intros i Hi. rewrite Hsl. split; [by apply final_slots_other|].
      change (stores_to i (?e :: ?l)) with (stores_to i l).
      rewrite !stores_to_app, !stores_invoke_effects,
        stores_to_final_stores_other by done. done.
    + intros Hlen. split; [cbn; lia|].
      unfold batches. change (calls (?e :: ?l)) with (calls l).
      rewrite !calls_app, !calls_invoke_effects, calls_final_stores. cbn.
      apply Forall_cons. split; [lia|constructor].
  - destruct (viewrow_callback_row meth ev w Hev)
      as (w' & Hw' & Hsl & Hrb & Hck & Hcase).
    assert (Hfin : finals [ev] = 0%nat).
    { unfold finals. cbn. rewrite decide_False; [done|]. by rewrite Hev. }
    rewrite Hfin. rewrite length_app in Hcase. cbn [length] in Hcase.
    case_decide.
    + destruct Hcase as (Hrr & o & Htr).
      eexists w', _. split; [done|]. split; [exact Htr|].
      rewrite Hsl, Hrb, Hck, Hrr. split_and!; [done| |lia|].
      * intros i _. split; [done|].
        change (stores_to i (?e :: ?l)) with (stores_to i l).
        by rewrite stores_invoke_effects.
      * intros Hlen. split; [cbn; lia|].
        unfold batches. change (calls (?e :: ?l)) with (calls l).
        rewrite calls_invoke_effects. cbn.
        apply Forall_cons. split; [|constructor].
        rewrite length_app. cbn. lia.
    + destruct Hcase as (Hrr & Htr).
      eexists w', _. split; [done|]. split; [exact Htr|].
      rewrite Hsl, Hrb, Hck, Hrr. split_and!; [done| |lia|].
      * intros i _. done.
      * intros Hlen. split; [rewrite length_app; cbn; lia|]. constructor.
Qed.

Lemma dispatch_frame evs :
  ∀ w : world C, ∃ w' tr,
    dispatch C meth evs w = Ok w'
    ∧ trace w' = trace w ++ tr
    ∧ rowbuf (req w') = rowbuf (req w)
    ∧ (∀ i, i ∉ [PLCB_VHIDX_ISDONE; PLCB_VHIDX_RC; PLCB_VHIDX_META;
                 PLCB_VHIDX_HTCODE] →
         slots (req w') !! i = slots (req w) !! i ∧ stores_to i tr = [])
    ∧ cookie_refcnt w' = (cookie_refcnt w - finals evs)%nat
    ∧ ((length (rawrows (req w)) ≤ 20)%nat →
       (length (rawrows (req w')) ≤ 20)%nat
       ∧ Forall (fun b => (length b ≤ 21)%nat) (batches tr)).
Proof.
  induction evs as [|ev evs IH]; intros w.
  - exists w, []. rewrite app_nil_r.
    split_and!; try done; try (unfold finals; cbn; lia);
      try (intros ?; split; [done|constructor]).
  - destruct (viewrow_callback_frame ev w)
      as (w1 & tr1 & Hw1 & Htr1 & Hrb1 & Hsl1 & Hck1 & Hlen1).
    destruct (IH w1) as (w' & tr & Hw' & Htr & Hrb & Hsl & Hck & Hlen).
    exists w', (tr1 ++ tr). cbn [dispatch]. rewrite Hw1. cbn [mbind result_bind].
    rewrite (finals_cons ev evs). split_and!; try done.
    + by rewrite Htr, Htr1, <- app_assoc.
    + congruence.
    + intros i Hi. destruct (Hsl1 i Hi) as [E1 Hs1].
      destruct (Hsl i Hi) as [E Hs].
      split; [congruence|]. by rewrite stores_to_app, Hs1, Hs.
    + lia.
    + intros Hl. destruct (Hlen1 Hl) as [Hl1 Hb1].
      destruct (Hlen Hl1) as [Hl' Hb]. split; [done|].
      rewrite batches_app. by apply Forall_app.
Qed.

(** X5. Whatever the events, the dispatcher leaves the row buffer of
    the handle alone, and neither stores into nor changes any slot but
    the done flag, the result code, the metadata and the HTTP status. *)
Theorem dispatcher_leaves_other_slots evs (w : world C) :
  ∃ w' tr,
    dispatch C meth evs w = Ok w'
    ∧ trace w' = trace w ++ tr
    ∧ rowbuf (req w') = rowbuf (req w)
    ∧ Forall (fun i => slots (req w') !! i = slots (req w) !! i
                       ∧ stores_to i tr = [])
        [PLCB_VHIDX_ROWBUF; PLCB_VHIDX_RAWROWS; PLCB_VHIDX_PARENT;
         PLCB_VHIDX_PRIVCB].
Proof.
  destruct (dispatch_frame evs w) as (w' & tr & Hw' & Htr & Hrb & Hsl & _).
  exists w', tr. split_and!; try done.
  repeat constructor; apply Hsl;
    repeat (apply not_elem_of_cons; split; [done|]); apply not_elem_of_nil.
Qed.

(** X7. After a final event the done flag is true, the result code is
    the engine's, whatever it is, and the metadata is the decoded
    payload; the HTTP status is the one of the HTTP response when the
    event has one, and otherwise whatever the slot held before. *)
Theorem terminal_slots_after_final f (w : world C) :
  is_final f = true →
  ∃ w', viewrow_callback C meth f w = Ok w'
    ∧ slots (req w') !! PLCB_VHIDX_ISDONE = Some SvYes
    ∧ slots (req w') !! PLCB_VHIDX_RC = Some (SvIV (rc f))
    ∧ slots (req w') !! PLCB_VHIDX_META
      = Some (sv_from_rowdata (value f) (nvalue f))
    ∧ slots (req w') !! PLCB_VHIDX_HTCODE
      = match htresp f with
        | Some ht => Some (SvIV (htstatus ht))
        | None => slots (req w) !! PLCB_VHIDX_HTCODE
        end.
Proof.
  intros Hf.
  destruct (viewrow_callback_final meth f w Hf)
    as (w' & o1 & o2 & Hw' & _ & Hsl & _).
  exists w'. split; [done|]. rewrite Hsl. unfold final_slots, newSViv.
  destruct (htresp f); split_and!; by simplify_map_eq.
Qed.

(** X8. The shape of every query: for N row events and the final
    event, the consumer is handed N div 21 batches of 21 rows, then one
    batch of N mod 21 rows, empty when 21 divides N, then is invoked
    without rows: N div 21 + 2 invocations in all. *)
Theorem batch_sizes_of_query rs f (c0 : C) :
  Forall (fun r => is_final r = false) rs →
  is_final f = true →
  ∃ w', dispatch C meth (rs ++ [f]) (world_init c0) = Ok w'
    ∧ calls (trace w') = (Some <$> batches (trace w')) ++ [None]
    ∧ length <$> batches (trace w')
      = replicate (length rs / 21) 21%nat ++ [(length rs mod 21)%nat]
    ∧ length (calls (trace w')) = (length rs / 21 + 2)%nat.
Proof.
  intros Hrs Hf.
  destruct (calls_of_query meth rs f c0 Hrs Hf)
    as (w' & bs & acc & Hw' & Hcalls & Hb & _ & Hlen & Hacc & _).
  exists w'. split; [done|]. rewrite Hb, Hcalls. split_and!.
  - by rewrite fmap_app, <- app_assoc.
  - rewrite fmap_app, Hlen. cbn. by rewrite Hacc.
  - rewrite length_app, length_fmap.
    rewrite <- (length_fmap length bs), Hlen, length_replicate. cbn. lia.
Qed.

End DispatcherMore.

(** X9. Given a buffer that holds the bytes its length announces,
    [sv_from_rowdata] never makes an empty string: it returns the
    undefined value, exactly when the pointer is NULL or the length
    zero, or else the first [n] bytes, [n] of them, flagged UTF-8. *)
Theorem sv_from_rowdata_shape s n :
  (∀ buf, s = Some buf → (n ≤ length buf)%nat) →
  match sv_from_rowdata s n with
  | SvUndef => s = None ∨ n = 0%nat
  | SvPV bs utf8 =>
      utf8 = true ∧ length bs = n ∧ (0 < n)%nat
      ∧ ∃ buf, s = Some buf ∧ bs = take n buf
  | _ => False
  end.
Proof.
  intros Hbuf. unfold sv_from_rowdata.
  destruct s as [buf|]; [|by left].
  destruct n as [|n]; [by right|].
  rewrite bool_decide_eq_true_2 by by eexists. cbn [andb negb Nat.eqb newSVpvn SvUTF8_on].
  split_and!; [done| |lia|by eexists].
  rewrite length_take. specialize (Hbuf buf eq_refl). lia.
Qed.

(** X10. A row has an entry for each of "key", "value", "geometry" and
    "id", present or not on the wire, and a "__doc__" entry besides
    exactly when a document sub-response came with success; it has no
    other entry. *)
Theorem rowdata_of_fields resp :
  dom (rowdata_of resp)
  = {["key"; "value"; "geometry"; "id"]}
    ∪ (match docresp resp with
       | Some d => if get_rc d =? LCB_SUCCESS then {["__doc__"]} else ∅
       | None => ∅
       end : gset string).
Proof.
  unfold rowdata_of, hv_stores.
  destruct (docresp resp) as [d|]; [destruct (get_rc d =? LCB_SUCCESS)|];
    rewrite !dom_insert_L, dom_empty_L; set_solver.
Qed.

(** ** The full dispatcher and [Dispatcher] *)

Section Erasure.

Context {C : Type}
  (meth : C -> viewhandle -> option (list row) -> C * Full.outcome * nat)
  (sig_warn : C -> message -> C * option string).

Lemma erase_app tr1 tr2 : erase (tr1 ++ tr2) = erase tr1 ++ erase tr2.
Proof. apply bind_app. Qed.

Lemma calls_erase tr : calls (erase tr) = Full.calls tr.
Proof.
  induction tr as [|e tr IH]; [done|].
  change (e :: tr) with ([e] ++ tr). rewrite erase_app.
  rewrite calls_app, IH. by destruct e.
Qed.

Lemma batches_erase tr : batches (erase tr) = Full.batches tr.
Proof. unfold batches, Full.batches. by rewrite calls_erase. Qed.

Lemma none_count_erase tr : none_count (erase tr) = Full.none_count tr.
Proof. unfold none_count, Full.none_count. by rewrite calls_erase. Qed.

Lemma stores_to_erase i tr : stores_to i (erase tr) = Full.stores_to i tr.
Proof.
  induction tr as [|e tr IH]; [done|].
  change (e :: tr) with ([e] ++ tr). rewrite erase_app.
  rewrite stores_to_app, IH. destruct e; try done.
  cbn. by case_decide.
Qed.

Lemma sim_invoke_row rowsrv (W : Full.world C) (w : world C) W' :
  sim W w →
  Full.invoke_row C meth sig_warn rowsrv W = Full.Ret W' →
  ∃ w', invoke_row C (coarsen meth sig_warn) rowsrv w = Ok w' ∧ sim W' w'.
Proof.
  intros (Hreq & Hc & Htr).
  unfold Full.invoke_row, Full.call_sv, Full.warn, invoke_row, call_sv, coarsen, warn.
  rewrite <- Hreq, <- Hc.
  destruct (meth (Full.consumer W) (Full.req W) (av_of (Full.req W) <$> rowsrv))
    as [[c1 o] k].
  destruct o as [|[[] [s|d]]];
    cbn [coarse_outcome Full.err_true Full.err_text Full.consumer Full.log
         Full.set_consumer Full.SvREFCNT_inc_cookie bool_decide mbind result_bind];
    try destruct (sig_warn c1 (got_error_in s)) as [c2 [d|]];
    cbn [Full.and_then fst snd]; try done; intros [= <-];
    (eexists; split; [reflexivity|]);
    destruct rowsrv as [[]|]; unfold sim; cbn;
    rewrite ?erase_app, <- ?Htr, <- ?Hreq; cbn; rewrite ?app_nil_r, <- ?app_assoc;
    done.
Qed.

Lemma sim_av_store i v (W : Full.world C) (w : world C) :
  sim W w → sim (Full.av_store C i v W) (av_store C i v w).
Proof.
  intros (Hreq & Hc & Htr). unfold sim. cbn.
  rewrite erase_app, Htr, Hreq. done.
Qed.

Lemma sim_viewrow_callback ev (W : Full.world C) (w : world C) W' :
  sim W w →
  Full.viewrow_callback C meth sig_warn ev W = Some (Full.Ret W') →
  ∃ w', viewrow_callback C (coarsen meth sig_warn) ev w = Ok w' ∧ sim W' w'.
Proof.
  intros Hsim. unfold Full.viewrow_callback, viewrow_callback.
  destruct (Nat.eqb (Full.cookie_refcnt W) 0); [done|].
  assert (Hsim0 : sim (Full.log C Full.EWaitUnref W) (log C EWaitUnref w)).
  { destruct Hsim as (Hreq & Hc & Htr). unfold sim. cbn.
    by rewrite erase_app, Htr. }
  destruct (is_final ev).
  - destruct (Full.invoke_row C meth sig_warn (Some RefRawrows)
                (Full.log C Full.EWaitUnref W)) as [W1|] eqn:H1; [|done].
    destruct (sim_invoke_row _ _ _ _ Hsim0 H1) as (w1 & -> & Hsim1).
    cbn [Full.and_then mbind result_bind].
    match goal with |- context [Full.invoke_row C meth sig_warn None ?X] =>
      set (W2 := X) end.
    match goal with |- context [invoke_row C (coarsen meth sig_warn) None ?x] =>
      set (w2 := x) end.
    assert (Hsim2 : sim W2 w2).
    { unfold W2, w2. destruct (htresp ev); repeat apply sim_av_store; done. }
    clearbody W2 w2.
    destruct (Full.invoke_row C meth sig_warn None W2) as [W3|] eqn:H3; [|done].
    destruct (sim_invoke_row _ _ _ _ Hsim2 H3) as (w3 & -> & Hsim3).
    cbn [Full.and_then mbind result_bind]. intros [= <-].
    eexists; split; [reflexivity|].
    destruct Hsim3 as (Hreq & Hc & Htr). unfold sim. cbn.
    by rewrite erase_app, Htr.
  - assert (Hsim1 : sim (Full.av_push_rawrows C (rowdata_of ev)
                           (Full.log C Full.EWaitUnref W))
                        (av_push_rawrows C (rowdata_of ev) (log C EWaitUnref w))).
    { destruct Hsim0 as (Hreq & Hc & Htr). unfold sim. cbn in *.
      by rewrite Htr, Hreq. }
    assert (Hlen : av_len (av_of (Full.req (Full.av_push_rawrows C (rowdata_of ev)
                       (Full.log C Full.EWaitUnref W))) RefRawrows)
                   = av_len (av_of (req (av_push_rawrows C (rowdata_of ev)
                       (log C EWaitUnref w))) RefRawrows)).
    { destruct Hsim1 as (-> & _). done. }
    cbv zeta. rewrite Hlen.
    destruct (_ >=? 20).
    + intros [= H1]. apply (sim_invoke_row _ _ _ _ Hsim1 H1).
    + intros [= <-]. by eexists.
Qed.

Lemma sim_dispatch evs :
  ∀ (W : Full.world C) (w : world C) W',
  sim W w →
  Full.dispatch C meth sig_warn evs W = Some (Full.Ret W') →
  ∃ w', dispatch C (coarsen meth sig_warn) evs w = Ok w' ∧ sim W' w'.
Proof.
  induction evs as [|ev evs IH]; intros W w W' Hsim.
  - intros [= <-]. by exists w.
  - cbn [Full.dispatch dispatch].
    destruct (Full.viewrow_callback C meth sig_warn ev W) as [[W1|e W1]|] eqn:H1;
      [|done|done].
    destruct (sim_viewrow_callback _ _ _ _ Hsim H1) as (w1 & -> & Hsim1).
    cbn [mbind result_bind]. by apply IH.
Qed.

Lemma sim_init (c : C) : sim (Full.world_init c) (world_init c).
Proof. done. Qed.

(** A run of the full dispatcher that returns, seen through [erase]. *)
Lemma dispatch_erase evs (W W' : Full.world C) :
  Full.dispatch C meth sig_warn evs W = Some (Full.Ret W') →
  ∃ w', dispatch C (coarsen meth sig_warn) evs (coarse_world W) = Ok w'
    ∧ req w' = Full.req W'
    ∧ consumer w' = Full.consumer W'
    ∧ trace w' = erase (Full.trace W').
Proof.
  intros H.
  destruct (sim_dispatch evs W (coarse_world W) W') as (w' & Hw' & Hreq & Hc & Htr);
    [done|done|].
  by exists w'.
Qed.

Lemma erase_query rs f (c0 : C) W' :
  Forall (fun r => is_final r = false) rs →
  is_final f = true →
  Full.dispatch C meth sig_warn (rs ++ [f]) (Full.world_init c0)
  = Some (Full.Ret W') →
  concat (Full.batches (Full.trace W')) = rowdata_of <$> rs
  ∧ last (Full.calls (Full.trace W')) = Some None
  ∧ Full.none_count (Full.trace W') = 1%nat
  ∧ length <$> Full.batches (Full.trace W')
    = replicate (length rs / 21) 21%nat ++ [(length rs mod 21)%nat].
Proof.
  intros Hrs Hf H.
  destruct (dispatch_erase _ _ _ H) as (w' & Hw' & _ & _ & Htr).
  change (coarse_world (Full.world_init c0)) with (world_init c0) in Hw'.
  destruct (delivered_of_query (coarsen meth sig_warn) rs f c0 Hrs Hf)
    as (w1 & Hw1 & Hcat & Hlast & Hnone & _).
  destruct (calls_of_query (coarsen meth sig_warn) rs f c0 Hrs Hf)
    as (w2 & bs & acc & Hw2 & _ & Hb & _ & Hlen & Hacc & _).
  rewrite Hw' in Hw1, Hw2. injection Hw1 as <-. injection Hw2 as <-.
  rewrite Htr in Hcat, Hlast, Hnone, Hb.
  rewrite batches_erase in Hcat, Hb. rewrite calls_erase in Hlast.
  rewrite none_count_erase in Hnone.
  split_and!; try done.
  rewrite Hb, fmap_app, Hlen. cbn. by rewrite Hacc.
Qed.

Lemma erase_none_count evs (W W' : Full.world C) :
  Full.dispatch C meth sig_warn evs W = Some (Full.Ret W') →
  Full.none_count (Full.trace W')
  = (Full.none_count (Full.trace W) + finals evs)%nat.
Proof.
  intros H.
  destruct (dispatch_erase _ _ _ H) as (w' & Hw' & _ & _ & Htr).
  destruct (dispatch_any_spec (coarsen meth sig_warn) evs (coarse_world W))
    as (w1 & tr & Hw1 & Htr1 & _ & _ & Hn & _).
  rewrite Hw' in Hw1. injection Hw1 as <-.
  rewrite <- !none_count_erase, <- Htr, Htr1, none_count_app, Hn. done.
Qed.

Lemma erase_bounds evs (W W' : Full.world C) TR :
  Full.dispatch C meth sig_warn evs W = Some (Full.Ret W') →
  Full.trace W' = Full.trace W ++ TR →
  (length (rawrows (Full.req W)) ≤ 20)%nat →
  (length (rawrows (Full.req W')) ≤ 20)%nat
  ∧ Forall (fun b => (length b ≤ 21)%nat) (Full.batches TR).
Proof.
  intros H HTR Hlen.
  destruct (dispatch_erase _ _ _ H) as (w' & Hw' & Hreq & _ & Htr).
  destruct (dispatch_frame (coarsen meth sig_warn) evs (coarse_world W))
    as (w1 & tr & Hw1 & Htr1 & _ & _ & _ & Hb).
  rewrite Hw' in Hw1. injection Hw1 as <-.
  destruct (Hb Hlen) as [Hl Hbs]. rewrite Hreq in Hl. split; [done|].
  rewrite Htr, HTR, erase_app in Htr1. cbn [coarse_world trace] in Htr1.
  apply app_inv_head in Htr1. by rewrite <- batches_erase, Htr1.
Qed.

End Erasure.

(** ** The full dispatcher, one event at a time *)

Module FullFacts.
Import Full.

Lemma full_views_app tr1 tr2 : views (tr1 ++ tr2) = views tr1 ++ views tr2.
Proof.
  induction tr1 as [|[] tr1 IH]; cbn [app views]; by rewrite ?IH.
Qed.

Lemma full_calls_app tr1 tr2 : calls (tr1 ++ tr2) = calls tr1 ++ calls tr2.
Proof. unfold calls. by rewrite full_views_app, fmap_app. Qed.

Lemma full_batches_app tr1 tr2 :
  batches (tr1 ++ tr2) = batches tr1 ++ batches tr2.
Proof. unfold batches. by rewrite full_calls_app, omap_app. Qed.

Lemma full_warnings_app tr1 tr2 :
  warnings (tr1 ++ tr2) = warnings tr1 ++ warnings tr2.
Proof.
  induction tr1 as [|[] tr1 IH]; cbn [app warnings]; by rewrite ?IH.
Qed.

Lemma full_faults_app tr1 tr2 : faults (tr1 ++ tr2) = faults tr1 ++ faults tr2.
Proof.
  induction tr1 as [|[| ? ? []| | | |] tr1 IH]; cbn [app faults]; by rewrite ?IH.
Qed.

Lemma full_stores_to_app i tr1 tr2 :
  stores_to i (tr1 ++ tr2) = stores_to i tr1 ++ stores_to i tr2.
Proof.
  induction tr1 as [|[] tr1 IH]; cbn [app stores_to]; try case_decide;
    by rewrite ?IH.
Qed.

Lemma full_drops_app tr1 tr2 : drops (tr1 ++ tr2) = (drops tr1 + drops tr2)%nat.
Proof.
  induction tr1 as [|[] tr1 IH]; cbn [app drops]; by rewrite ?IH.
Qed.

Lemma full_none_count_app tr1 tr2 :
  none_count (tr1 ++ tr2) = (none_count tr1 + none_count tr2)%nat.
Proof. unfold none_count. by rewrite full_calls_app, filter_app, length_app. Qed.

(** The report that follows a call is made of warnings only, one for
    an error value that calls for it. *)
Lemma full_views_report o : views (report_effects o) = [].
Proof. destruct o as [|e]; [done|]. cbn. by destruct (report_of e). Qed.

Lemma full_stores_report i o : stores_to i (report_effects o) = [].
Proof. destruct o as [|e]; [done|]. cbn. by destruct (report_of e). Qed.

Lemma full_drops_report o : drops (report_effects o) = 0%nat.
Proof. destruct o as [|e]; [done|]. cbn. by destruct (report_of e). Qed.

Lemma full_faults_report o : faults (report_effects o) = [].
Proof. destruct o as [|e]; [done|]. cbn. by destruct (report_of e). Qed.

Lemma full_warnings_report h a o :
  warnings (report_effects o) = omap report_of (faults [ECall h a o]).
Proof. destruct o as [|e]; [done|]. cbn. by destruct (report_of e). Qed.

Lemma full_views_final_stores f : views (final_stores f) = [].
Proof. unfold final_stores. by destruct (htresp f). Qed.

Lemma full_warnings_final_stores f : warnings (final_stores f) = [].
Proof. unfold final_stores. by destruct (htresp f). Qed.

Lemma full_faults_final_stores f : faults (final_stores f) = [].
Proof. unfold final_stores. by destruct (htresp f). Qed.

Lemma full_drops_final_stores f : drops (final_stores f) = 0%nat.
Proof. unfold final_stores. by destruct (htresp f). Qed.

Lemma full_stores_final_stores i f :
  (length (stores_to i (final_stores f)) ≤ 1)%nat.
Proof.
  unfold final_stores.
  destruct (htresp f), i; cbn [app stores_to]; repeat case_decide;
    try discriminate; cbn; lia.
Qed.

(** Reading a trace given piece by piece. *)
Ltac read_trace :=
  repeat first
    [ progress cbn [views warnings faults stores_to drops app]
    | rewrite full_views_app | rewrite full_warnings_app
    | rewrite full_faults_app | rewrite full_stores_to_app
    | rewrite full_drops_app
    | rewrite full_views_report | rewrite full_stores_report
    | rewrite full_drops_report | rewrite full_faults_report
    | rewrite full_views_final_stores | rewrite full_warnings_final_stores
    | rewrite full_faults_final_stores | rewrite full_drops_final_stores ].

Section Facts.

Context {C : Type}
  (meth : C -> viewhandle -> option (list row) -> C * outcome * nat)
  (sig_warn : C -> message -> C * option string).

(** One consumer invocation: the call on the handle as it stands, the
    report of a true error, and the clearing, which a report that dies
    leaves out. *)
Lemma full_invoke_row_run rowsrv (w : world C) :
  let args := av_of (req w) <$> rowsrv in
  let m := meth (consumer w) (req w) args in
  let r := invoke_row C meth sig_warn rowsrv w in
  r = match report_dies sig_warn m.1.1 m.1.2 with
      | None => Ret (world_of r)
      | Some d => Unwound d (world_of r)
      end
  ∧ trace (world_of r)
    = trace w ++ ECall (req w) args m.1.2 :: report_effects m.1.2
        ++ (if returned r then clear_effects rowsrv else [])
  ∧ req (world_of r) = (if returned r then clear_av rowsrv (req w) else req w)
  ∧ consumer (world_of r) = report_state sig_warn m.1.1 m.1.2
  ∧ cookie_refcnt (world_of r) = (cookie_refcnt w + m.2)%nat.
Proof.
  intros args m r. unfold r, invoke_row, call_sv, warn. fold args. fold m.
  destruct m as [[c1 o] k]. cbn [fst snd].
  destruct o as [|[[] [s|d]]];
    cbn [report_dies report_state report_effects report_of err_true err_text
         consumer log set_consumer SvREFCNT_inc_cookie];
    try destruct (sig_warn c1 (got_error_in s)) as [c2 [d|]];
    destruct rowsrv as [[]|]; cbn; rewrite <- ?app_assoc; split_and!; try done.
  all: by destruct (req w).
Qed.

Lemma full_report_returns :
  reports_return meth sig_warn →
  ∀ c h a, report_dies sig_warn (meth c h a).1.1 (meth c h a).1.2 = None.
Proof.
  intros [Hw Ht] c h a. unfold report_dies.
  destruct (meth c h a).1.2 as [|e] eqn:Ho; [done|].
  destruct (err_true e) eqn:He; [|done].
  destruct (Ht c h a e Ho He) as [s ->]. apply Hw.
Qed.

(** A row event on a live cookie. *)
Lemma full_callback_row resp (w : world C) :
  is_final resp = false →
  cookie_refcnt w ≠ 0%nat →
  let h := {| slots := slots (req w); rowbuf := rowbuf (req w);
              rawrows := rawrows (req w) ++ [rowdata_of resp] |} in
  let m := meth (consumer w) h (Some (rawrows h)) in
  ∃ r, viewrow_callback C meth sig_warn resp w = Some r
    ∧ if decide (21 ≤ length (rawrows h))%nat
      then r = match report_dies sig_warn m.1.1 m.1.2 with
               | None => Ret (world_of r)
               | Some d => Unwound d (world_of r)
               end
           ∧ trace (world_of r)
             = trace w ++ EWaitUnref :: ECall h (Some (rawrows h)) m.1.2
                 :: report_effects m.1.2
                 ++ (if returned r then [EClear RefRawrows] else [])
           ∧ req (world_of r)
             = (if returned r then clear_av (Some RefRawrows) h else h)
           ∧ consumer (world_of r) = report_state sig_warn m.1.1 m.1.2
           ∧ cookie_refcnt (world_of r) = (cookie_refcnt w + m.2)%nat
      else r = Ret (world_of r)
           ∧ trace (world_of r) = trace w ++ [EWaitUnref]
           ∧ req (world_of r) = h
           ∧ consumer (world_of r) = consumer w
           ∧ cookie_refcnt (world_of r) = cookie_refcnt w.
Proof.
  intros Hrow Hlive h m. unfold viewrow_callback.
  destruct (Nat.eqb_spec (cookie_refcnt w) 0) as [|_]; [done|].
  rewrite Hrow. unfold av_len.
  cbn [av_of av_push_rawrows set_req req rawrows log].
  change (rawrows (req w) ++ [rowdata_of resp]) with (rawrows h).
  destruct (Z.geb_spec (Z.of_nat (length (rawrows h)) - 1) 20) as [Hge|Hlt];
    (eexists; split; [reflexivity|]); case_decide as Hlen; try lia.
  - match goal with |- context [invoke_row C meth sig_warn ?rv ?w1] =>
      set (W := w1)
    end.
    destruct (full_invoke_row_run (Some RefRawrows) W) as (Hr & Htr & Hreq & Hc & Hck).
    cbn [av_of fmap option_fmap option_map clear_effects] in Hr, Htr, Hreq, Hc, Hck.
    change (req W) with h in *. change (consumer W) with (consumer w) in *.
    change (trace W) with (trace w ++ [EWaitUnref]) in *.
    change (cookie_refcnt W) with (cookie_refcnt w) in *.
    fold m in Hr, Htr, Hc, Hck.
    split_and!; try done.
    rewrite Htr, <- app_assoc. done.
  - cbn. done.
Qed.

(** A final event on a live cookie. *)
Lemma full_callback_final f (w : world C) :
  is_final f = true →
  cookie_refcnt w ≠ 0%nat →
  let h1 := req w in
  let m1 := meth (consumer w) h1 (Some (rawrows h1)) in
  let h2 := {| slots := final_slots f (slots h1);
               rowbuf := rowbuf h1; rawrows := [] |} in
  let m2 := meth (report_state sig_warn m1.1.1 m1.1.2) h2 None in
  let tr1 := EWaitUnref :: ECall h1 (Some (rawrows h1)) m1.1.2
               :: report_effects m1.1.2 in
  let tr2 := tr1 ++ EClear RefRawrows :: final_stores f
               ++ ECall h2 None m2.1.2 :: report_effects m2.1.2 in
  ∃ r, viewrow_callback C meth sig_warn f w = Some r
    ∧ match report_dies sig_warn m1.1.1 m1.1.2 with
      | Some d =>
          r = Unwound d (world_of r)
          ∧ trace (world_of r) = trace w ++ tr1
          ∧ req (world_of r) = h1
          ∧ consumer (world_of r) = report_state sig_warn m1.1.1 m1.1.2
          ∧ cookie_refcnt (world_of r) = (cookie_refcnt w + m1.2)%nat
      | None =>
          req (world_of r) = h2
          ∧ consumer (world_of r) = report_state sig_warn m2.1.1 m2.1.2
          ∧ match report_dies sig_warn m2.1.1 m2.1.2 with
            | Some d =>
                r = Unwound d (world_of r)
                ∧ trace (world_of r) = trace w ++ tr2
                ∧ cookie_refcnt (world_of r)
                  = (cookie_refcnt w + m1.2 + m2.2)%nat
            | None =>
                r = Ret (world_of r)
                ∧ trace (world_of r) = trace w ++ tr2 ++ [ECookieDec]
                ∧ cookie_refcnt (world_of r)
                  = (cookie_refcnt w + m1.2 + m2.2 - 1)%nat
            end
      end.
Proof.
  intros Hfin Hlive h1 m1 h2 m2 tr1 tr2. unfold viewrow_callback.
  destruct (Nat.eqb_spec (cookie_refcnt w) 0) as [|_]; [done|].
  rewrite Hfin. eexists; split; [reflexivity|].
  destruct (full_invoke_row_run (Some RefRawrows) (log C EWaitUnref w))
    as (Hr & Htr & Hreq & Hc & Hck).
  cbn [av_of fmap option_fmap option_map req consumer trace cookie_refcnt
       log clear_effects] in Hr, Htr, Hreq, Hc, Hck.
  fold h1 in Hr, Htr, Hreq, Hc, Hck. fold m1 in Hr, Htr, Hc, Hck.
  destruct (report_dies sig_warn m1.1.1 m1.1.2) as [d|] eqn:Hd1.
  - rewrite Hr in Htr, Hreq, Hc, Hck |- *. cbn [and_then world_of returned] in *.
    rewrite Htr, <- app_assoc. cbn [app]. rewrite app_nil_r. done.
  - rewrite Hr in Htr, Hreq, Hc, Hck |- *. cbn [and_then world_of returned] in *.
    set (w1 := world_of _) in *. clearbody w1. clear Hr.
    match goal with |- context [invoke_row C meth sig_warn None ?w2] =>
      set (W2 := w2)
    end.
    assert (Hw2 : req W2 = h2 ∧ consumer W2 = consumer w1
                  ∧ cookie_refcnt W2 = cookie_refcnt w1
                  ∧ trace W2 = trace w1 ++ final_stores f).
    { unfold W2, h2, final_slots, final_stores.
      destruct (htresp f); cbn; rewrite Hreq; cbn; rewrite <- ?app_assoc; done. }
    clearbody W2. destruct Hw2 as (E1 & E2 & E3 & E4).
    destruct (full_invoke_row_run None W2) as (Hr' & Htr' & Hreq' & Hc' & Hck').
    cbn [av_of fmap option_fmap option_map clear_effects clear_av] in Hr', Htr', Hreq', Hc', Hck'.
    rewrite E1, E2, Hc in Hr', Htr', Hc', Hck'. fold m2 in Hr', Htr', Hc', Hck'.
    rewrite E3, Hck in Hck'. rewrite E4, Htr in Htr'. rewrite E1 in Hreq'.
    match type of Htr' with context [if ?b then [] else []] =>
      replace (if b then [] else []) with (@nil effect) in Htr' by (by destruct b)
    end.
    rewrite app_nil_r in Htr'.
    assert (Hreq2 : req (world_of (invoke_row C meth sig_warn None W2)) = h2).
    { rewrite Hreq'. by destruct (returned _). }
    clear Hreq'.
    destruct (report_dies sig_warn m2.1.1 m2.1.2) as [d|] eqn:Hd2.
    + rewrite Hr' in Htr', Hc', Hck', Hreq2 |- *. cbn [and_then world_of] in *.
      split_and!; try done. rewrite Htr'. unfold tr2, tr1.
      rewrite <- ?app_assoc. cbn [app]. by rewrite <- ?app_assoc.
    + rewrite Hr' in Htr', Hc', Hck', Hreq2 |- *.
      cbn [and_then world_of SvREFCNT_dec_cookie log req consumer trace cookie_refcnt] in *.
      split_and!; try done; [|by rewrite Hck'].
      rewrite Htr'. unfold tr2, tr1.
      rewrite <- ?app_assoc. cbn [app]. by rewrite <- ?app_assoc.
Qed.

Lemma full_finals_one ev : is_final ev = true → finals [ev] = 1%nat.
Proof. intros H. unfold finals. cbn. by rewrite decide_True. Qed.

Lemma full_finals_none ev : is_final ev = false → finals [ev] = 0%nat.
Proof. intros H. unfold finals. cbn. rewrite decide_False; [done|]. by rewrite H. Qed.

(** One event of either kind on a live cookie, whatever the Perl side
    does. *)
Lemma full_callback_step ev (w : world C) :
  cookie_refcnt w ≠ 0%nat →
  ∃ r tr, viewrow_callback C meth sig_warn ev w = Some r
    ∧ trace (world_of r) = trace w ++ tr
    ∧ Forall (fun v => match v.2 with
                       | Some _ => slots v.1 = slots (req w)
                       | None => slots v.1 = final_slots ev (slots (req w))
                       end) (views tr)
    ∧ (∀ i, length (stores_to i tr) ≤ finals [ev])%nat
    ∧ warnings tr = omap report_of (faults tr)
    ∧ (slots (req (world_of r)) = slots (req w)
       ∨ slots (req (world_of r)) = final_slots ev (slots (req w)))
    ∧ rowbuf (req (world_of r)) = rowbuf (req w)
    ∧ drops tr = (if returned r then finals [ev] else 0%nat)
    ∧ (cookie_refcnt w ≤ cookie_refcnt (world_of r) + drops tr)%nat
    ∧ (keeps_nothing meth →
       (cookie_refcnt (world_of r) + drops tr)%nat = cookie_refcnt w)
    ∧ (reports_return meth sig_warn → returned r = true)
    ∧ (is_final ev = false →
       slots (req (world_of r)) = slots (req w)
       ∧ Forall (fun v => is_Some v.2) (views tr)).
Proof.
  intros Hlive. destruct (is_final ev) eqn:Hev.
  - destruct (full_callback_final ev w Hev Hlive) as (r & Hr & Hcase).
    cbv zeta in Hcase. rewrite (full_finals_one ev Hev).
    set (m1 := meth (consumer w) (req w) (Some (rawrows (req w)))) in *.
    set (h2 := {| slots := final_slots ev (slots (req w));
                  rowbuf := rowbuf (req w); rawrows := [] |}) in *.
    set (m2 := meth (report_state sig_warn m1.1.1 m1.1.2) h2 None) in *.
    assert (Hk1 : keeps_nothing meth → m1.2 = 0%nat) by (intros Hk; apply Hk).
    assert (Hk2 : keeps_nothing meth → m2.2 = 0%nat) by (intros Hk; apply Hk).
    assert (Hb1 : reports_return meth sig_warn →
                  report_dies sig_warn m1.1.1 m1.1.2 = None)
      by (intros Hb; by apply full_report_returns).
    assert (Hb2 : reports_return meth sig_warn →
                  report_dies sig_warn m2.1.1 m2.1.2 = None)
      by (intros Hb; by apply full_report_returns).
    pose proof (full_stores_final_stores) as Hfs.
    destruct (report_dies sig_warn m1.1.1 m1.1.2) as [d1|];
      [destruct Hcase as (Hrr & Htr & Hreq & Hc & Hck)
      |destruct Hcase as (Hreq & Hc & Hcase);
       destruct (report_dies sig_warn m2.1.1 m2.1.2) as [d2|];
       destruct Hcase as (Hrr & Htr & Hck)].
    all: eexists r, _; (split; [done|]); (split; [exact Htr|]).
    all: rewrite Hrr; cbn [returned world_of]; rewrite Hrr in Hreq, Hck;
      cbn [world_of] in Hreq, Hck; rewrite Hreq, Hck; read_trace.
    all: split_and!;
      [repeat constructor
      |intros i; read_trace; rewrite ?length_app; cbn [length];
       specialize (Hfs i ev); lia
      |destruct m1.1.2, m2.1.2; cbn;
       repeat (match goal with |- context [report_of ?e] =>
                 destruct (report_of e) end; cbn); done
      |(by left) || (by right)
      |done|done|lia
      |intros Hk; rewrite ?Hk1, ?Hk2 by done; lia
      |intros Hb; try specialize (Hb1 Hb); try specialize (Hb2 Hb); done
      |done].
  - destruct (full_callback_row ev w Hev Hlive) as (r & Hr & Hcase).
    cbv zeta in Hcase. rewrite (full_finals_none ev Hev).
    set (h := {| slots := slots (req w); rowbuf := rowbuf (req w);
                 rawrows := rawrows (req w) ++ [rowdata_of ev] |}) in *.
    set (m := meth (consumer w) h (Some (rawrows h))) in *.
    assert (Hk1 : keeps_nothing meth → m.2 = 0%nat) by (intros Hk; apply Hk).
    assert (Hb1 : reports_return meth sig_warn →
                  report_dies sig_warn m.1.1 m.1.2 = None)
      by (intros Hb; by apply full_report_returns).
    case_decide; destruct Hcase as (Hrr & Htr & Hreq & Hc & Hck);
      eexists r, _; (split; [done|]); (split; [exact Htr|]);
      rewrite Hreq, Hck.
    + assert (Hd : drops (if returned r then [EClear RefRawrows] else []) = 0%nat)
        by (by destruct (returned r)).
      assert (Hv : views (if returned r then [EClear RefRawrows] else []) = [])
        by (by destruct (returned r)).
      assert (Hs : ∀ i, stores_to i (if returned r then [EClear RefRawrows] else []) = [])
        by (intros i; by destruct (returned r)).
      assert (Hw : warnings (if returned r then [EClear RefRawrows] else []) = [])
        by (by destruct (returned r)).
      assert (Hf : faults (if returned r then [EClear RefRawrows] else []) = [])
        by (by destruct (returned r)).
      read_trace. rewrite ?Hd, ?Hv, ?Hw, ?Hf.
      split_and!.
      * repeat constructor.
      * intros i. read_trace. rewrite Hs. cbn. lia.
      * destruct m.1.2; cbn;
          repeat (match goal with |- context [report_of ?e] =>
                    destruct (report_of e) end; cbn); done.
      * left. by destruct (returned r).
      * by destruct (returned r).
      * by destruct (returned r).
      * lia.
      * intros Hk. rewrite Hk1 by done. lia.
      * intros Hb. rewrite Hrr, (Hb1 Hb). done.
      * intros _. split; [by destruct (returned r)|]. by repeat constructor.
    + rewrite Hrr. cbn.
      split_and!; try done; try lia. by left.
Qed.

Lemma full_dispatch_app evs1 evs2 (w : world C) :
  dispatch C meth sig_warn (evs1 ++ evs2) w
  = match dispatch C meth sig_warn evs1 w with
    | Some (Ret w1) => dispatch C meth sig_warn evs2 w1
    | r => r
    end.
Proof.
  revert w. induction evs1 as [|ev evs1 IH]; intros w; [done|].
  cbn [app dispatch].
  destruct (viewrow_callback C meth sig_warn ev w) as [[w1|e w1]|]; [apply IH|done|done].
Qed.

Lemma full_callback_freed ev (w : world C) :
  viewrow_callback C meth sig_warn ev w = None ↔ cookie_refcnt w = 0%nat.
Proof.
  unfold viewrow_callback.
  destruct (Nat.eqb_spec (cookie_refcnt w) 0); split; done.
Qed.

Lemma full_isDone_slots h h' : slots h = slots h' → isDone h = isDone h'.
Proof. unfold isDone. by intros ->. Qed.

(** Any sequence of events, from any state, whatever the Perl side
    does, as far as the delivery goes. *)
Lemma full_dispatch_run evs :
  ∀ (w : world C) r, dispatch C meth sig_warn evs w = Some r →
  ∃ tr, trace (world_of r) = trace w ++ tr
    ∧ (isDone (req w) = true ∨ slots (req w) = ∅ →
       Forall view_ok (views tr)
       ∧ (isDone (req (world_of r)) = true ∨ slots (req (world_of r)) = ∅))
    ∧ (isDone (req w) = true →
       isDone (req (world_of r)) = true
       ∧ Forall (fun v => isDone v.1 = true) (views tr))
    ∧ (∀ i, length (stores_to i tr) ≤ finals evs)%nat
    ∧ warnings tr = omap report_of (faults tr)
    ∧ rowbuf (req (world_of r)) = rowbuf (req w)
    ∧ (returned r = true → drops tr = finals evs)
    ∧ (drops tr ≤ finals evs)%nat
    ∧ (cookie_refcnt w ≤ cookie_refcnt (world_of r) + drops tr)%nat
    ∧ (keeps_nothing meth →
       (cookie_refcnt (world_of r) + drops tr)%nat = cookie_refcnt w).
Proof.
  induction evs as [|ev evs IH]; intros w r Hr.
  - injection Hr as <-. exists []. cbn [world_of returned]. rewrite app_nil_r.
    split_and!; try done; try (cbn; lia).
  - cbn [dispatch] in Hr.
    destruct (decide (cookie_refcnt w = 0%nat)) as [H0|Hlive].
    { apply (full_callback_freed ev) in H0. by rewrite H0 in Hr. }
    destruct (full_callback_step ev w Hlive)
      as (r1 & tr1 & Hr1 & Htr1 & Hv1 & Hst1 & Hw1 & Hsl1 & Hrb1 & Hd1 & Hck1 & Hk1 & _ & _).
    rewrite Hr1 in Hr. rewrite (finals_cons ev evs).
    assert (Hdone1 : isDone (req w) = true → isDone (req (world_of r1)) = true).
    { intros Hd. destruct Hsl1 as [E|E].
      - by rewrite (full_isDone_slots _ _ E).
      - by eapply isDone_final_slots. }
    assert (Hinv1 : isDone (req w) = true ∨ slots (req w) = ∅ →
              Forall view_ok (views tr1)
              ∧ (isDone (req (world_of r1)) = true ∨ slots (req (world_of r1)) = ∅)).
    { intros HI. split.
      - eapply Forall_impl; [exact Hv1|]. intros [h a] Hha. unfold view_ok.
        cbn [fst snd] in *. intros Hnd.
        assert (slots h = slots (req w)) as E.
        { destruct a; [done|]. apply isDone_final_slots in Hha. congruence. }
        destruct HI as [HI|HI].
        + rewrite (full_isDone_slots _ _ E) in Hnd. congruence.
        + unfold terminal_slots, unset. rewrite E, HI. repeat constructor.
      - destruct Hsl1 as [E|E].
        + destruct HI as [HI|HI]; [left; by rewrite (full_isDone_slots _ _ E)|].
          right. congruence.
        + left. by eapply isDone_final_slots. }
    assert (Hdv1 : isDone (req w) = true →
              Forall (fun v => isDone v.1 = true) (views tr1)).
    { intros Hd. eapply Forall_impl; [exact Hv1|]. intros [h a] Hha.
      cbn [fst snd] in *. destruct a.
      - by rewrite (full_isDone_slots _ _ Hha).
      - by eapply isDone_final_slots. }
    destruct r1 as [w1|e w1].
    + destruct (IH w1 r Hr)
        as (tr & Htr & Hinv & Hdone & Hst & Hw & Hrb & Hd & Hdle & Hck & Hk).
      cbn [world_of returned] in *.
      exists (tr1 ++ tr). read_trace.
      split_and!.
      * by rewrite Htr, Htr1, <- app_assoc.
      * intros HI. destruct (Hinv1 HI) as [? HI1]. destruct (Hinv HI1).
        split; [by apply Forall_app|done].
      * intros HD. destruct (Hdone (Hdone1 HD)).
        split; [done|]. apply Forall_app. auto.
      * intros i. read_trace. rewrite length_app.
        specialize (Hst1 i). specialize (Hst i). lia.
      * by rewrite omap_app, Hw1, Hw.
      * congruence.
      * intros Hret. rewrite Hd1, (Hd Hret). done.
      * rewrite Hd1. lia.
      * lia.
      * intros HK. specialize (Hk1 HK). specialize (Hk HK). lia.
    + injection Hr as <-. cbn [world_of returned] in *.
      exists tr1.
      split_and!; [done|done|by auto| |done|done|done|lia|lia|done].
      intros i. specialize (Hst1 i). lia.
Qed.

(** Row events leave the cookie alive: the delivery is defined, and it
    returns unless a report dies. *)
Lemma full_dispatch_rows rs :
  Forall (fun r => is_final r = false) rs →
  ∀ w : world C, cookie_refcnt w ≠ 0%nat →
  ∃ r, dispatch C meth sig_warn rs w = Some r
    ∧ (returned r = true → cookie_refcnt (world_of r) ≠ 0%nat)
    ∧ (reports_return meth sig_warn → returned r = true).
Proof.
  induction 1 as [|ev rs Hev Hrs IH]; intros w Hlive.
  - exists (Ret w). done.
  - destruct (full_callback_step ev w Hlive)
      as (r1 & tr1 & Hr1 & _ & _ & _ & _ & _ & _ & Hd1 & Hck1 & _ & Hb1 & _).
    cbn [dispatch]. rewrite Hr1.
    rewrite (full_finals_none ev Hev) in Hd1.
    destruct r1 as [w1|e w1]; cbn [world_of returned] in *.
    + destruct (IH w1) as (r & Hr & Hl & Hb); [lia|]. by exists r.
    + eexists; split; [done|]. split; [done|]. exact Hb1.
Qed.

Lemma full_dispatch_query rs f :
  Forall (fun r => is_final r = false) rs →
  is_final f = true →
  ∀ w : world C, cookie_refcnt w ≠ 0%nat →
  ∃ r, dispatch C meth sig_warn (rs ++ [f]) w = Some r
    ∧ (reports_return meth sig_warn → returned r = true).
Proof.
  intros Hrs Hf w Hlive.
  destruct (full_dispatch_rows rs Hrs w Hlive) as (r1 & Hr1 & Hl1 & Hb1).
  rewrite full_dispatch_app, Hr1.
  destruct r1 as [w1|e w1]; cbn [world_of returned] in *.
  - destruct (full_callback_step f w1 (Hl1 eq_refl))
      as (r & tr & Hr & _ & _ & _ & _ & _ & _ & _ & _ & _ & Hb & _).
    cbn [dispatch]. rewrite Hr. exists r. split; [by destruct r|done].
  - eexists; split; [done|]. exact Hb1.
Qed.

Lemma finals_cons_app rs f : finals (rs ++ [f]) = (finals rs + finals [f])%nat.
Proof. unfold finals. by rewrite filter_app, length_app. Qed.

Lemma full_finals_rows rs :
  Forall (fun r => is_final r = false) rs → finals rs = 0%nat.
Proof.
  induction 1 as [|ev rs Hev Hrs IH]; [done|].
  by rewrite (finals_cons ev rs), (full_finals_none ev Hev), IH.
Qed.

(** Row events, as far as the delivery goes: nothing is stored, the
    cookie is not dropped, and every call is data-bearing, on a handle
    whose slots are those the run started with. *)
Lemma full_dispatch_rows_run rs :
  Forall (fun r => is_final r = false) rs →
  ∀ (w : world C) r, dispatch C meth sig_warn rs w = Some r →
  ∃ tr, trace (world_of r) = trace w ++ tr
    ∧ slots (req (world_of r)) = slots (req w)
    ∧ Forall (fun v => is_Some v.2 ∧ slots v.1 = slots (req w)) (views tr)
    ∧ (∀ i, stores_to i tr = [])
    ∧ drops tr = 0%nat
    ∧ (cookie_refcnt w ≤ cookie_refcnt (world_of r))%nat.
Proof.
  induction 1 as [|ev rs Hev Hrs IH]; intros w r Hr.
  - injection Hr as <-. exists []. rewrite app_nil_r. split_and!; done.
  - cbn [dispatch] in Hr.
    destruct (decide (cookie_refcnt w = 0%nat)) as [H0|Hlive].
    { apply (full_callback_freed ev) in H0. by rewrite H0 in Hr. }
    destruct (full_callback_step ev w Hlive)
      as (r1 & tr1 & Hr1 & Htr1 & Hv1 & Hst1 & _ & _ & _ & Hd1 & Hck1 & _ & _ & Hrow).
    destruct (Hrow Hev) as [Hsl1 Hsome].
    rewrite Hr1 in Hr. rewrite (full_finals_none ev Hev) in Hst1, Hd1.
    assert (Hd0 : drops tr1 = 0%nat) by (by destruct (returned r1)).
    assert (Hs1 : ∀ i, stores_to i tr1 = []).
    { intros i. specialize (Hst1 i). destruct (stores_to i tr1); [done|cbn in *; lia]. }
    assert (Hvs : Forall (fun v => is_Some v.2 ∧ slots v.1 = slots (req w)) (views tr1)).
    { pose proof (conj Hsome Hv1) as Hboth. apply Forall_and in Hboth.
      eapply Forall_impl; [exact Hboth|].
      intros [h [a|]] [[? ?] Hh]; [done|done]. }
    destruct r1 as [w1|e w1]; cbn [world_of] in *.
    + destruct (IH w1 r Hr) as (tr & Htr & Hsl & Hv & Hst & Hd & Hck).
      exists (tr1 ++ tr). read_trace. rewrite Hd0, Hd.
      split_and!; try done.
      * by rewrite Htr, Htr1, <- app_assoc.
      * congruence.
      * apply Forall_app. split; [done|].
        eapply Forall_impl; [exact Hv|]. intros v [? ?]. split; [done|congruence].
      * intros i. read_trace. by rewrite Hs1, Hst.
      * lia.
    + injection Hr as <-. cbn [world_of]. exists tr1.
      split_and!; try done. lia.
Qed.

(** A whole query, as far as the delivery goes: the data-bearing calls
    are on a handle whose slots are those the run started with, the
    call without rows on the handle with the terminal slots stored. *)
Lemma full_dispatch_query_run rs f :
  Forall (fun r => is_final r = false) rs →
  is_final f = true →
  ∀ (w : world C) r, dispatch C meth sig_warn (rs ++ [f]) w = Some r →
  ∃ tr, trace (world_of r) = trace w ++ tr
    ∧ Forall (fun v => match v.2 with
                       | Some _ => slots v.1 = slots (req w)
                       | None => slots v.1 = final_slots f (slots (req w))
                       end) (views tr)
    ∧ (returned r = true →
       slots (req (world_of r)) = final_slots f (slots (req w))
       ∧ rawrows (req (world_of r)) = []
       ∧ ∃ tr', tr = tr' ++ [ECookieDec] ∧ drops tr' = 0%nat)
    ∧ (returned r = false → drops tr = 0%nat
       ∧ (cookie_refcnt w ≤ cookie_refcnt (world_of r))%nat).
Proof.
  intros Hrs Hf w r Hr. rewrite full_dispatch_app in Hr.
  destruct (dispatch C meth sig_warn rs w) as [r1|] eqn:Hr1; [|done].
  destruct (full_dispatch_rows_run rs Hrs w r1 Hr1)
    as (tr1 & Htr1 & Hsl1 & Hv1 & Hst1 & Hd1 & Hck1).
  assert (Hv1' : Forall (fun v => match v.2 with
                       | Some _ => slots v.1 = slots (req w)
                       | None => slots v.1 = final_slots f (slots (req w))
                       end) (views tr1)).
  { eapply Forall_impl; [exact Hv1|]. by intros [h [a|]] [[? ?] ?]. }
  destruct r1 as [w1|e w1]; cbn [world_of] in *.
  - cbn [dispatch] in Hr.
    destruct (decide (cookie_refcnt w1 = 0%nat)) as [H0|Hlive].
    { apply (full_callback_freed f) in H0. by rewrite H0 in Hr. }
    destruct (full_callback_final f w1 Hf Hlive) as (r2 & Hr2 & Hcase).
    rewrite Hr2 in Hr. assert (r = r2) as -> by (by destruct r2; injection Hr).
    clear Hr. cbv zeta in Hcase.
    set (m1 := meth (consumer w1) (req w1) (Some (rawrows (req w1)))) in *.
    set (h2 := {| slots := final_slots f (slots (req w1));
                  rowbuf := rowbuf (req w1); rawrows := [] |}) in *.
    set (m2 := meth (report_state sig_warn m1.1.1 m1.1.2) h2 None) in *.
    destruct (report_dies sig_warn m1.1.1 m1.1.2) as [d1|];
      [destruct Hcase as (Hrr & Htr & Hreq & Hc & Hck)
      |destruct Hcase as (Hreq & Hc & Hcase);
       destruct (report_dies sig_warn m2.1.1 m2.1.2) as [d2|];
       destruct Hcase as (Hrr & Htr & Hck)].
    all: rewrite Hrr; cbn [returned world_of]; rewrite Hrr in Hreq, Hck, Htr;
      cbn [world_of] in Hreq, Hck, Htr.
    all: eexists; (split; [rewrite Htr, Htr1, <- app_assoc; reflexivity|]).
    all: read_trace; rewrite ?Hd1.
    all: split_and!; try done.
    all: try (apply Forall_app; split; [done|];
       repeat (apply Forall_cons; split;
               [unfold h2; cbn [fst snd slots]; rewrite ?Hsl1; done|]);
       by apply Forall_nil).
    + intros _. split; [done|lia].
    + intros _. split; [done|lia].
    + intros _. rewrite Hreq. cbn. rewrite Hsl1. split_and!; [done|done|].
      exists (tr1 ++ EWaitUnref :: ECall (req w1) (Some (rawrows (req w1))) m1.1.2
                :: report_effects m1.1.2 ++ EClear RefRawrows :: final_stores f
                ++ ECall h2 None m2.1.2 :: report_effects m2.1.2).
      split.
      * by rewrite <- (app_assoc tr1).
      * read_trace. by rewrite Hd1.
  - injection Hr as <-. cbn [returned world_of].
    exists tr1. split_and!; try done.
Qed.

Lemma full_calls_final_ret f (w w' : world C) :
  is_final f = true →
  viewrow_callback C meth sig_warn f w = Some (Ret w') →
  calls (trace w') = calls (trace w) ++ [Some (rawrows (req w)); None].
Proof.
  intros Hf Hw'.
  destruct (decide (cookie_refcnt w = 0%nat)) as [H0|Hlive].
  { apply (full_callback_freed f) in H0. by rewrite H0 in Hw'. }
  destruct (full_callback_final f w Hf Hlive) as (r & Hr & Hcase).
  rewrite Hw' in Hr. injection Hr as <-. cbv zeta in Hcase. cbn [world_of] in Hcase.
  destruct (report_dies _ _ _) as [d1|]; [by destruct Hcase|].
  destruct Hcase as (_ & _ & Hcase).
  destruct (report_dies _ _ _) as [d2|]; [by destruct Hcase|].
  destruct Hcase as (_ & Htr & _).
  rewrite Htr. unfold calls. read_trace. rewrite fmap_app. cbn. done.
Qed.


Lemma full_unset_empty h :
  slots h = ∅ → isDone h = false ∧ Forall (fun i => unset i h) terminal_slots.
Proof.
  intros Hh. unfold isDone, unset, terminal_slots. rewrite Hh.
  split; [done|]. by repeat constructor.
Qed.

(** C8. A new handle is not done and its terminal slots (result code,
    metadata, HTTP status) are unset. While row events are delivered
    nothing is stored, and at every call the consumer is shown a handle
    that is not done, with the terminal slots unset. Over a whole query
    the same holds of every data-bearing call, the one of the final
    event included; the call without rows shows a handle that is done;
    and no slot is stored more than once. In any delivery from the
    initial state, a handle shown or left not done has its terminal
    slots unset; in any delivery from any state, a handle that is done
    is shown and left done. *)
Theorem C8_terminal_fields_write_once rs f (c0 : C) :
  Forall (fun r => is_final r = false) rs →
  is_final f = true →
  (isDone rowreq_init_common = false
   ∧ Forall (fun i => unset i rowreq_init_common) terminal_slots)
  ∧ (∃ r, dispatch C meth sig_warn rs (world_init c0) = Some r
       ∧ isDone (req (world_of r)) = false
       ∧ Forall (fun i => unset i (req (world_of r))) terminal_slots
       ∧ (∀ i, stores_to i (trace (world_of r)) = [])
       ∧ Forall (fun v => isDone v.1 = false
                          ∧ Forall (fun i => unset i v.1) terminal_slots)
           (views (trace (world_of r))))
  ∧ (∃ r, dispatch C meth sig_warn (rs ++ [f]) (world_init c0) = Some r
       ∧ Forall (fun v => match v.2 with
                          | Some _ => isDone v.1 = false
                                      ∧ Forall (fun i => unset i v.1) terminal_slots
                          | None => isDone v.1 = true
                          end) (views (trace (world_of r)))
       ∧ (∀ i, length (stores_to i (trace (world_of r))) ≤ 1)%nat
       ∧ (returned r = true → isDone (req (world_of r)) = true)
       ∧ (reports_return meth sig_warn → returned r = true))
  ∧ (∀ evs r, dispatch C meth sig_warn evs (world_init c0) = Some r →
       Forall view_ok (views (trace (world_of r)))
       ∧ (isDone (req (world_of r)) = false →
          Forall (fun i => unset i (req (world_of r))) terminal_slots)
       ∧ ∀ i, (length (stores_to i (trace (world_of r))) ≤ finals evs)%nat)
  ∧ (∀ evs (w : world C) r, dispatch C meth sig_warn evs w = Some r →
       isDone (req w) = true →
       isDone (req (world_of r)) = true
       ∧ ∃ tr, trace (world_of r) = trace w ++ tr
           ∧ Forall (fun v => isDone v.1 = true) (views tr)).
Proof.
  intros Hrs Hf. split_and!.
  - by apply full_unset_empty.
  - by apply full_unset_empty.
  - destruct (full_dispatch_rows rs Hrs (world_init c0)) as (r & Hr & _); [done|].
    destruct (full_dispatch_rows_run rs Hrs _ _ Hr)
      as (tr & Htr & Hsl & Hv & Hst & _).
    cbn [world_init trace req app rowreq_init_common slots] in Htr, Hsl, Hv.
    exists r. rewrite Htr.
    destruct (full_unset_empty _ Hsl). split_and!; try done.
    eapply Forall_impl; [exact Hv|]. intros v [_ Hs]. by apply full_unset_empty.
  - destruct (full_dispatch_query rs f Hrs Hf (world_init c0)) as (r & Hr & Hret);
      [done|].
    destruct (full_dispatch_query_run rs f Hrs Hf _ _ Hr) as (tr & Htr & Hv & Hdone & _).
    destruct (full_dispatch_run _ _ _ Hr) as (tr' & Htr' & _ & _ & Hst & _).
    cbn [world_init trace req app rowreq_init_common slots] in Htr, Hv, Hdone, Htr'.
    exists r. rewrite Htr. split_and!; [done| | | |done].
    + eapply Forall_impl; [exact Hv|]. intros [h [a|]] Hh; cbn [fst snd] in *.
      * by apply full_unset_empty.
      * by eapply isDone_final_slots.
    + intros i. rewrite <- Htr, Htr'. specialize (Hst i).
      rewrite (finals_cons_app rs f), (full_finals_rows rs Hrs), (full_finals_one f Hf) in Hst.
      exact Hst.
    + intros Hr'. destruct (Hdone Hr') as (Hsl & _). by eapply isDone_final_slots.
  - intros evs r Hr.
    destruct (full_dispatch_run _ _ _ Hr) as (tr & Htr & Hinv & _ & Hst & _).
    cbn [world_init trace req app rowreq_init_common slots] in Htr, Hinv.
    destruct Hinv as [Hv HI]; [by right|]. rewrite Htr.
    split_and!; [done| |done].
    intros Hnd. destruct HI as [HI|HI]; [congruence|]. by apply full_unset_empty.
  - intros evs w r Hr Hd.
    destruct (full_dispatch_run _ _ _ Hr) as (tr & Htr & _ & Hdone & _).
    destruct (Hdone Hd). split; [done|]. by exists tr.
Qed.

(** C9 (amended). The dispatcher keeps no record of the handle being
    completed and never reads the done flag. Given what the engine
    promises, row events followed by one final event, the consumer is
    invoked without rows exactly once, at the very end. The final event
    drops the engine's reference to the cookie: if the consumer kept
    none, the cookie is freed, and the dispatcher has no defined
    behaviour on any event that arrives afterwards. As long as the
    cookie is referenced, every final event runs the terminal path,
    whether the handle is done or not: a delivery that returns has made
    as many calls without rows as it had final events. *)
Theorem C9_none_once_per_final_event rs f (c0 : C) :
  Forall (fun r => is_final r = false) rs →
  is_final f = true →
  (reports_return meth sig_warn →
     ∃ w', dispatch C meth sig_warn (rs ++ [f]) (world_init c0) = Some (Ret w')
       ∧ none_count (trace w') = 1%nat
       ∧ last (calls (trace w')) = Some None
       ∧ (keeps_nothing meth →
          cookie_refcnt w' = 0%nat
          ∧ ∀ ev evs, dispatch C meth sig_warn (ev :: evs) w' = None))
  ∧ (∀ ev (w : world C), cookie_refcnt w = 0%nat →
       viewrow_callback C meth sig_warn ev w = None)
  ∧ (∀ evs (w w' : world C),
       dispatch C meth sig_warn evs w = Some (Ret w') →
       none_count (trace w') = (none_count (trace w) + finals evs)%nat)
  ∧ (reports_return meth sig_warn →
     ∀ w : world C, isDone (req w) = true → cookie_refcnt w ≠ 0%nat →
       ∃ w', viewrow_callback C meth sig_warn f w = Some (Ret w')
         ∧ calls (trace w')
           = calls (trace w) ++ [Some (rawrows (req w)); None]).
Proof.
  intros Hrs Hf. split_and!.
  - intros Hb.
    destruct (full_dispatch_query rs f Hrs Hf (world_init c0)) as (r & Hr & Hret);
      [done|].
    specialize (Hret Hb). destruct r as [w'|]; [|done].
    destruct (erase_query meth sig_warn rs f c0 w' Hrs Hf Hr)
      as (_ & Hlast & Hnone & _).
    exists w'. split_and!; try done.
    intros Hk.
    destruct (full_dispatch_run _ _ _ Hr)
      as (tr & _ & _ & _ & _ & _ & _ & Hd & _ & _ & Hck).
    specialize (Hd eq_refl). specialize (Hck Hk).
    rewrite (finals_cons_app rs f), (full_finals_rows rs Hrs),
      (full_finals_one f Hf) in Hd.
    cbn [world_of world_init cookie_refcnt] in Hck.
    assert (H0 : cookie_refcnt w' = 0%nat) by lia.
    split; [done|]. intros ev evs. cbn [dispatch].
    by rewrite (proj2 (full_callback_freed ev w') H0).
  - intros ev w H0. by apply full_callback_freed.
  - intros evs w w'. apply erase_none_count.
  - intros Hb w _ Hlive.
    destruct (full_callback_step f w Hlive)
      as (r & tr & Hr & _ & _ & _ & _ & _ & _ & _ & _ & _ & Hret & _).
    specialize (Hret Hb). destruct r as [w'|]; [|done].
    exists w'. split; [done|]. by apply (full_calls_final_ret f).
Qed.

(** X2. The final event on a live cookie, step by step. The consumer
    is first handed the handle as it stood, terminal slots untouched,
    with the accumulator as batch. If the report of that call dies, the
    event ends there: the accumulator is not emptied, nothing is
    stored, there is no call without rows and the cookie keeps its
    reference. Otherwise the accumulator is emptied, the terminal slots
    are stored, and the consumer is handed the handle so updated and no
    rows; the reference of the cookie is dropped last, unless the
    report of this second call dies. *)
Theorem final_event_order f (w : world C) :
  is_final f = true →
  cookie_refcnt w ≠ 0%nat →
  let h1 := req w in
  let m1 := meth (consumer w) h1 (Some (rawrows h1)) in
  let h2 := {| slots := final_slots f (slots h1);
               rowbuf := rowbuf h1; rawrows := [] |} in
  let m2 := meth (report_state sig_warn m1.1.1 m1.1.2) h2 None in
  let tr1 := [EWaitUnref; ECall h1 (Some (rawrows h1)) m1.1.2]
               ++ report_effects m1.1.2 in
  let tr2 := tr1 ++ [EClear RefRawrows] ++ final_stores f
               ++ [ECall h2 None m2.1.2] ++ report_effects m2.1.2 in
  ∃ w', world_of <$> viewrow_callback C meth sig_warn f w = Some w'
    ∧ match report_dies sig_warn m1.1.1 m1.1.2,
            report_dies sig_warn m2.1.1 m2.1.2 with
      | Some d, _ =>
          viewrow_callback C meth sig_warn f w = Some (Unwound d w')
          ∧ req w' = h1
          ∧ trace w' = trace w ++ tr1
          ∧ cookie_refcnt w' = (cookie_refcnt w + m1.2)%nat
      | None, Some d =>
          viewrow_callback C meth sig_warn f w = Some (Unwound d w')
          ∧ req w' = h2
          ∧ trace w' = trace w ++ tr2
          ∧ cookie_refcnt w' = (cookie_refcnt w + m1.2 + m2.2)%nat
      | None, None =>
          viewrow_callback C meth sig_warn f w = Some (Ret w')
          ∧ req w' = h2
          ∧ trace w' = trace w ++ tr2 ++ [ECookieDec]
          ∧ cookie_refcnt w' = (cookie_refcnt w + m1.2 + m2.2 - 1)%nat
      end.
Proof.
  intros Hf Hlive h1 m1 h2 m2 tr1 tr2.
  destruct (full_callback_final f w Hf Hlive) as (r & Hr & Hcase).
  cbv zeta in Hcase. fold h1 m1 h2 m2 in Hcase.
  exists (world_of r). rewrite Hr. split; [done|].
  destruct (report_dies sig_warn m1.1.1 m1.1.2) as [d1|];
    [destruct Hcase as (Hrr & Htr & Hreq & Hc & Hck)
    |destruct Hcase as (Hreq & Hc & Hcase);
     destruct (report_dies sig_warn m2.1.1 m2.1.2) as [d2|];
     destruct Hcase as (Hrr & Htr & Hck)].
  all: split_and!; [congruence|done| |done].
  all: rewrite Htr; unfold tr2, tr1; cbn [app]; rewrite <- ?app_assoc; cbn [app];
    by rewrite <- ?app_assoc.
Qed.

(** X3. A row event that finds twenty rows or more in the accumulator
    of a live cookie: the consumer is handed the handle with the new
    row appended and, as batch, that very accumulator. After the call
    the accumulator is empty, whether the consumer returned or died,
    unless the report of its error dies: then the batch stays in the
    accumulator. *)
Theorem threshold_flush resp (w : world C) :
  is_final resp = false →
  cookie_refcnt w ≠ 0%nat →
  (20 ≤ length (rawrows (req w)))%nat →
  let h := {| slots := slots (req w); rowbuf := rowbuf (req w);
              rawrows := rawrows (req w) ++ [rowdata_of resp] |} in
  let m := meth (consumer w) h (Some (rawrows h)) in
  let tr := [EWaitUnref; ECall h (Some (rawrows h)) m.1.2]
              ++ report_effects m.1.2 in
  ∃ w', world_of <$> viewrow_callback C meth sig_warn resp w = Some w'
    ∧ consumer w' = report_state sig_warn m.1.1 m.1.2
    ∧ cookie_refcnt w' = (cookie_refcnt w + m.2)%nat
    ∧ match report_dies sig_warn m.1.1 m.1.2 with
      | None =>
          viewrow_callback C meth sig_warn resp w = Some (Ret w')
          ∧ req w' = {| slots := slots (req w); rowbuf := rowbuf (req w);
                        rawrows := [] |}
          ∧ trace w' = trace w ++ tr ++ [EClear RefRawrows]
      | Some d =>
          viewrow_callback C meth sig_warn resp w = Some (Unwound d w')
          ∧ req w' = h
          ∧ trace w' = trace w ++ tr
      end.
Proof.
  intros Hrow Hlive Hlen h m tr.
  destruct (full_callback_row resp w Hrow Hlive) as (r & Hr & Hcase).
  cbv zeta in Hcase. fold h in Hcase. fold m in Hcase.
  rewrite decide_True in Hcase by (cbn; rewrite length_app; cbn; lia).
  destruct Hcase as (Hrr & Htr & Hreq & Hc & Hck).
  exists (world_of r). rewrite Hr. split; [done|]. split; [done|]. split; [done|].
  destruct (report_dies sig_warn m.1.1 m.1.2) as [d|];
    rewrite Hrr in Htr, Hreq; cbn [returned world_of] in Htr, Hreq.
  - split_and!; [congruence|done|].
    rewrite Htr. unfold tr. cbn [app]. by rewrite app_nil_r.
  - split_and!; [congruence|done|].
    rewrite Htr. unfold tr. cbn [app]. done.
Qed.

(** X4. A delivery that returns, from a state whose accumulator holds
    at most twenty rows, as the initial one does, leaves at most twenty
    rows in the accumulator, and has handed the consumer no batch of
    more than twenty-one rows. When no report dies, the delivery of a
    whole query returns, and leaves the accumulator empty. *)
Theorem accumulator_bounded rs f (c0 : C) :
  Forall (fun r => is_final r = false) rs →
  is_final f = true →
  (∀ evs (w w' : world C) tr,
     (length (rawrows (req w)) ≤ 20)%nat →
     dispatch C meth sig_warn evs w = Some (Ret w') →
     trace w' = trace w ++ tr →
     (length (rawrows (req w')) ≤ 20)%nat
     ∧ Forall (fun b => (length b ≤ 21)%nat) (batches tr))
  ∧ (reports_return meth sig_warn →
     ∃ w', dispatch C meth sig_warn (rs ++ [f]) (world_init c0) = Some (Ret w')
       ∧ rawrows (req w') = []
       ∧ Forall (fun b => (length b ≤ 21)%nat) (batches (trace w'))).
Proof.
  intros Hrs Hf. split.
  - intros evs w w' tr Hlen Hr Htr. by eapply erase_bounds.
  - intros Hb.
    destruct (full_dispatch_query rs f Hrs Hf (world_init c0)) as (r & Hr & Hret);
      [done|].
    specialize (Hret Hb). destruct r as [w'|]; [|done].
    destruct (full_dispatch_query_run rs f Hrs Hf _ _ Hr) as (tr & Htr & _ & Hdone & _).
    destruct (Hdone eq_refl) as (_ & Hrr & _).
    cbn [world_of world_init trace app] in Htr, Hrr.
    exists w'. split_and!; [done|done|].
    eapply (erase_bounds meth sig_warn _ _ _ (trace w') Hr); [done|cbn; lia].
Qed.

(** X6. The reference the engine holds through the cookie is dropped
    by final events and by nothing else. In any delivery from the
    initial state there are no more drops than final events, and with
    a consumer that keeps no reference the count of the cookie is one
    less the drops. While rows arrive there is no drop. When no report
    dies, a whole query ends with the one drop, as its last effect, and
    with a consumer that keeps no reference the cookie is then freed.
    When a report dies in the course of a query, the reference is
    never dropped. *)
Theorem cookie_dropped_last rs f (c0 : C) :
  Forall (fun r => is_final r = false) rs →
  is_final f = true →
  (∀ evs r, dispatch C meth sig_warn evs (world_init c0) = Some r →
     (drops (trace (world_of r)) ≤ finals evs)%nat
     ∧ (1 ≤ cookie_refcnt (world_of r) + drops (trace (world_of r)))%nat
     ∧ (keeps_nothing meth →
        (cookie_refcnt (world_of r) + drops (trace (world_of r)))%nat = 1%nat))
  ∧ (∃ r, dispatch C meth sig_warn rs (world_init c0) = Some r
       ∧ drops (trace (world_of r)) = 0%nat
       ∧ (1 ≤ cookie_refcnt (world_of r))%nat)
  ∧ (∃ r, dispatch C meth sig_warn (rs ++ [f]) (world_init c0) = Some r
       ∧ (reports_return meth sig_warn → returned r = true)
       ∧ (returned r = true →
          (∃ tr, trace (world_of r) = tr ++ [ECookieDec] ∧ drops tr = 0%nat)
          ∧ (keeps_nothing meth → cookie_refcnt (world_of r) = 0%nat))
       ∧ (returned r = false →
          drops (trace (world_of r)) = 0%nat
          ∧ (1 ≤ cookie_refcnt (world_of r))%nat)).
Proof.
  intros Hrs Hf. split_and!.
  - intros evs r Hr.
    destruct (full_dispatch_run _ _ _ Hr)
      as (tr & Htr & _ & _ & _ & _ & _ & _ & Hd & Hck & Hk).
    cbn [world_init trace app cookie_refcnt] in Htr, Hck, Hk. rewrite Htr.
    split_and!; done.
  - destruct (full_dispatch_rows rs Hrs (world_init c0)) as (r & Hr & _); [done|].
    destruct (full_dispatch_rows_run rs Hrs _ _ Hr)
      as (tr & Htr & _ & _ & _ & Hd & Hck).
    cbn [world_init trace app cookie_refcnt] in Htr, Hck.
    exists r. rewrite Htr. done.
  - destruct (full_dispatch_query rs f Hrs Hf (world_init c0)) as (r & Hr & Hret);
      [done|].
    destruct (full_dispatch_query_run rs f Hrs Hf _ _ Hr)
      as (tr & Htr & _ & Hdone & Hun).
    destruct (full_dispatch_run _ _ _ Hr)
      as (tr' & Htr' & _ & _ & _ & _ & _ & Hd & _ & _ & Hk).
    cbn [world_init trace app cookie_refcnt] in Htr, Htr', Hun, Hk.
    exists r. rewrite Htr. split_and!; [done|done| |done].
    intros Hr'. destruct (Hdone Hr') as (_ & _ & tr0 & -> & Hd0).
    split; [by exists tr0|].
    intros HK. specialize (Hk HK). specialize (Hd Hr').
    rewrite (finals_cons_app rs f), (full_finals_rows rs Hrs),
      (full_finals_one f Hf) in Hd.
    lia.
Qed.

End Facts.
End FullFacts.

(** ** Release of reference-counted values *)

Module MemFacts.
Import Mem.

Lemma release_mono n : ∀ m pending h h',
  release n pending h = Some h' → (n ≤ m)%nat → release m pending h = Some h'.
Proof.
  induction n as [|n IH]; intros m pending h h' Hrel Hle.
  - destruct pending; [|done]. destruct m; exact Hrel.
  - destruct pending as [|l pending]; [by destruct m|].
    destruct m as [|m]; [lia|]. cbn [release] in *.
    destruct (h !! l) as [c|]; [case_decide|]; (apply IH; [done|lia]).
Qed.

Lemma weight_delete (h : heap) l c :
  h !! l = Some c →
  weight h = (S (length (children (contents c))) + weight (delete l h))%nat.
Proof.
  intros Hl. unfold weight.
  rewrite (map_fold_delete_L _ _ l c h); [done| |done].
  intros. lia.
Qed.

Lemma weight_insert (h : heap) l c :
  h !! l = None →
  weight (<[l := c]> h) = (S (length (children (contents c))) + weight h)%nat.
Proof.
  intros Hl. unfold weight.
  rewrite map_fold_insert_L; [done| |done].
  intros. lia.
Qed.

Lemma weight_update (h : heap) l c c' :
  h !! l = Some c →
  children (contents c') = children (contents c) →
  weight (<[l := c']> h) = weight h.
Proof.
  intros Hl Hch. rewrite <- insert_delete_eq.
  rewrite weight_insert by apply lookup_delete_eq.
  by rewrite (weight_delete h l c), Hch.
Qed.

(** Every pending drop either frees a value, which takes its weight
    off the store, or leaves the pending list shorter: the drops come to
    an end within [weight h + length pending] steps. *)
Lemma release_total n : ∀ pending h,
  (weight h + length pending ≤ n)%nat → is_Some (release n pending h).
Proof.
  induction n as [|n IH]; intros pending h Hn.
  - destruct pending; [by eexists|]. cbn in Hn. lia.
  - destruct pending as [|l pending]; [by eexists|].
    cbn [release]. cbn [length] in Hn.
    destruct (h !! l) as [c|] eqn:Hl; [case_decide|].
    + apply IH. rewrite length_app.
      pose proof (weight_delete h l c Hl). lia.
    + apply IH. rewrite (weight_update h l c); [lia|done|done].
    + apply IH. lia.
Qed.

(** A run of [release] that ends tells what [SvREFCNT_dec] returns. *)
Lemma SvREFCNT_dec_release n l h h' :
  release n [l] h = Some h' → SvREFCNT_dec l h = h'.
Proof.
  intros Hrel. unfold SvREFCNT_dec.
  destruct (release_total (S (weight h)) [l] h) as [h'' Hh'']; [cbn; lia|].
  rewrite Hh''. cbn.
  pose proof (release_mono _ (n + S (weight h)) _ _ _ Hrel) as H1.
  pose proof (release_mono _ (n + S (weight h)) _ _ _ Hh'') as H2.
  rewrite H1 in H2 by lia. injection H2 as <-; [done|lia].
Qed.

Lemma release_free n l pending (h : heap) c :
  h !! l = Some c → (refcnt c ≤ 1)%nat →
  release (S n) (l :: pending) h
  = release n (children (contents c) ++ pending) (delete l h).
Proof. intros Hl Hc. cbn [release]. rewrite Hl. by rewrite decide_True. Qed.

Lemma release_keep n l pending (h : heap) c :
  h !! l = Some c → (1 < refcnt c)%nat →
  release (S n) (l :: pending) h
  = release n pending
      (<[l := {| refcnt := Nat.pred (refcnt c); contents := contents c |}]> h).
Proof. intros Hl Hc. cbn [release]. rewrite Hl. rewrite decide_False; [done|lia]. Qed.

Lemma new_SV_fresh b (h : heap) :
  h !! (new_SV b h).1 = None
  ∧ (new_SV b h).2 = <[(new_SV b h).1 := {| refcnt := 1; contents := b |}]> h.
Proof.
  unfold new_SV. cbn. split; [|done].
  apply not_elem_of_dom, is_fresh.
Qed.

Lemma av_fill_at (h : heap) av n elems st fill :
  h !! av = Some {| refcnt := n; contents := AV elems st |} →
  av_fill av fill h
  = <[av := {| refcnt := n; contents := AV (resize (S fill) None elems) st |}]> h.
Proof. intros Hav. unfold av_fill. by rewrite Hav. Qed.

Lemma av_store_at (h : heap) av n elems st i val :
  h !! av = Some {| refcnt := n; contents := AV elems st |} →
  elems !! i = Some None →
  av_store av i val h
  = <[av := {| refcnt := n; contents := AV (<[i := Some val]> elems) st |}]> h.
Proof.
  intros Hav Hi. unfold av_store. rewrite Hav, Hi.
  apply lookup_lt_Some in Hi.
  rewrite Nat.max_r by lia. by rewrite resize_all.
Qed.

Lemma SvREFCNT_inc_at (h : heap) l c :
  h !! l = Some c →
  SvREFCNT_inc l h = <[l := {| refcnt := S (refcnt c); contents := contents c |}]> h.
Proof.
  intros Hl. unfold SvREFCNT_inc. apply map_eq. intros i.
  destruct (decide (i = l)) as [->|Hne].
  - by rewrite lookup_alter_eq, lookup_insert_eq, Hl.
  - by rewrite lookup_alter_ne, lookup_insert_ne.
Qed.

Lemma newSVsv_at (h : heap) old n t :
  h !! old = Some {| refcnt := n; contents := RV t |} →
  newSVsv old h = new_SV (RV t) (SvREFCNT_inc t h).
Proof. intros Hold. unfold newSVsv. by rewrite Hold. Qed.

Lemma sv_bless_at (h : heap) rv n t m elems st stash :
  h !! rv = Some {| refcnt := n; contents := RV t |} →
  h !! t = Some {| refcnt := m; contents := AV elems st |} →
  sv_bless rv stash h
  = <[t := {| refcnt := m; contents := AV elems (Some stash) |}]> h.
Proof.
  intros Hrv Ht. unfold sv_bless. rewrite Hrv. cbn.
  apply map_eq. intros i. destruct (decide (i = t)) as [->|Hne].
  - by rewrite lookup_alter_eq, lookup_insert_eq, Ht.
  - by rewrite lookup_alter_ne, lookup_insert_ne.
Qed.

(** Names the next value allocated in the goal and what is known of it. *)
Tactic Notation "alloc" ident(l) ident(Hl) :=
  match goal with
  | |- context [new_SV ?b ?hp] =>
      lazymatch hp with
      | context [new_SV _ _] => fail
      | _ => idtac
      end;
      let hn := fresh "hn" in let He := fresh "He" in let Eq := fresh "Eq" in
      destruct (new_SV_fresh b hp) as [Hl He];
      destruct (new_SV b hp) as [l hn] eqn:Eq; cbn [fst snd] in Hl, He;
      subst hn; clear Eq
  end.


(** Looks a key up through a chain of insertions and deletions at keys
    known to differ from it or to be it. *)
Ltac map_lookup :=
  repeat first
    [ rewrite lookup_insert_eq
    | rewrite lookup_delete_eq
    | rewrite lookup_insert_ne
        by (first [assumption | apply not_eq_sym; assumption])
    | rewrite lookup_delete_ne
        by (first [assumption | apply not_eq_sym; assumption]) ].

Section IssueFacts.
Variable lcb_view_query : nat → loc → lcb_CMDVIEWQUERY → Z.
Variable lcb_strerror : Z → string.

Lemma viewhandle_new_built parent ddoc view options flags (h : heap) c :
  h !! selfobj parent = Some c →
  ∃ k, NoDup (selfobj parent :: locs_of k)
    ∧ Forall (fun l => h !! l = None) (locs_of k)
    ∧ PLCB__viewhandle_new lcb_view_query lcb_strerror parent ddoc view options flags h
      = let H := handle_store parent c k h in
        let rc := lcb_view_query (instance parent) (l_cbrv k)
                    (initcmd ddoc view options flags) in
        if negb (rc =? LCB_SUCCESS) then
          (SvREFCNT_dec (l_cbrv k) (SvREFCNT_dec (l_blessed k) H),
           Croak {| fmt := "Couldn't issue view query: (0x%x): %s";
                    fmt_args := [ArgInt rc; ArgStr (lcb_strerror rc)] |})
        else (H, Ok (l_blessed k)).
Proof.
  intros Hp.
  unfold PLCB__viewhandle_new, rowreq_init_common, newAV, newRV_noinc, newRV_inc.
  assert (Hself : ∀ l, h !! l = None → l ≠ selfobj parent) by (intros l ? ->; congruence).
  alloc x_req Hreq.
  erewrite av_fill_at by apply lookup_insert_eq.
  alloc x_rowbuf Hrowbuf. repeat (apply lookup_insert_None in Hrowbuf as [Hrowbuf ?]).
  alloc x_rowbuf_rv Hrowbuf_rv. repeat (apply lookup_insert_None in Hrowbuf_rv as [Hrowbuf_rv ?]).
  erewrite av_store_at; [|map_lookup; reflexivity|done].
  alloc x_rawrows Hrawrows. repeat (apply lookup_insert_None in Hrawrows as [Hrawrows ?]).
  alloc x_rawrows_rv Hrawrows_rv. repeat (apply lookup_insert_None in Hrawrows_rv as [Hrawrows_rv ?]).
  erewrite av_store_at; [|map_lookup; reflexivity|done].
  pose proof (Hself _ Hreq). pose proof (Hself _ Hrowbuf). pose proof (Hself _ Hrowbuf_rv).
  pose proof (Hself _ Hrawrows). pose proof (Hself _ Hrawrows_rv).
  erewrite (SvREFCNT_inc_at _ (selfobj parent) c) by (by map_lookup).
  alloc x_parent_rv Hparent_rv. repeat (apply lookup_insert_None in Hparent_rv as [Hparent_rv ?]).
  erewrite av_store_at; [|map_lookup; reflexivity|done].
  alloc x_blessed Hblessed. repeat (apply lookup_insert_None in Hblessed as [Hblessed ?]).
  erewrite sv_bless_at; [|map_lookup; reflexivity|map_lookup; reflexivity].
  erewrite newSVsv_at by (map_lookup; reflexivity).
  erewrite (SvREFCNT_inc_at _ x_req) by (map_lookup; reflexivity).
  alloc x_cbrv Hcbrv. repeat (apply lookup_insert_None in Hcbrv as [Hcbrv ?]).
  pose proof (Hself _ Hparent_rv). pose proof (Hself _ Hblessed). pose proof (Hself _ Hcbrv).
  exists {| l_req := x_req; l_rowbuf := x_rowbuf; l_rowbuf_rv := x_rowbuf_rv;
            l_rawrows := x_rawrows; l_rawrows_rv := x_rawrows_rv;
            l_parent_rv := x_parent_rv; l_blessed := x_blessed; l_cbrv := x_cbrv |}.
  unfold locs_of, handle_store.
  cbn [l_req l_rowbuf l_rowbuf_rv l_rawrows l_rawrows_rv l_parent_rv l_blessed l_cbrv].
  split_and!.
  - repeat (apply NoDup_cons_2;
              [first [apply not_elem_of_nil
                     |rewrite !not_elem_of_cons; split_and!;
                      first [done | by apply not_eq_sym | apply not_elem_of_nil]]|]).
    apply NoDup_nil_2.
  - repeat constructor; done.
  - cbn zeta.
    match goal with
    | |- (if _ then (SvREFCNT_dec _ (SvREFCNT_dec _ ?H1), _) else _)
         = (if _ then (SvREFCNT_dec _ (SvREFCNT_dec _ ?H2), _) else _) =>
        replace H1 with H2
    end; [done|].
    apply map_eq. intros i.
    destruct (decide (i = selfobj parent)) as [->|]; [by map_lookup|].
    repeat match goal with
           | Hf : h !! ?l = None |- _ =>
               destruct (decide (i = l)) as [->|]; [by map_lookup|];
               revert Hf
           end.
    intros. by map_lookup.
Qed.

(** C7. When the engine rejects the submission, handle creation dies
    with the message carrying the engine's status and its description,
    and the store is as it was before the call: the handle, its arrays,
    the blessed reference and the cookie are all freed, and the parent
    is referred to as often as before. *)
Theorem C7_rejected_submission_releases_all parent ddoc view options flags (h : heap) c rc :
  h !! selfobj parent = Some c →
  (1 ≤ refcnt c)%nat →
  (∀ cookie, lcb_view_query (instance parent) cookie
               (initcmd ddoc view options flags) = rc) →
  rc ≠ LCB_SUCCESS →
  PLCB__viewhandle_new lcb_view_query lcb_strerror parent ddoc view options flags h
  = (h, Croak {| fmt := "Couldn't issue view query: (0x%x): %s";
                 fmt_args := [ArgInt rc; ArgStr (lcb_strerror rc)] |}).
Proof.
  intros Hp Hc Hrc Hne.
  destruct (viewhandle_new_built parent ddoc view options flags h c Hp)
    as (k & Hnd & Hfresh & ->).
  cbn zeta. rewrite Hrc.
  destruct (Z.eqb_spec rc LCB_SUCCESS) as [|_]; [done|]. cbn [negb].
  f_equal. unfold handle_store.
  destruct k as [l0 l1 l2 l3 l4 l5 l6 l7]. unfold locs_of in *. cbn [l_req l_rowbuf l_rowbuf_rv l_rawrows l_rawrows_rv l_parent_rv l_blessed l_cbrv] in *.
  repeat match goal with
         | H : Forall _ (_ :: _) |- _ => apply Forall_cons in H as [? H]
         end.
  repeat match goal with
         | H : NoDup (_ :: _) |- _ => apply NoDup_cons in H as [? H]
         end.
  repeat match goal with
         | H : _ ∉ _ :: _ |- _ => apply not_elem_of_cons in H as [? H]
         end.
  match goal with
  | |- SvREFCNT_dec l7 (SvREFCNT_dec l6 ?H) = _ =>
      etrans; [apply (f_equal (SvREFCNT_dec l7)), (SvREFCNT_dec_release 2)|]
  end.
  { erewrite release_free; [|map_lookup; reflexivity|clear -Hc; cbn; lia].
    cbn [children contents app].
    erewrite release_keep; [|map_lookup; reflexivity|clear -Hc; cbn; lia].
    reflexivity. }
  cbn [refcnt contents Nat.pred].
  etrans; [apply (SvREFCNT_dec_release 9)|].
  { do 7 (erewrite release_free; [|map_lookup; reflexivity|clear -Hc; cbn; lia];
          cbn [children contents app omap list_omap id]).
    erewrite release_keep; [|map_lookup; reflexivity|clear -Hc; cbn; lia].
    reflexivity. }
  cbn [refcnt contents Nat.pred].
  apply map_eq. intros i.
  destruct (decide (i = selfobj parent)) as [->|];
    [map_lookup; rewrite Hp; by destruct c|].
  repeat match goal with
         | Hf : h !! ?l = None |- _ =>
             destruct (decide (i = l)) as [->|]; [map_lookup; by rewrite Hf|];
             revert Hf
         end.
  intros. by map_lookup.
Qed.
(** In the store [PLCB__viewhandle_new] builds, the handle array has
    [PLCB_VHIDX_MAX + 1] elements, of which the callback, done, result
    code, metadata and HTTP status slots are NULL. *)
Lemma handle_store_slots parent c k (h : heap) :
  NoDup (selfobj parent :: locs_of k) →
  ∃ elems,
    contents <$> handle_store parent c k h !! l_req k
    = Some (AV elems (Some (view_stash parent)))
    ∧ length elems = S PLCB_VHIDX_MAX
    ∧ Forall (fun i => elems !! vhidx_to_nat i = Some None)
        [PLCB_VHIDX_PRIVCB; PLCB_VHIDX_ISDONE; PLCB_VHIDX_RC;
         PLCB_VHIDX_META; PLCB_VHIDX_HTCODE]
    ∧ elems !! vhidx_to_nat PLCB_VHIDX_ROWBUF = Some (Some (l_rowbuf_rv k))
    ∧ elems !! vhidx_to_nat PLCB_VHIDX_RAWROWS = Some (Some (l_rawrows_rv k))
    ∧ elems !! vhidx_to_nat PLCB_VHIDX_PARENT = Some (Some (l_parent_rv k)).
Proof.
  intros Hnd. destruct k as [l0 l1 l2 l3 l4 l5 l6 l7].
  unfold handle_store, locs_of in *.
  cbn [l_req l_rowbuf l_rowbuf_rv l_rawrows l_rawrows_rv l_parent_rv
       l_blessed l_cbrv] in *.
  repeat match goal with
         | H : NoDup (_ :: _) |- _ => apply NoDup_cons in H as [? H]
         end.
  repeat match goal with
         | H : _ ∉ _ :: _ |- _ => apply not_elem_of_cons in H as [? H]
         end.
  eexists. split.
  - map_lookup. reflexivity.
  - split_and!; try reflexivity. repeat constructor.
Qed.

(** The other branch, for comparison: when the engine accepts the
    submission the blessed reference is returned, and the store holds
    the handle, referred to by the blessed reference and by the
    cookie. *)
Lemma viewhandle_new_accepted parent ddoc view options flags (h : heap) c :
  h !! selfobj parent = Some c →
  (∀ cookie, lcb_view_query (instance parent) cookie
               (initcmd ddoc view options flags) = LCB_SUCCESS) →
  ∃ k h',
    PLCB__viewhandle_new lcb_view_query lcb_strerror parent ddoc view options flags h
    = (h', Ok (l_blessed k))
    ∧ h' !! l_blessed k = Some {| refcnt := 1; contents := RV (l_req k) |}
    ∧ h' !! l_cbrv k = Some {| refcnt := 1; contents := RV (l_req k) |}
    ∧ refcnt <$> h' !! l_req k = Some 2%nat
    ∧ h !! l_req k = None ∧ h !! l_blessed k = None ∧ h !! l_cbrv k = None.
Proof.
  intros Hp Hrc.
  destruct (viewhandle_new_built parent ddoc view options flags h c Hp)
    as (k & Hnd & Hfresh & ->).
  cbn zeta. rewrite Hrc. cbn [Z.eqb LCB_SUCCESS negb].
  exists k, (handle_store parent c k h). split; [done|].
  unfold handle_store. destruct k as [l0 l1 l2 l3 l4 l5 l6 l7].
  unfold locs_of in *.
  cbn [l_req l_rowbuf l_rowbuf_rv l_rawrows l_rawrows_rv l_parent_rv
       l_blessed l_cbrv] in *.
  repeat match goal with
         | H : Forall _ (_ :: _) |- _ => apply Forall_cons in H as [? H]
         end.
  repeat match goal with
         | H : NoDup (_ :: _) |- _ => apply NoDup_cons in H as [? H]
         end.
  repeat match goal with
         | H : _ ∉ _ :: _ |- _ => apply not_elem_of_cons in H as [? H]
         end.
  split_and!; try done.
  - rewrite lookup_insert_ne by done. apply lookup_insert_eq.
  - apply lookup_insert_eq.
  - do 2 (rewrite lookup_insert_ne by done). by rewrite lookup_insert_eq.
Qed.

End IssueFacts.

End MemFacts.

(** ** The store after an accepted submission *)

Module MemMore.
Import Mem MemFacts.

(** Names the eight locations of a handle and what is known of them. *)
Ltac split_locs k Hnd Hfresh :=
  destruct k as [l0 l1 l2 l3 l4 l5 l6 l7]; unfold locs_of in *;
  cbn [l_req l_rowbuf l_rowbuf_rv l_rawrows l_rawrows_rv l_parent_rv
       l_blessed l_cbrv] in *;
  repeat match goal with
         | H : Forall _ (_ :: _) |- _ => apply Forall_cons in H as [? H]
         end;
  repeat match goal with
         | H : NoDup (_ :: _) |- _ => apply NoDup_cons in H as [? H]
         end;
  repeat match goal with
         | H : _ ∉ _ :: _ |- _ => apply not_elem_of_cons in H as [? H]
         end.

Lemma handle_store_release parent c k (h : heap) :
  NoDup (selfobj parent :: locs_of k) →
  Forall (fun l => h !! l = None) (locs_of k) →
  h !! selfobj parent = Some c →
  (1 ≤ refcnt c)%nat →
  let H := handle_store parent c k h in
  SvREFCNT_dec (l_blessed k) H
  = <[l_req k := req_cell parent k 1]> (delete (l_blessed k) H)
  ∧ SvREFCNT_dec (l_cbrv k) H
    = <[l_req k := req_cell parent k 1]> (delete (l_cbrv k) H)
  ∧ SvREFCNT_dec (l_cbrv k) (SvREFCNT_dec (l_blessed k) H) = h
  ∧ SvREFCNT_dec (l_blessed k) (SvREFCNT_dec (l_cbrv k) H) = h.
Proof.
  intros Hnd Hfresh Hp Hc H. unfold H, handle_store, req_cell.
  split_locs k Hnd Hfresh.
  assert (E1 : SvREFCNT_dec l6 (handle_store parent c
                 {| l_req := l0; l_rowbuf := l1; l_rowbuf_rv := l2;
                    l_rawrows := l3; l_rawrows_rv := l4; l_parent_rv := l5;
                    l_blessed := l6; l_cbrv := l7 |} h)
               = <[l0 := req_cell parent
                     {| l_req := l0; l_rowbuf := l1; l_rowbuf_rv := l2;
                        l_rawrows := l3; l_rawrows_rv := l4; l_parent_rv := l5;
                        l_blessed := l6; l_cbrv := l7 |} 1]>
                   (delete l6 (handle_store parent c
                     {| l_req := l0; l_rowbuf := l1; l_rowbuf_rv := l2;
                        l_rawrows := l3; l_rawrows_rv := l4; l_parent_rv := l5;
                        l_blessed := l6; l_cbrv := l7 |} h))).
  { unfold handle_store, req_cell. cbn [l_req l_rowbuf l_rowbuf_rv l_rawrows l_rawrows_rv l_parent_rv l_blessed l_cbrv].
    apply (SvREFCNT_dec_release 2).
    erewrite release_free; [|map_lookup; reflexivity|clear -Hc; cbn; lia].
    cbn [children contents app].
    erewrite release_keep; [|map_lookup; reflexivity|clear -Hc; cbn; lia].
    reflexivity. }
  assert (E2 : SvREFCNT_dec l7 (handle_store parent c
                 {| l_req := l0; l_rowbuf := l1; l_rowbuf_rv := l2;
                    l_rawrows := l3; l_rawrows_rv := l4; l_parent_rv := l5;
                    l_blessed := l6; l_cbrv := l7 |} h)
               = <[l0 := req_cell parent
                     {| l_req := l0; l_rowbuf := l1; l_rowbuf_rv := l2;
                        l_rawrows := l3; l_rawrows_rv := l4; l_parent_rv := l5;
                        l_blessed := l6; l_cbrv := l7 |} 1]>
                   (delete l7 (handle_store parent c
                     {| l_req := l0; l_rowbuf := l1; l_rowbuf_rv := l2;
                        l_rawrows := l3; l_rawrows_rv := l4; l_parent_rv := l5;
                        l_blessed := l6; l_cbrv := l7 |} h))).
  { unfold handle_store, req_cell. cbn [l_req l_rowbuf l_rowbuf_rv l_rawrows l_rawrows_rv l_parent_rv l_blessed l_cbrv].
    apply (SvREFCNT_dec_release 2).
    erewrite release_free; [|map_lookup; reflexivity|clear -Hc; cbn; lia].
    cbn [children contents app].
    erewrite release_keep; [|map_lookup; reflexivity|clear -Hc; cbn; lia].
    reflexivity. }
  unfold handle_store, req_cell in E1, E2.
  cbn [l_req l_rowbuf l_rowbuf_rv l_rawrows l_rawrows_rv l_parent_rv l_blessed l_cbrv] in E1, E2.
  split; [exact E1|]. split; [exact E2|]. split.
  - etrans; [exact (f_equal (SvREFCNT_dec l7) E1)|].
    etrans; [apply (SvREFCNT_dec_release 9)|].
    { do 7 (erewrite release_free;
              [|map_lookup; reflexivity|clear -Hc; cbn; lia];
            cbn [children contents app omap list_omap id]).
      erewrite release_keep; [|map_lookup; reflexivity|clear -Hc; cbn; lia].
      reflexivity. }
    cbn [refcnt contents Nat.pred].
    apply map_eq. intros i.
    destruct (decide (i = selfobj parent)) as [->|];
      [map_lookup; rewrite Hp; by destruct c|].
    repeat match goal with
           | Hf : h !! ?l = None |- _ =>
               destruct (decide (i = l)) as [->|]; [map_lookup; by rewrite Hf|];
               revert Hf
           end.
    intros. by map_lookup.
  - etrans; [exact (f_equal (SvREFCNT_dec l6) E2)|].
    etrans; [apply (SvREFCNT_dec_release 9)|].
    { do 7 (erewrite release_free;
              [|map_lookup; reflexivity|clear -Hc; cbn; lia];
            cbn [children contents app omap list_omap id]).
      erewrite release_keep; [|map_lookup; reflexivity|clear -Hc; cbn; lia].
      reflexivity. }
    cbn [refcnt contents Nat.pred].
    apply map_eq. intros i.
    destruct (decide (i = selfobj parent)) as [->|];
      [map_lookup; rewrite Hp; by destruct c|].
    repeat match goal with
           | Hf : h !! ?l = None |- _ =>
               destruct (decide (i = l)) as [->|]; [map_lookup; by rewrite Hf|];
               revert Hf
           end.
    intros. by map_lookup.
Qed.

Section IssueMore.

Variable lcb_view_query : nat → loc → lcb_CMDVIEWQUERY → Z.
Variable lcb_strerror : Z → string.
Variable plcb_of : loc → option PLCB_t.
Variable W : Type.
Variable lcb_wait : nat → W → W.

(** What an accepted submission returns, in terms of [handle_store]. *)
Lemma viewhandle_new_ok parent ddoc view options flags (h : heap) c :
  h !! selfobj parent = Some c →
  (∀ cookie, lcb_view_query (instance parent) cookie
               (initcmd ddoc view options flags) = LCB_SUCCESS) →
  ∃ k, NoDup (selfobj parent :: locs_of k)
    ∧ Forall (fun l => h !! l = None) (locs_of k)
    ∧ PLCB__viewhandle_new lcb_view_query lcb_strerror parent ddoc view
        options flags h
      = (handle_store parent c k h, Ok (l_blessed k)).
Proof.
  intros Hp Hrc.
  destruct (viewhandle_new_built lcb_view_query lcb_strerror
              parent ddoc view options flags h c Hp) as (k & Hnd & Hfresh & ->).
  exists k. split; [done|]. split; [done|].
  cbn zeta. by rewrite Hrc.
Qed.

(** X11. An accepted submission changes nothing that was in the store
    but the client object, which is referred to once more than before;
    the reference returned is new. *)
Theorem viewhandle_new_frame parent ddoc view options flags (h : heap) c :
  h !! selfobj parent = Some c →
  (∀ cookie, lcb_view_query (instance parent) cookie
               (initcmd ddoc view options flags) = LCB_SUCCESS) →
  ∃ blessed h',
    PLCB__viewhandle_new lcb_view_query lcb_strerror parent ddoc view
      options flags h = (h', Ok blessed)
    ∧ h !! blessed = None
    ∧ h' !! selfobj parent
      = Some {| refcnt := S (refcnt c); contents := contents c |}
    ∧ ∀ l, l ≠ selfobj parent → is_Some (h !! l) → h' !! l = h !! l.
Proof.
  intros Hp Hrc.
  destruct (viewhandle_new_ok parent ddoc view options flags h c Hp Hrc)
    as (k & Hnd & Hfresh & ->).
  exists (l_blessed k), (handle_store parent c k h). split; [done|].
  unfold handle_store. split_locs k Hnd Hfresh.
  split_and!; [done|by map_lookup|].
  intros l Hl [x Hx].
  repeat match goal with
         | Hf : h !! ?l' = None |- _ =>
             assert (l ≠ l') by (intros ->; congruence); revert Hf
         end.
  intros. by map_lookup.
Qed.

(** X12. The handle an accepted submission returns is an array blessed
    into the view package of the client, with a slot for every index up
    to [PLCB_VHIDX_MAX]: the row buffer and the accumulator slots refer
    to two distinct new empty arrays, the parent slot to the client
    object, and the callback, done, result code, metadata and HTTP
    status slots are NULL. *)
Theorem viewhandle_new_shape parent ddoc view options flags (h : heap) c :
  h !! selfobj parent = Some c →
  (∀ cookie, lcb_view_query (instance parent) cookie
               (initcmd ddoc view options flags) = LCB_SUCCESS) →
  ∃ blessed req elems rowbuf_rv rowbuf rawrows_rv rawrows parent_rv h',
    PLCB__viewhandle_new lcb_view_query lcb_strerror parent ddoc view
      options flags h = (h', Ok blessed)
    ∧ contents <$> h' !! blessed = Some (RV req)
    ∧ contents <$> h' !! req = Some (AV elems (Some (view_stash parent)))
    ∧ length elems = S PLCB_VHIDX_MAX
    ∧ elems !! vhidx_to_nat PLCB_VHIDX_ROWBUF = Some (Some rowbuf_rv)
    ∧ elems !! vhidx_to_nat PLCB_VHIDX_RAWROWS = Some (Some rawrows_rv)
    ∧ elems !! vhidx_to_nat PLCB_VHIDX_PARENT = Some (Some parent_rv)
    ∧ Forall (fun i => elems !! vhidx_to_nat i = Some None)
        [PLCB_VHIDX_PRIVCB; PLCB_VHIDX_ISDONE; PLCB_VHIDX_RC;
         PLCB_VHIDX_META; PLCB_VHIDX_HTCODE]
    ∧ h' !! rowbuf_rv = Some {| refcnt := 1; contents := RV rowbuf |}
    ∧ h' !! rawrows_rv = Some {| refcnt := 1; contents := RV rawrows |}
    ∧ h' !! rowbuf = Some {| refcnt := 1; contents := AV [] None |}
    ∧ h' !! rawrows = Some {| refcnt := 1; contents := AV [] None |}
    ∧ rowbuf ≠ rawrows
    ∧ h' !! parent_rv
      = Some {| refcnt := 1; contents := RV (selfobj parent) |}.
Proof.
  intros Hp Hrc.
  destruct (viewhandle_new_ok parent ddoc view options flags h c Hp Hrc)
    as (k & Hnd & Hfresh & ->).
  exists (l_blessed k), (l_req k),
    [Some (l_rowbuf_rv k); Some (l_rawrows_rv k); Some (l_parent_rv k);
     None; None; None; None; None; None],
    (l_rowbuf_rv k), (l_rowbuf k),
    (l_rawrows_rv k), (l_rawrows k), (l_parent_rv k),
    (handle_store parent c k h).
  split; [done|]. unfold handle_store. split_locs k Hnd Hfresh.
  split_and!; try (map_lookup; reflexivity); try done.
  repeat constructor.
Qed.

(** X13. [parent_from_req] finds in the handle the client that issued
    the query, and [PLCB__viewhandle_fetch] on the reference returned
    waits on the instance of that client, also once the engine has
    dropped its cookie. *)
Theorem fetch_waits_on_issuer parent ddoc view options flags (h : heap) c e :
  h !! selfobj parent = Some c →
  (1 ≤ refcnt c)%nat →
  (∀ cookie, lcb_view_query (instance parent) cookie
               (initcmd ddoc view options flags) = LCB_SUCCESS) →
  plcb_of (selfobj parent) = Some parent →
  ∃ blessed cbrv req h',
    PLCB__viewhandle_new lcb_view_query lcb_strerror parent ddoc view
      options flags h = (h', Ok blessed)
    ∧ contents <$> h' !! blessed = Some (RV req)
    ∧ contents <$> h' !! cbrv = Some (RV req)
    ∧ parent_from_req plcb_of req h' = Some parent
    ∧ PLCB__viewhandle_fetch plcb_of W lcb_wait blessed h' e
      = Some (lcb_wait (instance parent) e)
    ∧ PLCB__viewhandle_fetch plcb_of W lcb_wait blessed
        (SvREFCNT_dec cbrv h') e
      = Some (lcb_wait (instance parent) e).
Proof.
  intros Hp Hc Hrc Hplcb.
  destruct (viewhandle_new_ok parent ddoc view options flags h c Hp Hrc)
    as (k & Hnd & Hfresh & ->).
  destruct (handle_store_release parent c k h Hnd Hfresh Hp Hc)
    as (_ & E2 & _ & _).
  exists (l_blessed k), (l_cbrv k), (l_req k), (handle_store parent c k h).
  split; [done|]. rewrite E2. clear E2.
  unfold PLCB__viewhandle_fetch, parent_from_req, handle_store, req_cell.
  split_locs k Hnd Hfresh.
  split_and!; repeat (progress (map_lookup; cbn)); rewrite ?Hplcb; done.
Qed.

(** X14. The handle lives until both its references are gone. After an
    accepted submission the handle is referred to twice, by the
    reference returned and by the cookie. When the engine drops the
    cookie first, as the final event does, the reference returned still
    leads to the handle; when the consumer drops its reference first,
    the cookie still does. Once both are dropped, in either order, the
    store is as it was before the submission. *)
Theorem handle_lives_until_both_released
    parent ddoc view options flags (h : heap) c :
  h !! selfobj parent = Some c →
  (1 ≤ refcnt c)%nat →
  (∀ cookie, lcb_view_query (instance parent) cookie
               (initcmd ddoc view options flags) = LCB_SUCCESS) →
  ∃ blessed cbrv req h',
    PLCB__viewhandle_new lcb_view_query lcb_strerror parent ddoc view
      options flags h = (h', Ok blessed)
    ∧ blessed ≠ cbrv
    ∧ h' !! blessed = Some {| refcnt := 1; contents := RV req |}
    ∧ h' !! cbrv = Some {| refcnt := 1; contents := RV req |}
    ∧ refcnt <$> h' !! req = Some 2%nat
    ∧ (let h1 := SvREFCNT_dec cbrv h' in
       h1 !! cbrv = None
       ∧ h1 !! blessed = Some {| refcnt := 1; contents := RV req |}
       ∧ refcnt <$> h1 !! req = Some 1%nat
       ∧ SvREFCNT_dec blessed h1 = h)
    ∧ (let h2 := SvREFCNT_dec blessed h' in
       h2 !! blessed = None
       ∧ h2 !! cbrv = Some {| refcnt := 1; contents := RV req |}
       ∧ refcnt <$> h2 !! req = Some 1%nat
       ∧ SvREFCNT_dec cbrv h2 = h).
Proof.
  intros Hp Hc Hrc.
  destruct (viewhandle_new_ok parent ddoc view options flags h c Hp Hrc)
    as (k & Hnd & Hfresh & ->).
  destruct (handle_store_release parent c k h Hnd Hfresh Hp Hc)
    as (E1 & E2 & E3 & E4).
  exists (l_blessed k), (l_cbrv k), (l_req k), (handle_store parent c k h).
  split; [done|]. cbn zeta. rewrite E3, E4, E1, E2. clear E1 E2 E3 E4.
  unfold handle_store, req_cell. split_locs k Hnd Hfresh.
  split_and!; try done; map_lookup; done.
Qed.

End IssueMore.

End MemMore.

(** ** The theorems at sample inputs *)

(** Without [G_EVAL] the fault of the consumer would unwind through
    the dispatcher: it is the flag that keeps it inside [invoke_row]. *)
Example call_sv_without_G_EVAL :
  call_sv unit faulty None [G_DISCARD] (world_init tt)
  = Croak {| fmt := "boom"; fmt_args := [] |}.
Proof. reflexivity. Qed.

(** Twenty rows are not enough for an intermediate flush; the
    twenty-first triggers it, and the final event then hands over an
    empty batch. *)
Example run_20_rows :
  observe call_sizes
    (dispatch unit quiet (replicate 20 sample_row ++ [sample_final])
       (world_init tt))
  = Some [Some 20%nat; None].
Proof. vm_compute. reflexivity. Qed.

Example run_21_rows :
  observe call_sizes
    (dispatch unit quiet (replicate 21 sample_row ++ [sample_final])
       (world_init tt))
  = Some [Some 21%nat; Some 0%nat; None].
Proof. vm_compute. reflexivity. Qed.

(** Scenario A with the sizes the code produces, and the state of the
    handle at the end. *)
Example run_25_rows :
  observe (fun w => (call_sizes w, isDone (req w),
                     slots (req w) !! PLCB_VHIDX_RC,
                     slots (req w) !! PLCB_VHIDX_HTCODE,
                     length (rawrows (req w)), cookie_refcnt w))
    (dispatch unit quiet (replicate 25 sample_row ++ [sample_final])
       (world_init tt))
  = Some ([Some 21%nat; Some 4%nat; None], true,
          Some (SvIV LCB_SUCCESS), Some (SvIV 200), 0%nat, 0%nat).
Proof. vm_compute. reflexivity. Qed.

(** A consumer dying at every invocation: three invocations, three
    warnings, and the dispatcher returns. *)
Example run_faulty :
  observe (fun w => (call_sizes w, warnings (trace w)))
    (dispatch unit faulty (replicate 25 sample_row ++ [sample_final])
       (world_init tt))
  = Some ([Some 21%nat; Some 4%nat; None],
          [got_error_in "boom"; got_error_in "boom"; got_error_in "boom"]).
Proof. vm_compute. reflexivity. Qed.

(** Creation against an engine that accepts, and against one that
    rejects. *)
Example issue_accepted :
  let r := Mem.PLCB__viewhandle_new Mem.accepting Mem.sample_strerror
             Mem.sample_parent "beer" "by_name" "limit=10" 0 Mem.sample_store in
  (size r.1, Mem.refcnt <$> r.1 !! 5%positive, r.2)
  = (9%nat, Some 3%nat, Ok 12%positive).
Proof. vm_compute. reflexivity. Qed.

Example issue_rejected :
  Mem.PLCB__viewhandle_new Mem.rejecting Mem.sample_strerror
    Mem.sample_parent "beer" "by_name" "limit=10" 0 Mem.sample_store
  = (Mem.sample_store,
     Croak {| fmt := "Couldn't issue view query: (0x%x): %s";
              fmt_args := [ArgInt 23; ArgStr "Network failure"] |}).
Proof. vm_compute. reflexivity. Qed.

Lemma sample_rows_are_rows n :
  Forall (fun r => is_final r = false) (replicate n sample_row).
Proof. by apply Forall_replicate. Qed.

Lemma C1_batches_of_25_rows_witness :
  length (replicate 25 sample_row) = 25%nat
  ∧ Forall (fun r => is_final r = false) (replicate 25 sample_row)
  ∧ is_final sample_final = true
  ∧ ∃ w', dispatch unit quiet (replicate 25 sample_row ++ [sample_final])
            (world_init tt) = Ok w'
      ∧ calls (trace w') = (Some <$> batches (trace w')) ++ [None]
      ∧ length <$> batches (trace w') = [21%nat; 4%nat]
      ∧ length <$> nonempty_batches (trace w') = [21%nat; 4%nat]
      ∧ length <$> nonempty_batches (trace w') ≠ [20%nat; 5%nat].
Proof.
  split_and!; [reflexivity|apply sample_rows_are_rows|reflexivity|].
  apply (C1_batches_of_25_rows quiet);
    [reflexivity|apply sample_rows_are_rows|reflexivity].
Defined.

(** C2 as the specification states it does not hold: a query with no
    row event makes the dispatcher invoke the consumer with an empty
    batch before the invocation without rows. *)
Lemma C2_counterexample :
  ∃ w', dispatch unit quiet [sample_final] (world_init tt) = Ok w'
    ∧ calls (trace w') = [Some []; None]
    ∧ ¬ no_empty_batch (trace w').
Proof.
  eexists. split; [reflexivity|]. split; [reflexivity|].
  intros H. apply Forall_cons in H as [H _]. by apply H.
Qed.

Lemma C2_final_flush_unconditional_witness :
  is_final sample_final = true
  ∧ (∃ w', viewrow_callback unit quiet sample_final (world_init tt) = Ok w'
       ∧ calls (trace w')
         = calls (trace (world_init tt))
           ++ [Some (rawrows (req (world_init tt))); None]
       ∧ rawrows (req w') = []
       ∧ rowbuf (req w') = rowbuf (req (world_init tt)))
  ∧ (∃ w0, dispatch unit quiet [sample_final] (world_init tt) = Ok w0
       ∧ calls (trace w0) = [Some []; None]
       ∧ nonempty_batches (trace w0) = []
       ∧ rawrows (req w0) = []
       ∧ rowbuf (req w0) = []).
Proof.
  split; [reflexivity|].
  apply (C2_final_flush_unconditional quiet sample_final (world_init tt) tt).
  reflexivity.
Defined.

Lemma C4_rows_in_arrival_order_witness :
  Forall (fun r => is_final r = false) (replicate 25 sample_row)
  ∧ (∃ w1, dispatch unit quiet (replicate 25 sample_row) (world_init tt) = Ok w1
       ∧ concat (batches (trace w1)) ++ rawrows (req w1)
         = rowdata_of <$> replicate 25 sample_row)
  ∧ (∀ f, is_final f = true →
       ∃ w', dispatch unit quiet (replicate 25 sample_row ++ [f])
               (world_init tt) = Ok w'
         ∧ concat (batches (trace w')) = rowdata_of <$> replicate 25 sample_row).
Proof.
  split; [apply sample_rows_are_rows|].
  apply (C4_rows_in_arrival_order quiet). apply sample_rows_are_rows.
Defined.


Lemma faulty_reports_return : Full.reports_return Full.faulty Full.silent.
Proof.
  split; [done|]. intros c h a e [= <-] _. by eexists.
Qed.

Lemma quiet_reports_return : Full.reports_return Full.quiet Full.silent.
Proof. split; [done|]. intros c h a e [=]. Qed.

Lemma quiet_keeps_nothing : Full.keeps_nothing Full.quiet.
Proof. done. Qed.


(** C5 as the specification states it does not hold: a row event whose
    key is missing and one whose key is there but empty give the same
    row. *)
Lemma C5_counterexample :
  key sample_row_no_key = None
  ∧ key sample_row_empty_key = Some []
  ∧ rowdata_of sample_row_no_key !! "key" = Some SvUndef
  ∧ rowdata_of sample_row_empty_key !! "key" = Some SvUndef
  ∧ rowdata_of sample_row_no_key = rowdata_of sample_row_empty_key.
Proof. split_and!; reflexivity. Qed.

Lemma C6_embedded_document_iff_success_witness :
  let resp := sample_row_doc LCB_SUCCESS (Some [x7b; x7d]) 2 in
  let d := {| get_rc := LCB_SUCCESS; get_value := Some [x7b; x7d];
              get_nvalue := 2 |} in
  docresp resp = Some d
  ∧ is_final resp = false
  ∧ rowdata_of resp !! "__doc__" = Some (SvPV [x7b; x7d] false)
  ∧ rowdata_of resp !! "key" = Some (SvPV [x22; x61; x22] true)
  ∧ rowdata_of resp !! "value" = Some (SvPV [x31] true)
  ∧ rowdata_of (sample_row_doc 13 (Some [x7b; x7d]) 2) !! "__doc__" = None
  ∧ ∃ w', viewrow_callback unit quiet resp (world_init tt) = Ok w'
      ∧ concat (batches (trace w')) ++ rawrows (req w')
        = concat (batches (trace (world_init tt)))
          ++ rawrows (req (world_init tt)) ++ [rowdata_of resp].
Proof.
  intros resp d.
  destruct (C6_embedded_document_iff_success quiet resp d (world_init tt))
    as (_ & Hdoc & _ & _ & _ & Hkey & Hval & Hrun & _); [reflexivity|reflexivity|].
  destruct (C6_embedded_document_iff_success quiet
              (sample_row_doc 13 (Some [x7b; x7d]) 2)
              {| get_rc := 13; get_value := Some [x7b; x7d]; get_nvalue := 2 |}
              (world_init tt))
    as (_ & _ & Hno & _); [reflexivity|reflexivity|].
  split; [reflexivity|]. split; [reflexivity|].
  split; [exact (Hdoc eq_refl)|].
  split; [exact (Hkey _ 2%nat eq_refl eq_refl)|].
  split; [exact (Hval _ 0%nat eq_refl eq_refl)|].
  split; [apply Hno; discriminate|]. exact Hrun.
Defined.

Lemma C8_terminal_fields_write_once_witness :
  Forall (fun r => is_final r = false) (replicate 25 sample_row)
  ∧ is_final sample_final = true
  ∧ ∃ r, Full.dispatch unit Full.faulty Full.silent
           (replicate 25 sample_row ++ [sample_final]) (Full.world_init tt)
         = Some r
      ∧ Forall (fun v => match v.2 with
                         | Some _ => isDone v.1 = false
                                     ∧ Forall (fun i => unset i v.1) terminal_slots
                         | None => isDone v.1 = true
                         end) (Full.views (Full.trace (Full.world_of r)))
      ∧ (∀ i, length (Full.stores_to i (Full.trace (Full.world_of r))) ≤ 1)%nat
      ∧ (Full.returned r = true → isDone (Full.req (Full.world_of r)) = true)
      ∧ (Full.reports_return Full.faulty Full.silent → Full.returned r = true).
Proof.
  split; [apply sample_rows_are_rows|]. split; [reflexivity|].
  destruct (FullFacts.C8_terminal_fields_write_once Full.faulty Full.silent
              (replicate 25 sample_row) sample_final tt)
    as (_ & _ & H & _); [apply sample_rows_are_rows|reflexivity|].
  exact H.
Defined.

(** C9 as the specification states it does not hold. The consumer
    having kept a reference to the cookie, a second final event reaches
    a handle that is done: the dispatcher runs the terminal path again
    and returns, and the consumer has been invoked without rows twice.
    The consumer having kept none, the first final event frees the
    cookie, and on the second the dispatcher has no defined behaviour:
    it reads the freed cookie, where the specification has it report an
    error. *)
Lemma C9_counterexample :
  Full.observe
    (fun w => (isDone (Full.req w), Full.cookie_refcnt w))
    (Full.dispatch bool Full.keeper Full.silent [sample_final]
       (Full.world_init false))
  = Some (None, (true, 1%nat))
  ∧ Full.observe
      (fun w => (Full.calls (Full.trace w), Full.none_count (Full.trace w)))
      (Full.dispatch bool Full.keeper Full.silent [sample_final; sample_final]
         (Full.world_init false))
    = Some (None, ([Some []; None; Some []; None], 2%nat))
  ∧ Full.observe
      (fun w => (isDone (Full.req w), Full.cookie_refcnt w))
      (Full.dispatch unit Full.quiet Full.silent [sample_final]
         (Full.world_init tt))
    = Some (None, (true, 0%nat))
  ∧ Full.observe
      (fun w => Full.none_count (Full.trace w))
      (Full.dispatch unit Full.quiet Full.silent [sample_final; sample_final]
         (Full.world_init tt))
    = None.
Proof. split_and!; vm_compute; reflexivity. Qed.

Lemma C9_none_once_per_final_event_witness :
  Forall (fun r => is_final r = false) (replicate 25 sample_row)
  ∧ is_final sample_final = true
  ∧ Full.reports_return Full.quiet Full.silent
  ∧ Full.keeps_nothing Full.quiet
  ∧ ∃ w', Full.dispatch unit Full.quiet Full.silent
            (replicate 25 sample_row ++ [sample_final]) (Full.world_init tt)
          = Some (Full.Ret w')
      ∧ Full.none_count (Full.trace w') = 1%nat
      ∧ last (Full.calls (Full.trace w')) = Some None
      ∧ (Full.keeps_nothing Full.quiet →
         Full.cookie_refcnt w' = 0%nat
         ∧ ∀ ev evs, Full.dispatch unit Full.quiet Full.silent (ev :: evs) w'
                     = None).
Proof.
  split; [apply sample_rows_are_rows|]. split; [reflexivity|].
  split; [apply quiet_reports_return|]. split; [apply quiet_keeps_nothing|].
  destruct (FullFacts.C9_none_once_per_final_event Full.quiet Full.silent
              (replicate 25 sample_row) sample_final tt)
    as (H & _); [apply sample_rows_are_rows|reflexivity|].
  apply H, quiet_reports_return.
Defined.

(** C10 as the specification states it does not hold for a NULL
    payload: the "__doc__" entry of a successful sub-response with a
    NULL pointer holds the undefined value, not an empty string. *)
Lemma C10_counterexample :
  rowdata_of (sample_row_doc LCB_SUCCESS None 0) !! "__doc__" = Some SvUndef
  ∧ rowdata_of (sample_row_doc LCB_SUCCESS None 0) !! "__doc__"
    ≠ Some (SvPV [] false).
Proof. split; [reflexivity|discriminate]. Qed.

Lemma C10_embedded_document_verbatim_witness :
  let resp := sample_row_doc LCB_SUCCESS (Some [x7b; x7d]) 0 in
  let d := {| get_rc := LCB_SUCCESS; get_value := Some [x7b; x7d];
              get_nvalue := 0 |} in
  docresp resp = Some d
  ∧ get_rc d = LCB_SUCCESS
  ∧ is_final sample_final = true
  ∧ rowdata_of resp !! "__doc__" = Some (newSVpvn (get_value d) (get_nvalue d))
  ∧ (∀ buf, get_value d = Some buf →
       rowdata_of resp !! "__doc__" = Some (SvPV (take (get_nvalue d) buf) false))
  ∧ (∀ buf, get_value d = Some buf → get_nvalue d = 0%nat →
       rowdata_of resp !! "__doc__" = Some (SvPV [] false))
  ∧ (get_value d = None → rowdata_of resp !! "__doc__" = Some SvUndef)
  ∧ (∃ w', viewrow_callback unit quiet sample_final (world_init tt) = Ok w'
       ∧ slots (req w') !! PLCB_VHIDX_META
         = Some (sv_from_rowdata (value sample_final) (nvalue sample_final))
       ∧ (value sample_final = None ∨ nvalue sample_final = 0%nat →
          slots (req w') !! PLCB_VHIDX_META = Some SvUndef)).
Proof.
  intros resp d. split; [reflexivity|]. split; [reflexivity|].
  split; [reflexivity|].
  apply (C10_embedded_document_verbatim quiet resp d sample_final (world_init tt));
    reflexivity.
Defined.

Lemma C7_rejected_submission_releases_all_witness :
  Mem.sample_store !! Mem.selfobj Mem.sample_parent
  = Some {| Mem.refcnt := 2; Mem.contents := Mem.Scalar |}
  ∧ (1 ≤ 2)%nat
  ∧ (∀ cookie, Mem.rejecting (Mem.instance Mem.sample_parent) cookie
                 (Mem.initcmd "beer" "by_name" "limit=10" 0) = 23)
  ∧ 23 ≠ LCB_SUCCESS
  ∧ Mem.PLCB__viewhandle_new Mem.rejecting Mem.sample_strerror Mem.sample_parent
      "beer" "by_name" "limit=10" 0 Mem.sample_store
    = (Mem.sample_store,
       Croak {| fmt := "Couldn't issue view query: (0x%x): %s";
                fmt_args := [ArgInt 23; ArgStr (Mem.sample_strerror 23)] |}).
Proof.
  split; [reflexivity|]. split; [lia|]. split; [reflexivity|].
  split; [discriminate|].
  apply (MemFacts.C7_rejected_submission_releases_all
           Mem.rejecting Mem.sample_strerror Mem.sample_parent
           "beer" "by_name" "limit=10" 0 Mem.sample_store
           {| Mem.refcnt := 2; Mem.contents := Mem.Scalar |} 23);
    [reflexivity|cbn; lia|reflexivity|discriminate].
Defined.

Lemma rows_below_threshold_are_buffered_witness :
  Forall (fun r => is_final r = false) (replicate 20 sample_row)
  ∧ (length (replicate 20 sample_row) ≤ 20)%nat
  ∧ ∃ w', dispatch unit quiet (replicate 20 sample_row) (world_init tt) = Ok w'
      ∧ calls (trace w') = []
      ∧ rawrows (req w') = rowdata_of <$> replicate 20 sample_row
      ∧ consumer w' = tt
      ∧ slots (req w') = ∅.
Proof.
  split; [apply sample_rows_are_rows|]. split; [cbn; lia|].
  apply (rows_below_threshold_are_buffered quiet);
    [apply sample_rows_are_rows|cbn; lia].
Defined.

Lemma terminal_slots_after_final_witness :
  is_final sample_final = true
  ∧ ∃ w', viewrow_callback unit quiet sample_final (world_init tt) = Ok w'
      ∧ slots (req w') !! PLCB_VHIDX_ISDONE = Some SvYes
      ∧ slots (req w') !! PLCB_VHIDX_RC = Some (SvIV (rc sample_final))
      ∧ slots (req w') !! PLCB_VHIDX_META
        = Some (sv_from_rowdata (value sample_final) (nvalue sample_final))
      ∧ slots (req w') !! PLCB_VHIDX_HTCODE
        = match htresp sample_final with
          | Some ht => Some (SvIV (htstatus ht))
          | None => slots (req (world_init tt)) !! PLCB_VHIDX_HTCODE
          end.
Proof.
  split; [reflexivity|].
  apply (terminal_slots_after_final quiet sample_final (world_init tt)).
  reflexivity.
Defined.

Lemma batch_sizes_of_query_witness :
  Forall (fun r => is_final r = false) (replicate 42 sample_row)
  ∧ is_final sample_final = true
  ∧ ∃ w', dispatch unit quiet (replicate 42 sample_row ++ [sample_final])
            (world_init tt) = Ok w'
      ∧ calls (trace w') = (Some <$> batches (trace w')) ++ [None]
      ∧ length <$> batches (trace w')
        = replicate (length (replicate 42 sample_row) / 21) 21%nat
          ++ [(length (replicate 42 sample_row) mod 21)%nat]
      ∧ length (calls (trace w'))
        = (length (replicate 42 sample_row) / 21 + 2)%nat.
Proof.
  split; [apply sample_rows_are_rows|]. split; [reflexivity|].
  apply (batch_sizes_of_query quiet);
    [apply sample_rows_are_rows|reflexivity].
Defined.

Lemma sv_from_rowdata_shape_witness :
  (∀ buf, Some [x61; x62; x63] = Some buf → (2 ≤ length buf)%nat)
  ∧ match sv_from_rowdata (Some [x61; x62; x63]) 2 with
    | SvUndef => Some [x61; x62; x63] = None ∨ 2%nat = 0%nat
    | SvPV bs utf8 =>
        utf8 = true ∧ length bs = 2%nat ∧ (0 < 2)%nat
        ∧ ∃ buf, Some [x61; x62; x63] = Some buf ∧ bs = take 2 buf
    | _ => False
    end.
Proof.
  assert (H : ∀ buf, Some [x61; x62; x63] = Some buf → (2 ≤ length buf)%nat)
    by (intros buf [= <-]; cbn; lia).
  split; [exact H|].
  exact (sv_from_rowdata_shape (Some [x61; x62; x63]) 2 H).
Defined.

Lemma viewhandle_new_frame_witness :
  Mem.sample_store !! Mem.selfobj Mem.sample_parent
  = Some {| Mem.refcnt := 2; Mem.contents := Mem.Scalar |}
  ∧ (∀ cookie, Mem.accepting (Mem.instance Mem.sample_parent) cookie
                 (Mem.initcmd "beer" "by_name" "limit=10" 0) = LCB_SUCCESS)
  ∧ ∃ blessed h',
      Mem.PLCB__viewhandle_new Mem.accepting Mem.sample_strerror
        Mem.sample_parent "beer" "by_name" "limit=10" 0 Mem.sample_store
      = (h', Ok blessed)
      ∧ Mem.sample_store !! blessed = None
      ∧ h' !! Mem.selfobj Mem.sample_parent
        = Some {| Mem.refcnt := 3; Mem.contents := Mem.Scalar |}
      ∧ ∀ l, l ≠ Mem.selfobj Mem.sample_parent →
             is_Some (Mem.sample_store !! l) → h' !! l = Mem.sample_store !! l.
Proof.
  split; [reflexivity|]. split; [reflexivity|].
  apply (MemMore.viewhandle_new_frame Mem.accepting Mem.sample_strerror
           Mem.sample_parent "beer" "by_name" "limit=10" 0 Mem.sample_store
           {| Mem.refcnt := 2; Mem.contents := Mem.Scalar |});
    reflexivity.
Defined.

Lemma viewhandle_new_shape_witness :
  Mem.sample_store !! Mem.selfobj Mem.sample_parent
  = Some {| Mem.refcnt := 2; Mem.contents := Mem.Scalar |}
  ∧ (∀ cookie, Mem.accepting (Mem.instance Mem.sample_parent) cookie
                 (Mem.initcmd "beer" "by_name" "limit=10" 0) = LCB_SUCCESS)
  ∧ ∃ blessed req elems rowbuf_rv rowbuf rawrows_rv rawrows parent_rv h',
      Mem.PLCB__viewhandle_new Mem.accepting Mem.sample_strerror
        Mem.sample_parent "beer" "by_name" "limit=10" 0 Mem.sample_store
      = (h', Ok blessed)
      ∧ Mem.contents <$> h' !! blessed = Some (Mem.RV req)
      ∧ Mem.contents <$> h' !! req
        = Some (Mem.AV elems (Some (Mem.view_stash Mem.sample_parent)))
      ∧ length elems = S Mem.PLCB_VHIDX_MAX
      ∧ elems !! vhidx_to_nat PLCB_VHIDX_ROWBUF = Some (Some rowbuf_rv)
      ∧ elems !! vhidx_to_nat PLCB_VHIDX_RAWROWS = Some (Some rawrows_rv)
      ∧ elems !! vhidx_to_nat PLCB_VHIDX_PARENT = Some (Some parent_rv)
      ∧ Forall (fun i => elems !! vhidx_to_nat i = Some None)
          [PLCB_VHIDX_PRIVCB; PLCB_VHIDX_ISDONE; PLCB_VHIDX_RC;
           PLCB_VHIDX_META; PLCB_VHIDX_HTCODE]
      ∧ h' !! rowbuf_rv
        = Some {| Mem.refcnt := 1; Mem.contents := Mem.RV rowbuf |}
      ∧ h' !! rawrows_rv
        = Some {| Mem.refcnt := 1; Mem.contents := Mem.RV rawrows |}
      ∧ h' !! rowbuf = Some {| Mem.refcnt := 1; Mem.contents := Mem.AV [] None |}
      ∧ h' !! rawrows = Some {| Mem.refcnt := 1; Mem.contents := Mem.AV [] None |}
      ∧ rowbuf ≠ rawrows
      ∧ h' !! parent_rv
        = Some {| Mem.refcnt := 1;
                  Mem.contents := Mem.RV (Mem.selfobj Mem.sample_parent) |}.
Proof.
  split; [reflexivity|]. split; [reflexivity|].
  apply (MemMore.viewhandle_new_shape Mem.accepting Mem.sample_strerror
           Mem.sample_parent "beer" "by_name" "limit=10" 0 Mem.sample_store
           {| Mem.refcnt := 2; Mem.contents := Mem.Scalar |});
    reflexivity.
Defined.

Lemma fetch_waits_on_issuer_witness :
  Mem.sample_store !! Mem.selfobj Mem.sample_parent
  = Some {| Mem.refcnt := 2; Mem.contents := Mem.Scalar |}
  ∧ (1 ≤ 2)%nat
  ∧ (∀ cookie, Mem.accepting (Mem.instance Mem.sample_parent) cookie
                 (Mem.initcmd "beer" "by_name" "limit=10" 0) = LCB_SUCCESS)
  ∧ Mem.sample_plcb_of (Mem.selfobj Mem.sample_parent) = Some Mem.sample_parent
  ∧ ∃ blessed cbrv req h',
      Mem.PLCB__viewhandle_new Mem.accepting Mem.sample_strerror
        Mem.sample_parent "beer" "by_name" "limit=10" 0 Mem.sample_store
      = (h', Ok blessed)
      ∧ Mem.contents <$> h' !! blessed = Some (Mem.RV req)
      ∧ Mem.contents <$> h' !! cbrv = Some (Mem.RV req)
      ∧ Mem.parent_from_req Mem.sample_plcb_of req h' = Some Mem.sample_parent
      ∧ Mem.PLCB__viewhandle_fetch Mem.sample_plcb_of nat Mem.sample_wait
          blessed h' 0%nat
        = Some (Mem.sample_wait (Mem.instance Mem.sample_parent) 0%nat)
      ∧ Mem.PLCB__viewhandle_fetch Mem.sample_plcb_of nat Mem.sample_wait
          blessed (Mem.SvREFCNT_dec cbrv h') 0%nat
        = Some (Mem.sample_wait (Mem.instance Mem.sample_parent) 0%nat).
Proof.
  split; [reflexivity|]. split; [lia|]. split; [reflexivity|].
  split; [reflexivity|].
  apply (MemMore.fetch_waits_on_issuer Mem.accepting Mem.sample_strerror
           Mem.sample_plcb_of nat Mem.sample_wait
           Mem.sample_parent "beer" "by_name" "limit=10" 0 Mem.sample_store
           {| Mem.refcnt := 2; Mem.contents := Mem.Scalar |} 0%nat);
    [reflexivity|cbn; lia|reflexivity|reflexivity].
Defined.

Lemma handle_lives_until_both_released_witness :
  Mem.sample_store !! Mem.selfobj Mem.sample_parent
  = Some {| Mem.refcnt := 2; Mem.contents := Mem.Scalar |}
  ∧ (1 ≤ 2)%nat
  ∧ (∀ cookie, Mem.accepting (Mem.instance Mem.sample_parent) cookie
                 (Mem.initcmd "beer" "by_name" "limit=10" 0) = LCB_SUCCESS)
  ∧ ∃ blessed cbrv req h',
      Mem.PLCB__viewhandle_new Mem.accepting Mem.sample_strerror
        Mem.sample_parent "beer" "by_name" "limit=10" 0 Mem.sample_store
      = (h', Ok blessed)
      ∧ blessed ≠ cbrv
      ∧ h' !! blessed = Some {| Mem.refcnt := 1; Mem.contents := Mem.RV req |}
      ∧ h' !! cbrv = Some {| Mem.refcnt := 1; Mem.contents := Mem.RV req |}
      ∧ Mem.refcnt <$> h' !! req = Some 2%nat
      ∧ (let h1 := Mem.SvREFCNT_dec cbrv h' in
         h1 !! cbrv = None
         ∧ h1 !! blessed = Some {| Mem.refcnt := 1; Mem.contents := Mem.RV req |}
         ∧ Mem.refcnt <$> h1 !! req = Some 1%nat
         ∧ Mem.SvREFCNT_dec blessed h1 = Mem.sample_store)
      ∧ (let h2 := Mem.SvREFCNT_dec blessed h' in
         h2 !! blessed = None
         ∧ h2 !! cbrv = Some {| Mem.refcnt := 1; Mem.contents := Mem.RV req |}
         ∧ Mem.refcnt <$> h2 !! req = Some 1%nat
         ∧ Mem.SvREFCNT_dec cbrv h2 = Mem.sample_store).
Proof.
  split; [reflexivity|]. split; [lia|]. split; [reflexivity|].
  apply (MemMore.handle_lives_until_both_released
           Mem.accepting Mem.sample_strerror
           Mem.sample_parent "beer" "by_name" "limit=10" 0 Mem.sample_store
           {| Mem.refcnt := 2; Mem.contents := Mem.Scalar |});
    [reflexivity|cbn; lia|reflexivity].
Defined.

Lemma final_event_order_witness :
  is_final sample_final = true
  ∧ Full.cookie_refcnt Full.sample_world_20 ≠ 0%nat
  ∧ ∃ w', Full.world_of
            <$> Full.viewrow_callback unit Full.faulty Full.fatal_warnings
                  sample_final Full.sample_world_20 = Some w'
      ∧ Full.viewrow_callback unit Full.faulty Full.fatal_warnings
          sample_final Full.sample_world_20
        = Some (Full.Unwound "warning made fatal" w')
      ∧ Full.req w' = Full.req Full.sample_world_20
      ∧ Full.trace w'
        = [Full.EWaitUnref;
           Full.ECall (Full.req Full.sample_world_20)
             (Some (rawrows (Full.req Full.sample_world_20)))
             (Full.Died {| Full.err_true := true;
                           Full.err_text := Full.Text "boom" |});
           Full.EWarn (got_error_in "boom")]
      ∧ Full.cookie_refcnt w' = 1%nat.
Proof.
  split; [reflexivity|]. split; [discriminate|].
  apply (FullFacts.final_event_order Full.faulty Full.fatal_warnings
           sample_final Full.sample_world_20); [reflexivity|discriminate].
Defined.

Lemma threshold_flush_witness :
  is_final sample_row = false
  ∧ Full.cookie_refcnt Full.sample_world_20 ≠ 0%nat
  ∧ (20 ≤ length (rawrows (Full.req Full.sample_world_20)))%nat
  ∧ ∃ w', Full.world_of
            <$> Full.viewrow_callback unit Full.faulty Full.silent
                  sample_row Full.sample_world_20 = Some w'
      ∧ Full.consumer w' = tt
      ∧ Full.cookie_refcnt w' = (1 + 0)%nat
      ∧ Full.viewrow_callback unit Full.faulty Full.silent
          sample_row Full.sample_world_20 = Some (Full.Ret w')
      ∧ Full.req w' = {| slots := ∅; rowbuf := []; rawrows := [] |}
      ∧ Full.trace w'
        = [Full.EWaitUnref;
           Full.ECall
             {| slots := ∅; rowbuf := [];
                rawrows := replicate 21 (rowdata_of sample_row) |}
             (Some (replicate 21 (rowdata_of sample_row)))
             (Full.Died {| Full.err_true := true;
                           Full.err_text := Full.Text "boom" |});
           Full.EWarn (got_error_in "boom");
           Full.EClear RefRawrows].
Proof.
  split; [reflexivity|]. split; [discriminate|]. split; [cbn; lia|].
  apply (FullFacts.threshold_flush Full.faulty Full.silent
           sample_row Full.sample_world_20); [reflexivity|discriminate|cbn; lia].
Defined.

Lemma accumulator_bounded_witness :
  Forall (fun r => is_final r = false) (replicate 25 sample_row)
  ∧ is_final sample_final = true
  ∧ Full.reports_return Full.faulty Full.silent
  ∧ ∃ w', Full.dispatch unit Full.faulty Full.silent
            (replicate 25 sample_row ++ [sample_final]) (Full.world_init tt)
          = Some (Full.Ret w')
      ∧ rawrows (Full.req w') = []
      ∧ Forall (fun b => (length b ≤ 21)%nat) (Full.batches (Full.trace w')).
Proof.
  split; [apply sample_rows_are_rows|]. split; [reflexivity|].
  split; [apply faulty_reports_return|].
  destruct (FullFacts.accumulator_bounded Full.faulty Full.silent
              (replicate 25 sample_row) sample_final tt)
    as (_ & H); [apply sample_rows_are_rows|reflexivity|].
  apply H, faulty_reports_return.
Defined.

Lemma cookie_dropped_last_witness :
  Forall (fun r => is_final r = false) (replicate 25 sample_row)
  ∧ is_final sample_final = true
  ∧ Full.reports_return Full.quiet Full.silent
  ∧ Full.keeps_nothing Full.quiet
  ∧ ∃ r, Full.dispatch unit Full.quiet Full.silent
           (replicate 25 sample_row ++ [sample_final]) (Full.world_init tt)
         = Some r
      ∧ (Full.reports_return Full.quiet Full.silent → Full.returned r = true)
      ∧ (Full.returned r = true →
         (∃ tr, Full.trace (Full.world_of r) = tr ++ [Full.ECookieDec]
                ∧ Full.drops tr = 0%nat)
         ∧ (Full.keeps_nothing Full.quiet →
            Full.cookie_refcnt (Full.world_of r) = 0%nat))
      ∧ (Full.returned r = false →
         Full.drops (Full.trace (Full.world_of r)) = 0%nat
         ∧ (1 ≤ Full.cookie_refcnt (Full.world_of r))%nat).
Proof.
  split; [apply sample_rows_are_rows|]. split; [reflexivity|].
  split; [apply quiet_reports_return|]. split; [apply quiet_keeps_nothing|].
  destruct (FullFacts.cookie_dropped_last Full.quiet Full.silent
              (replicate 25 sample_row) sample_final tt)
    as (_ & _ & H); [apply sample_rows_are_rows|reflexivity|].
  exact H.
Defined.

